(** * Kuhn poker: the game engine, the equilibrium table, the GTO agent and
    the tournament runner, embedded from the Python sources

    Python values are embedded as follows.
    - [int] is [Z] (unbounded), [//] is [Z.div] (floor division);
    - [str] is [string], compared with [String.eqb] where Python uses [==];
    - [list] is [list]; [dict] is stdpp's [gmap] where only lookups matter and
      an association list where the iteration order of the items is used;
    - [float] is the kernel's binary64 [float];
    - a raised exception is the [Raise] branch of [result]. *)

From Stdlib Require Import ZArith List String Ascii Bool Lia.
From Stdlib Require Import Numbers.Cyclic.Int63.Uint63 Floats.PrimFloat.
From stdpp Require Import base option list gmap strings.
Import ListNotations.

Open Scope string_scope.
Open Scope Z_scope.

(** ** Exceptions *)

(** The exceptions the modelled code can raise.  Python raises [ValueError]
    with different messages at several places; each place has its own tag. *)
Inductive PyError : Type :=
| IllegalAction          (* ValueError "Illegal action ... for state ..." *)
| InvalidBettingHistory  (* ValueError "Invalid betting history: ..." *)
| NonTerminalPayoff      (* ValueError "Cannot get payoff from non-terminal state" *)
| UnknownInformationSet  (* ValueError "Unknown information set: ..." *)
| InvalidCard            (* ValueError "Invalid card: ..." *)
| UnpackError            (* ValueError of a tuple unpacking of the wrong length *)
| KeyError               (* dict subscript with a missing key *)
| IndexError             (* list subscript out of range, choice from an empty list *)
| TypeError              (* subscript of None *)
| ZeroDivisionError      (* float division by zero *)
| OverflowError          (* quotient of two integers too large for a float *)
| WeightsError.          (* ValueError of random.choices on a non-positive or
                            non-finite total weight *)

Inductive result (A : Type) : Type :=
| Ok (a : A)
| Raise (e : PyError).
Arguments Ok {A} a.
Arguments Raise {A} e.

#[global] Instance result_ret : MRet result := fun A a => Ok a.

(** Sequencing: an exception aborts the rest of the computation. *)
#[global] Instance result_bind : MBind result := fun A B k r =>
  match r with
  | Ok a => k a
  | Raise e => Raise e
  end.

(** [d[k]] on a dict. *)
Definition getitem `{Countable K} {V} (d : gmap K V) (k : K) : result V :=
  match d !! k with
  | Some v => Ok v
  | None => Raise KeyError
  end.

(** [a in l] on a list of strings. *)
Definition str_in (a : string) (l : list string) : bool :=
  existsb (String.eqb a) l.

(** [l1 == l2] on lists of strings. *)
Fixpoint list_str_eqb (l1 l2 : list string) : bool :=
  match l1, l2 with
  | [], [] => true
  | a1 :: l1', a2 :: l2' => String.eqb a1 a2 && list_str_eqb l1' l2'
  | _, _ => false
  end.

(** [l[i] == s], used where a length test guards the subscript. *)
Definition item_eqb (l : list string) (i : nat) (s : string) : bool :=
  match l !! i with
  | Some x => String.eqb x s
  | None => false
  end.

(** ** kuhn_poker/state.py *)

Record GameState : Type := mkGameState {
  cards : gmap Z string;
  betting_history : list string;
  pot : Z;
  current_player : Z;
  is_terminal : bool;
  payoffs : option (gmap Z Z)
}.

(** [''.join(self.betting_history)] *)
Definition get_betting_string (self : GameState) : string :=
  String.concat "" (betting_history self).

Definition get_info_set (self : GameState) (player : Z) : result string :=
  card ← getitem (cards self) player;
  let history := betting_history self in
  match history with
  | [] => Ok (card ++ ".")
  | [h0] =>
      if String.eqb h0 "CHECK" then Ok (card ++ ".CHECK")
      else Ok (card ++ ".BET")
  | [_; _] =>
      if list_str_eqb history ["CHECK"; "CHECK"] then Ok (card ++ ".CHECKCHECK")
      else if list_str_eqb history ["CHECK"; "BET"] then Ok (card ++ ".BET")
      else if list_str_eqb history ["BET"; "CALL"] then Ok (card ++ ".BETCALL")
      else if list_str_eqb history ["BET"; "FOLD"] then Ok (card ++ ".BETFOLD")
      else Ok (card ++ "." ++ get_betting_string self)
  | _ => Ok (card ++ "." ++ get_betting_string self)
  end.

(** ** The module-level generator of Python's [random]

    The code never creates a generator of its own: [random.seed],
    [random.shuffle], [random.choice] and [random.choices] all act on the one
    hidden generator of the [random] module.  Its state is threaded explicitly.
    The generator itself is a parameter: [random_seed a] is the state after
    [random.seed(a)], [random_randbelow n] is [Random._randbelow(n)] and
    [random_random] is [random.random()]. *)
Class PyRandom (G : Type) : Type := {
  random_seed : Z -> G;
  random_randbelow : Z -> G -> Z * G;
  random_random : G -> float * G
}.

(** What Python guarantees of the two draws. *)
Definition randbelow_in_range `{PyRandom G} : Prop :=
  forall (n : Z) (g : G), 0 < n -> 0 <= (random_randbelow n g).1 < n.

(** The position a subscript [i] denotes in [l]: negative subscripts count
    from the end, anything else out of range raises [IndexError]. *)
Definition list_index {A} (l : list A) (i : Z) : result nat :=
  let n := Z.of_nat (length l) in
  let i' := if i <? 0 then i + n else i in
  if (i' <? 0) || (n <=? i') then Raise IndexError
  else Ok (Z.to_nat i').

(** [l[i]] on a list. *)
Definition list_getitem {A} (l : list A) (i : Z) : result A :=
  k ← list_index l i;
  match l !! k with
  | Some x => Ok x
  | None => Raise IndexError
  end.

(** [l[i] = x] on a list. *)
Definition list_setitem {A} (l : list A) (i : Z) (x : A) : result (list A) :=
  k ← list_index l i;
  Ok (<[k := x]> l).

Section Random.

Context {G : Type} `{PyRandom G}.

(** The body of [random.shuffle]'s loop for the indices [i], [i-1], ..., 1:
    [j = randbelow(i + 1); x[i], x[j] = x[j], x[i]]. *)
Fixpoint shuffle_from {A} (i : nat) (x : list A) (g : G)
    : result (list A * G) :=
  match i with
  | O => Ok (x, g)
  | S i' =>
      let '(j, g) := random_randbelow (Z.of_nat i + 1) g in
      xj ← list_getitem x j;
      xi ← list_getitem x (Z.of_nat i);
      x ← list_setitem x (Z.of_nat i) xj;
      x ← list_setitem x j xi;
      shuffle_from i' x g
  end.

(** [random.shuffle(x)]: [for i in reversed(range(1, len(x)))]. *)
Definition random_shuffle {A} (x : list A) (g : G) : result (list A * G) :=
  shuffle_from (length x - 1) x g.

(** [random.choice(seq)] *)
Definition random_choice {A} (seq : list A) (g : G) : result (A * G) :=
  if (length seq =? 0)%nat then Raise IndexError
  else
    let '(i, g) := random_randbelow (Z.of_nat (length seq)) g in
    x ← list_getitem seq i;
    Ok (x, g).

End Random.

(** ** kuhn_poker/game.py *)

Module KuhnPokerGame.

Definition CARDS : list string := ["J"; "Q"; "K"].
Definition CARD_VALUES : gmap string Z :=
  <["K" := 3]> (<["Q" := 2]> (<["J" := 1]> ∅)).
Definition ANTE : Z := 1.
Definition BET_SIZE : Z := 1.

Section Dealing.

Context {G : Type} `{PyRandom G}.

(** [KuhnPokerGame(seed)]: the constructor reseeds the shared generator
    when a seed is given, and leaves it as it is otherwise.  (The engine's
    own attribute [state] is written by [start_new_hand] and never read.) *)
Definition __init__ (seed : option Z) (g : G) : G :=
  match seed with
  | Some a => random_seed a
  | None => g
  end.

Definition deal_cards (g : G) : result (gmap Z string * G) :=
  let deck := CARDS in
  '(deck, g) ← random_shuffle deck g;
  d0 ← list_getitem deck 0;
  d1 ← list_getitem deck 1;
  Ok (<[1 := d1]> (<[0 := d0]> ∅), g).

Definition start_new_hand (g : G) : result (GameState * G) :=
  '(cards, g) ← deal_cards g;
  Ok ({| cards := cards;
         betting_history := [];
         pot := 2 * ANTE;
         current_player := 0;
         is_terminal := false;
         payoffs := None |}, g).

End Dealing.

Definition get_legal_actions (state : GameState) : result (list string) :=
  if is_terminal state then Ok []
  else
    let history := betting_history state in
    if (length history =? 0)%nat then Ok ["CHECK"; "BET"]
    else if (length history =? 1)%nat && item_eqb history 0 "CHECK"
    then Ok ["CHECK"; "BET"]
    else if ((length history =? 1)%nat && item_eqb history 0 "BET")
            || ((length history =? 2)%nat && item_eqb history 1 "BET")
    then Ok ["CALL"; "FOLD"]
    else Raise InvalidBettingHistory.

Definition _calculate_fold_payoffs (folding_player pot : Z) : gmap Z Z :=
  let winning_player := 1 - folding_player in
  <[folding_player := - (pot / 2)]> (<[winning_player := pot / 2]> ∅).

Definition _get_showdown_winner (cards : gmap Z string) : result Z :=
  c0 ← getitem cards 0;
  v0 ← getitem CARD_VALUES c0;
  c1 ← getitem cards 1;
  v1 ← getitem CARD_VALUES c1;
  if v0 >? v1 then Ok 0 else Ok 1.

Definition _calculate_showdown_payoffs (cards : gmap Z string) (pot : Z)
    : result (gmap Z Z) :=
  winner ← _get_showdown_winner cards;
  Ok (<[1 - winner := - (pot / 2)]> (<[winner := pot / 2]> ∅)).

Definition apply_action (state : GameState) (action : string)
    : result GameState :=
  legal ← get_legal_actions state;
  if negb (str_in action legal) then Raise IllegalAction
  else
    let new_history := (betting_history state ++ [action])%list in
    let new_pot := pot state in
    let new_player := 1 - current_player state in
    let new_pot :=
      if String.eqb action "BET" then new_pot + BET_SIZE
      else if String.eqb action "CALL" then new_pot + BET_SIZE
      else new_pot in
    '(terminal, payoffs) ←
      (if String.eqb action "FOLD" then
         Ok (true, Some (_calculate_fold_payoffs (current_player state) new_pot))
       else if (length new_history =? 2)%nat
               && list_str_eqb new_history ["CHECK"; "CHECK"] then
         p ← _calculate_showdown_payoffs (cards state) new_pot;
         Ok (true, Some p)
       else if String.eqb action "CALL" then
         p ← _calculate_showdown_payoffs (cards state) new_pot;
         Ok (true, Some p)
       else Ok (false, None));
    Ok {| cards := cards state;
          betting_history := new_history;
          pot := new_pot;
          current_player :=
            if negb terminal then new_player else current_player state;
          is_terminal := terminal;
          payoffs := payoffs |}.

Definition get_payoff (state : GameState) (player : Z) : result Z :=
  if negb (is_terminal state) then Raise NonTerminalPayoff
  else
    match payoffs state with
    | None => Raise TypeError
    | Some p => getitem p player
    end.

End KuhnPokerGame.

(** ** kuhn_poker/gto_strategy.py *)

(** [s.split(sep)] for a separator of one character: the pieces between the
    occurrences of [sep], so one piece more than there are occurrences. *)
Fixpoint str_split (sep : ascii) (s : string) : list string :=
  match s with
  | EmptyString => [""]
  | String c s' =>
      if Ascii.eqb c sep then "" :: str_split sep s'
      else match str_split sep s' with
           | w :: ws => String c w :: ws
           | [] => [String c ""]
           end
  end.

(** A strategy is a dict from actions to probabilities; the order of its items
    is the order in which the literal lists them. *)
Definition Strategy : Type := list (string * float).

Module GTOStrategy.

Definition _get_p1_strategy (card : string) : result Strategy :=
  if String.eqb card "J" then Ok [("CHECK", 1.0%float); ("BET", 0.0%float)]
  else if String.eqb card "Q" then Ok [("CHECK", 1.0%float); ("BET", 0.0%float)]
  else if String.eqb card "K" then Ok [("CHECK", 0.0%float); ("BET", 1.0%float)]
  else Raise InvalidCard.

Definition _get_p2_facing_bet (card : string) : result Strategy :=
  if String.eqb card "J" then Ok [("CALL", 0.0%float); ("FOLD", 1.0%float)]
  else if String.eqb card "Q" then Ok [("CALL", 1.0%float); ("FOLD", 0.0%float)]
  else if String.eqb card "K" then Ok [("CALL", 1.0%float); ("FOLD", 0.0%float)]
  else Raise InvalidCard.

Definition _get_p2_after_check (card : string) : result Strategy :=
  if String.eqb card "J" then Ok [("CHECK", (2 / 3)%float); ("BET", (1 / 3)%float)]
  else if String.eqb card "Q" then Ok [("CHECK", 1.0%float); ("BET", 0.0%float)]
  else if String.eqb card "K" then Ok [("CHECK", 0.0%float); ("BET", 1.0%float)]
  else Raise InvalidCard.

Definition get_strategy (info_set : string) : result Strategy :=
  match str_split "."%char info_set with
  | [card; history] =>
      if String.eqb history "" then _get_p1_strategy card
      else if String.eqb history "BET" then _get_p2_facing_bet card
      else if String.eqb history "CHECK" then _get_p2_after_check card
      else Raise UnknownInformationSet
  | _ => Raise UnpackError
  end.

End GTOStrategy.

(** ** agents/base_agent.py *)

(** An agent is an object with a name and three hooks.  A hook may read and
    write the shared generator and the agents' own attributes; [M] is the type
    of the store that holds those attributes.  The hooks the base class leaves
    as [pass] return the world unchanged. *)
Record BaseAgent (G M : Type) : Type := mkAgent {
  name : string;
  choose_action :
    GameState -> list string -> Z -> G * M -> result (string * (G * M));
  observe_result :
    GameState -> string -> GameState -> Z -> G * M -> result (G * M);
  observe_opponent_action :
    GameState -> string -> Z -> G * M -> result (G * M)
}.
Arguments mkAgent {G M}.
Arguments name {G M}.
Arguments choose_action {G M}.
Arguments observe_result {G M}.
Arguments observe_opponent_action {G M}.

(** ** agents/gto_agent.py *)

(** [sum(values)] on floats: the additions run from the left, starting at 0. *)
Definition float_sum (values : list float) : float :=
  fold_left PrimFloat.add values 0%float.

(** [p / q] on floats. *)
Definition float_truediv (p q : float) : result float :=
  if PrimFloat.eqb q 0%float then Raise ZeroDivisionError
  else Ok (p / q)%float.

(** [itertools.accumulate(weights)]: the running sums. *)
Fixpoint accumulate_from (acc : float) (weights : list float) : list float :=
  match weights with
  | [] => []
  | x :: xs => let acc := (acc + x)%float in acc :: accumulate_from acc xs
  end.

Definition accumulate (weights : list float) : list float :=
  match weights with
  | [] => []
  | x :: xs => x :: accumulate_from x xs
  end.

(** [bisect.bisect_right(a, x, lo, hi)].  Each turn of the loop shrinks
    [hi - lo], so [hi - lo] turns are enough; [fuel] counts them. *)
Fixpoint bisect_loop (fuel : nat) (a : list float) (x : float) (lo hi : nat)
    : result nat :=
  if (lo <? hi)%nat then
    match fuel with
    | O => Ok lo
    | S fuel =>
        let mid := ((lo + hi) / 2)%nat in
        a_mid ← list_getitem a (Z.of_nat mid);
        if PrimFloat.ltb x a_mid then bisect_loop fuel a x lo mid
        else bisect_loop fuel a x (mid + 1)%nat hi
    end
  else Ok lo.

Definition bisect (a : list float) (x : float) (lo hi : nat) : result nat :=
  bisect_loop (hi - lo) a x lo hi.

Section Choices.

Context {G : Type} `{PyRandom G}.

(** One draw of [random.choices]:
    [population[bisect(cum_weights, random() * total, 0, hi)]]. *)
Definition choices_draw {A} (population : list A) (cum_weights : list float)
    (total : float) (hi : nat) (g : G) : result (A * G) :=
  let '(u, g) := random_random g in
  i ← bisect cum_weights (u * total)%float 0 hi;
  x ← list_getitem population (Z.of_nat i);
  Ok (x, g).

Fixpoint choices_draws {A} (k : nat) (population : list A)
    (cum_weights : list float) (total : float) (hi : nat) (g : G)
    : result (list A * G) :=
  match k with
  | O => Ok ([], g)
  | S k =>
      '(x, g) ← choices_draw population cum_weights total hi g;
      '(xs, g) ← choices_draws k population cum_weights total hi g;
      Ok (x :: xs, g)
  end.

(** [random.choices(population, weights=weights, k=k)] *)
Definition random_choices {A} (population : list A) (weights : list float)
    (k : nat) (g : G) : result (list A * G) :=
  let n := length population in
  let cum_weights := accumulate weights in
  if negb (length cum_weights =? n)%nat then Raise WeightsError
  else
    last_weight ← list_getitem cum_weights (-1);
    let total := (last_weight + 0.0)%float in
    if PrimFloat.leb total 0.0%float then Raise WeightsError
    else if negb (is_finite total) then Raise WeightsError
    else choices_draws k population cum_weights total (n - 1) g.

End Choices.

Module GTOAgent.
Section WithRandom.

Context {G : Type} `{PyRandom G}.

Definition choose_action (state : GameState) (legal_actions : list string)
    (player_position : Z) (g : G) : result (string * G) :=
  info_set ← get_info_set state player_position;
  strategy ← GTOStrategy.get_strategy info_set;
  let legal_strategy :=
    List.filter (fun ap : string * float => str_in ap.1 legal_actions)
                strategy in
  if (length legal_strategy =? 0)%nat then random_choice legal_actions g
  else
    let total_prob := float_sum (map snd legal_strategy) in
    normalized_probs ←
      mapM (fun p => float_truediv p total_prob) (map snd legal_strategy);
    '(picked, g) ← random_choices (map fst legal_strategy) normalized_probs 1 g;
    action ← list_getitem picked 0;
    Ok (action, g).

(** [GTOAgent(name)] as an agent object: it keeps no attributes besides
    the name and inherits the three other hooks. *)
Definition new {M : Type} (name : string) : BaseAgent G M :=
  mkAgent name
    (fun state legal_actions player_position w =>
       '(action, g) ← choose_action state legal_actions player_position w.1;
       Ok (action, (g, w.2)))
    (fun _ _ _ _ w => Ok w)
    (fun _ _ _ w => Ok w).

End WithRandom.
End GTOAgent.

(** ** experiment/tournament.py *)

(** One entry of a hand's [actions] list. *)
Record ActionRecord : Type := mkActionRecord {
  position : Z;
  agent : string;
  action : string;
  card : string
}.

(** The dict [play_hand] returns.  [hand_payoffs] keeps the order of the
    items of [{0: ..., 1: ...}], which [run_tournament] iterates over. *)
Record HandResult : Type := mkHandResult {
  hand_id : Z;
  hand_cards : gmap Z string;
  actions : list ActionRecord;
  hand_betting_history : list string;
  hand_payoffs : list (Z * Z);
  final_pot : Z
}.

(** The dict [run_tournament] returns, without [profit_per_100] (whose
    division by [num_hands] is kept, see [run_tournament]); [logger] is the
    list of hands the logger has collected. *)
Record TournamentResults : Type := mkTournamentResults {
  matchup : string;
  total_hands : Z;
  profits : gmap string Z;
  action_frequencies : gmap string (gmap string Z);
  logger : list HandResult
}.

Section Tournament.

Context {G : Type} `{PyRandom G} {M : Type}.

(** One turn of the [while] loop of [play_hand]. *)
Definition play_turn (agents : gmap Z (BaseAgent G M)) (state : GameState)
    (actions_taken : list ActionRecord) (w : G * M)
    : result (GameState * list ActionRecord * (G * M)) :=
  let current_player := current_player state in
  agent ← getitem agents current_player;
  legal_actions ← KuhnPokerGame.get_legal_actions state;
  '(action, w) ← choose_action agent state legal_actions current_player w;
  card ← getitem (cards state) current_player;
  let actions_taken :=
    (actions_taken ++ [mkActionRecord current_player (name agent) action card])%list in
  let opponent_pos := 1 - current_player in
  opponent ← getitem agents opponent_pos;
  w ← observe_opponent_action opponent state action opponent_pos w;
  new_state ← KuhnPokerGame.apply_action state action;
  w ← observe_result agent state action new_state current_player w;
  Ok (new_state, actions_taken, w).

(** [while not game.is_terminal(state): ...], cut off after [fuel] tests of
    the condition; [None] means the loop was cut off. *)
Fixpoint play_loop (fuel : nat) (agents : gmap Z (BaseAgent G M))
    (state : GameState) (actions_taken : list ActionRecord) (w : G * M)
    : option (result (GameState * list ActionRecord * (G * M))) :=
  match fuel with
  | O => None
  | S fuel =>
      if is_terminal state then Some (Ok (state, actions_taken, w))
      else
        match play_turn agents state actions_taken w with
        | Raise e => Some (Raise e)
        | Ok (new_state, actions_taken, w) =>
            play_loop fuel agents new_state actions_taken w
        end
  end.

(** A hand has at most three actions, so the condition of the loop is
    tested at most four times ([play_loop_not_cut_off] below); the branch
    [None] is never taken. *)
Definition play_hand (agents : gmap Z (BaseAgent G M)) (hand_num : Z)
    (w : G * M) : result (HandResult * (G * M)) :=
  '(state, g) ← KuhnPokerGame.start_new_hand w.1;
  '(state, actions_taken, w) ← default (Raise IndexError)
                                 (play_loop 4 agents state [] (g, w.2));
  p0 ← KuhnPokerGame.get_payoff state 0;
  p1 ← KuhnPokerGame.get_payoff state 1;
  Ok ({| hand_id := hand_num;
         hand_cards := cards state;
         actions := actions_taken;
         hand_betting_history := betting_history state;
         hand_payoffs := [(0, p0); (1, p1)];
         final_pot := pot state |}, w).

(** [if hand_num % 2 == 0: agents = {0: agent1, 1: agent2}]
    [else: agents = {0: agent2, 1: agent1}] *)
Definition seating (agent1 agent2 : BaseAgent G M) (hand_num : Z)
    : gmap Z (BaseAgent G M) :=
  if hand_num mod 2 =? 0 then <[1 := agent2]> (<[0 := agent1]> ∅)
  else <[1 := agent1]> (<[0 := agent2]> ∅).

(** [for pos, payoff in hand_result['payoffs'].items():]
    [profits[agents[pos].name] += payoff] *)
Fixpoint update_profits (agents : gmap Z (BaseAgent G M))
    (items : list (Z * Z)) (profits : gmap string Z)
    : result (gmap string Z) :=
  match items with
  | [] => Ok profits
  | (pos, payoff) :: items =>
      agent ← getitem agents pos;
      let agent_name := name agent in
      old ← getitem profits agent_name;
      update_profits agents items (<[agent_name := old + payoff]> profits)
  end.

(** [for action_data in hand_result['actions']:]
    [action_counts[action_data['agent']][action_data['action']] += 1] *)
Fixpoint update_action_counts (records : list ActionRecord)
    (action_counts : gmap string (gmap string Z))
    : result (gmap string (gmap string Z)) :=
  match records with
  | [] => Ok action_counts
  | r :: records =>
      counts ← getitem action_counts (agent r);
      old ← getitem counts (action r);
      update_action_counts records
        (<[agent r := <[action r := old + 1]> counts]> action_counts)
  end.

(** The body of the [for hand_num in range(num_hands)] loop. *)
Definition tournament_hand (agent1 agent2 : BaseAgent G M) (hand_num : Z)
    (st : gmap string Z * gmap string (gmap string Z) * list HandResult)
    (w : G * M)
    : result (gmap string Z * gmap string (gmap string Z) * list HandResult
              * (G * M)) :=
  let '(profits, action_counts, hands) := st in
  let agents := seating agent1 agent2 hand_num in
  '(hand_result, w) ← play_hand agents hand_num w;
  profits ← update_profits agents (hand_payoffs hand_result) profits;
  action_counts ← update_action_counts (actions hand_result) action_counts;
  Ok (profits, action_counts, (hands ++ [hand_result])%list, w).

(** The loop over the hands [hand_num], [hand_num + 1], ...: [n] of them. *)
Fixpoint tournament_loop (agent1 agent2 : BaseAgent G M) (n : nat)
    (hand_num : Z)
    (st : gmap string Z * gmap string (gmap string Z) * list HandResult)
    (w : G * M)
    : result (gmap string Z * gmap string (gmap string Z) * list HandResult
              * (G * M)) :=
  match n with
  | O => Ok (st, w)
  | S n =>
      '(st, w) ← tournament_hand agent1 agent2 hand_num st w;
      tournament_loop agent1 agent2 n (hand_num + 1) st w
  end.

Definition zero_counts : gmap string Z :=
  <["FOLD" := 0]> (<["CALL" := 0]> (<["BET" := 0]> (<["CHECK" := 0]> ∅))).

(** The state of the three accumulators before the first hand; [hands] is
    what the logger passed in already holds (nothing for a new logger). *)
Definition tournament_init (agent1 agent2 : BaseAgent G M)
    (hands : list HandResult)
    : gmap string Z * gmap string (gmap string Z) * list HandResult :=
  (<[name agent2 := 0]> (<[name agent1 := 0]> ∅),
   <[name agent2 := zero_counts]> (<[name agent1 := zero_counts]> ∅),
   hands).

(** [run_tournament(agent1, agent2, num_hands, logger=...)].  The engine is
    built without a seed, so the generator is left as it is.  Computing
    [profit_per_100] divides by [num_hands] and so raises when it is 0. *)
Definition run_tournament (agent1 agent2 : BaseAgent G M) (num_hands : nat)
    (hands : list HandResult) (w : G * M)
    : result (TournamentResults * (G * M)) :=
  let g := KuhnPokerGame.__init__ None w.1 in
  '(profits, action_counts, hands, w) ←
    tournament_loop agent1 agent2 num_hands 0
      (tournament_init agent1 agent2 hands) (g, w.2);
  if (num_hands =? 0)%nat then Raise ZeroDivisionError
  else
    Ok ({| matchup := name agent1 ++ "_vs_" ++ name agent2;
           total_hands := Z.of_nat num_hands;
           profits := profits;
           action_frequencies := action_counts;
           logger := hands |}, w).

End Tournament.

(** ** The opponent model and the exploitative strategy *)

(** [float(n)] for an integer below [2^63] in absolute value, as the
    counters of the model and the words of the generator are: the nearest
    binary64, ties to even.  It is not used for a quotient of two integers,
    which Python rounds once ([int_truediv] below). *)
Definition float_of_Z (n : Z) : float :=
  if n <? 0 then (- PrimFloat.of_uint63 (Uint63.of_Z (- n)))%float
  else PrimFloat.of_uint63 (Uint63.of_Z n).

Module OpponentModel.

(** Modelled from the spec: agents/exploitative_agent.py is not among the
    sources.  The counters of section 4.3: per situation the number of
    decision opportunities, per situation and action the number of times
    the action was chosen, and the configurable minimum-sample threshold. *)
Record t : Type := mk {
  min_samples : Z;
  opportunities : gmap string Z;
  action_counts : gmap (string * string) Z
}.

(** Modelled from the spec: the missing constructor, a model without
    observations. *)
Definition fresh (min_samples : Z) : t := mk min_samples ∅ ∅.

(** Modelled from the spec: the missing read of the opportunities of a
    situation; a situation never observed counts 0. *)
Definition opportunities_of (m : t) (situation : string) : Z :=
  default 0 (opportunities m !! situation).

(** Modelled from the spec: the missing read of the count of an action in a
    situation; an action never observed counts 0. *)
Definition count_of (m : t) (situation action : string) : Z :=
  default 0 (action_counts m !! (situation, action)).

(** Modelled from the spec: the missing [observe(action, situation)], which
    "increments opportunity and the matching action counter". *)
Definition observe (action situation : string) (m : t) : t :=
  mk (min_samples m)
     (<[situation := opportunities_of m situation + 1]> (opportunities m))
     (<[(situation, action) := count_of m situation action + 1]>
        (action_counts m)).

(** Modelled from the spec: the missing test of "opportunities is below a
    minimum-sample threshold". *)
Definition insufficient (m : t) (situation : string) : bool :=
  opportunities_of m situation <? min_samples m.

(** Modelled from the spec: the neutral prior of the missing [estimate],
    "e.g. 0.5". *)
Definition neutral_prior : float := 0.5%float.

(** Modelled from the spec: the missing [estimate(situation, action)], which
    "returns count/opportunities" and "a neutral prior" below the
    threshold. *)
Definition estimate (situation action : string) (m : t) : float :=
  if insufficient m situation then neutral_prior
  else (float_of_Z (count_of m situation action)
        / float_of_Z (opportunities_of m situation))%float.

(** Modelled from the spec: the missing [reset()], which "clears all
    counters". *)
Definition reset (m : t) : t := mk (min_samples m) ∅ ∅.

End OpponentModel.

Module ExploitativeStrategy.
Section WithShift.

(** The map from the opponent's estimated fold rate to the bluff
    probability.  The specification fixes its direction (monotonic) and
    that it is interpolated smoothly, not its formula. *)
Variable bluff_probability : float -> float.

(** Modelled from the spec: the missing clamp "to [0,1]". *)
Definition clamp (x : float) : float :=
  if PrimFloat.ltb x 0%float then 0%float
  else if PrimFloat.ltb 1%float x then 1%float
  else x.

(** Modelled from the spec: the missing test for "info sets where the
    equilibrium prescribes a mixed distribution"; a pure one has
    "probability 1.0 on one action". *)
Definition is_mixed (strategy : Strategy) : bool :=
  forallb (fun ap : string * float => negb (PrimFloat.eqb ap.2 1%float))
          strategy.

(** Modelled from the spec: the missing strategy function of section 4.4.
    Pure info sets pass the equilibrium distribution through; on a mixed
    one the bluff probability follows the estimated fold rate when facing
    a bet, with the "confidence-based fallback to pure equilibrium when
    sample size is too small". *)
Definition get_strategy (model : OpponentModel.t) (info_set : string)
    : result Strategy :=
  strategy ← GTOStrategy.get_strategy info_set;
  if is_mixed strategy
     && negb (OpponentModel.insufficient model "facing a bet")
  then
    let fold_rate := OpponentModel.estimate "facing a bet" "FOLD" model in
    let bluff := clamp (bluff_probability fold_rate) in
    Ok [("CHECK", (1 - bluff)%float); ("BET", bluff)]
  else Ok strategy.

End WithShift.
End ExploitativeStrategy.

(** ** The generator behind [random]: MT19937

    CPython's [random] module draws from the Mersenne Twister.  The state is
    the array [mt] of 624 words of 32 bits and the position [index] of the
    next word to hand out. *)
Module MT19937.

Definition N : nat := 624.
Definition M : nat := 397.
Definition MATRIX_A : Z := 0x9908b0df.
Definition UPPER_MASK : Z := 0x80000000.
Definition LOWER_MASK : Z := 0x7fffffff.

(** Wrap-around of unsigned 32-bit arithmetic. *)
Definition u32 (x : Z) : Z := Z.land x 0xffffffff.

Record state : Type := mkState { mt : list Z; index : nat }.

Definition word (mt : list Z) (i : nat) : Z := default 0 (mt !! i).

(** [init_genrand(s)]:
    [mt[i] = 1812433253 * (mt[i-1] ^ (mt[i-1] >> 30)) + i]. *)
Fixpoint init_genrand_from (n : nat) (mti : Z) (prev : Z) : list Z :=
  match n with
  | O => []
  | S n =>
      let x := u32 (1812433253 * Z.lxor prev (Z.shiftr prev 30) + mti) in
      x :: init_genrand_from n (mti + 1) x
  end.

Definition init_genrand (s : Z) : state :=
  mkState (s :: init_genrand_from (N - 1) 1 s) N.

(** The first loop of [init_by_array], [k] turns from [i], [j]. *)
Fixpoint init_by_array_mix (k : nat) (init_key : list Z) (mt : list Z)
    (i j : nat) : list Z * nat :=
  match k with
  | O => (mt, i)
  | S k =>
      let prev := word mt (i - 1) in
      let x := u32 (Z.lxor (word mt i)
                           (Z.lxor prev (Z.shiftr prev 30) * 1664525)
                    + word init_key j + Z.of_nat j) in
      let mt := <[i := x]> mt in
      let i := S i in
      let j := S j in
      let '(mt, i) :=
        if (N <=? i)%nat then (<[0%nat := word mt (N - 1)]> mt, 1%nat)
        else (mt, i) in
      let j := if (length init_key <=? j)%nat then 0%nat else j in
      init_by_array_mix k init_key mt i j
  end.

(** The second loop of [init_by_array], [k] turns from [i]. *)
Fixpoint init_by_array_finish (k : nat) (mt : list Z) (i : nat) : list Z :=
  match k with
  | O => mt
  | S k =>
      let prev := word mt (i - 1) in
      let x := u32 (Z.lxor (word mt i)
                           (Z.lxor prev (Z.shiftr prev 30) * 1566083941)
                    - Z.of_nat i) in
      let mt := <[i := x]> mt in
      let i := S i in
      let '(mt, i) :=
        if (N <=? i)%nat then (<[0%nat := word mt (N - 1)]> mt, 1%nat)
        else (mt, i) in
      init_by_array_finish k mt i
  end.

Definition init_by_array (init_key : list Z) : state :=
  let s := init_genrand 19650218 in
  let '(mt, i) :=
    init_by_array_mix (Nat.max N (length init_key)) init_key (mt s) 1 0 in
  let mt := init_by_array_finish (N - 1) mt i in
  mkState (<[0%nat := 0x80000000]> mt) N.

(** The 32-bit words of a non-negative integer, least significant first;
    [fuel] bounds their number. *)
Fixpoint key_words (fuel : nat) (n : Z) : list Z :=
  match fuel with
  | O => []
  | S fuel =>
      if n <? 0x100000000 then [n]
      else u32 n :: key_words fuel (Z.shiftr n 32)
  end.

(** [random.seed(a)] for an integer [a]: the key is [abs(a)] in 32-bit
    words. *)
Definition seed (a : Z) : state :=
  let n := Z.abs a in
  init_by_array (key_words (Z.to_nat (Z.log2 n / 32) + 1) n).

Definition twist_word (mt : list Z) (kk next far : nat) : Z :=
  let y := Z.lor (Z.land (word mt kk) UPPER_MASK)
                 (Z.land (word mt next) LOWER_MASK) in
  Z.lxor (Z.lxor (word mt far) (Z.shiftr y 1))
         (if Z.testbit y 0 then MATRIX_A else 0).

(** The regeneration of the 624 words, [n] of them from [kk] on. *)
Fixpoint twist_from (n : nat) (kk : nat) (mt : list Z) : list Z :=
  match n with
  | O => mt
  | S n =>
      let far := if (kk <? N - M)%nat then (kk + M)%nat else (kk + M - N)%nat in
      let next := if (kk <? N - 1)%nat then S kk else 0%nat in
      twist_from n (S kk) (<[kk := twist_word mt kk next far]> mt)
  end.

Definition genrand_uint32 (s : state) : Z * state :=
  let s := if (N <=? index s)%nat then mkState (twist_from N 0 (mt s)) 0
           else s in
  let y := word (mt s) (index s) in
  let y := Z.lxor y (Z.shiftr y 11) in
  let y := Z.lxor y (Z.land (u32 (Z.shiftl y 7)) 0x9d2c5680) in
  let y := Z.lxor y (Z.land (u32 (Z.shiftl y 15)) 0xefc60000) in
  let y := Z.lxor y (Z.shiftr y 18) in
  (y, mkState (mt s) (S (index s))).

(** [getrandbits(k)]: one word shifted down when [k <= 32], else the words
    are filled from the least significant one, the last one shifted down. *)
Fixpoint getrandbits_words (words : nat) (k : Z) (shift : Z) (acc : Z)
    (s : state) : Z * state :=
  match words with
  | O => (acc, s)
  | S words =>
      let '(r, s) := genrand_uint32 s in
      let r := if k <? 32 then Z.shiftr r (32 - k) else r in
      getrandbits_words words (k - 32) (shift + 32)
                        (Z.lor acc (Z.shiftl r shift)) s
  end.

Definition getrandbits (k : Z) (s : state) : Z * state :=
  if k <=? 0 then (0, s)
  else getrandbits_words (Z.to_nat ((k - 1) / 32 + 1)) k 0 0 s.

(** [_randbelow(n)]: [r = getrandbits(k)] is drawn again [while r >= n].
    A draw is rejected with probability below one half; the loop is cut off
    after [fuel] draws, and a cut-off draw is handed out as it is. *)
Fixpoint randbelow_loop (fuel : nat) (n k : Z) (s : state) : Z * state :=
  let '(r, s) := getrandbits k s in
  match fuel with
  | O => (r, s)
  | S fuel => if n <=? r then randbelow_loop fuel n k s else (r, s)
  end.

Definition randbelow (n : Z) (s : state) : Z * state :=
  randbelow_loop 128 n (Z.log2 n + 1) s.

(** [random()]: [(a * 67108864.0 + b) * (1.0 / 9007199254740992.0)] with
    [a] the top 27 bits of one word and [b] the top 26 bits of the next. *)
Definition random (s : state) : float * state :=
  let '(a, s) := genrand_uint32 s in
  let '(b, s) := genrand_uint32 s in
  let a := Z.shiftr a 5 in
  let b := Z.shiftr b 6 in
  (((float_of_Z a * 67108864 + float_of_Z b)
    * (1 / 9007199254740992))%float, s).

#[global] Instance mt19937_random : PyRandom state := {|
  random_seed := seed;
  random_randbelow := randbelow;
  random_random := random
|}.

End MT19937.

(** A generator for running the definitions on small inputs: the state is a
    counter, a draw below [n] is the counter modulo [n]. *)
Module CounterRandom.

#[global] Instance counter_random : PyRandom Z := {|
  random_seed a := a;
  random_randbelow n g := (g mod n, g + 1);
  random_random g := (0.5%float, g + 1)
|}.

End CounterRandom.

(** ** States reached by play *)

(** The states the engine itself creates: [start_new_hand] under any
    generator, and [apply_action] on such a state. *)
Inductive reachable : GameState -> Prop :=
| reachable_start {G : Type} `{PyRandom G} (g g' : G) (s : GameState) :
    KuhnPokerGame.start_new_hand g = Ok (s, g') -> reachable s
| reachable_step (s s' : GameState) (a : string) :
    reachable s -> KuhnPokerGame.apply_action s a = Ok s' -> reachable s'.

(** Both seats hold one of the three cards. *)
Definition seated (c : gmap Z string) : bool :=
  match c !! 0, c !! 1 with
  | Some c0, Some c1 =>
      str_in c0 KuhnPokerGame.CARDS && str_in c1 KuhnPokerGame.CARDS
  | _, _ => false
  end.

(** The nine shapes of a hand: history, pot, seat to act (frozen once the hand
    is over) and the terminal flag. *)
Inductive play_shape : list string -> Z -> Z -> bool -> Prop :=
| shape_start : play_shape [] 2 0 false
| shape_check : play_shape ["CHECK"] 2 1 false
| shape_bet : play_shape ["BET"] 3 1 false
| shape_check_bet : play_shape ["CHECK"; "BET"] 3 0 false
| shape_check_check : play_shape ["CHECK"; "CHECK"] 2 1 true
| shape_bet_call : play_shape ["BET"; "CALL"] 4 1 true
| shape_bet_fold : play_shape ["BET"; "FOLD"] 3 1 true
| shape_check_bet_call : play_shape ["CHECK"; "BET"; "CALL"] 4 0 true
| shape_check_bet_fold : play_shape ["CHECK"; "BET"; "FOLD"] 3 0 true.

(** What the engine maintains on every state it creates. *)
Record conforming (s : GameState) : Prop := {
  conf_cards : seated (cards s) = true;
  conf_shape :
    play_shape (betting_history s) (pot s) (current_player s) (is_terminal s);
  conf_payoffs_none : is_terminal s = false -> payoffs s = None;
  conf_payoffs_some :
    is_terminal s = true ->
    exists p v0 v1, payoffs s = Some p /\ p !! 0 = Some v0 /\ p !! 1 = Some v1 /\
                    v0 + v1 = 0
}.

(** The chips the actions of a history add to the antes: one for every BET
    and every CALL. *)
Definition chips_committed (history : list string) : Z :=
  Z.of_nat (length (List.filter
                      (fun a => String.eqb a "BET" || String.eqb a "CALL")
                      history)).

(** ** The equilibrium table and its use by the agent *)

(** The probabilities of a strategy lie in [0, 1] and add up to 1.0 within
    1e-6 (the literal below is the binary64 nearest to 1e-6). *)
Definition is_distribution (strategy : Strategy) : bool :=
  forallb (fun ap : string * float =>
             PrimFloat.leb 0%float ap.2 && PrimFloat.leb ap.2 1%float) strategy
  && PrimFloat.leb (abs (float_sum (map snd strategy) - 1))
                   0x1.0c6f7a0b5ed8dp-20%float.

(** A state in which a seat meets the situation of an information set:
    first to act, facing a bet, after the opponent checked. *)
Definition situation_state (history : list string) : GameState :=
  mkGameState (<[1 := "Q"]> (<[0 := "K"]> ∅)) history
              (2 + chips_committed history)
              (Z.of_nat (length history)) false None.

(** The nine information sets of the table, each with the history at which
    a seat meets it. *)
Definition info_sets : list (string * list string) :=
  [("J.", []); ("Q.", []); ("K.", []);
   ("J.BET", ["BET"]); ("Q.BET", ["BET"]); ("K.BET", ["BET"]);
   ("J.CHECK", ["CHECK"]); ("Q.CHECK", ["CHECK"]); ("K.CHECK", ["CHECK"])].

(** The five rows the table is made of. *)
Definition table_rows : list Strategy :=
  [[("CHECK", 1.0%float); ("BET", 0.0%float)];
   [("CHECK", 0.0%float); ("BET", 1.0%float)];
   [("CALL", 0.0%float); ("FOLD", 1.0%float)];
   [("CALL", 1.0%float); ("FOLD", 0.0%float)];
   [("CHECK", (2 / 3)%float); ("BET", (1 / 3)%float)]].

(** The check [random.choices] makes on the last running sum of the
    weights: positive and finite. *)
Definition total_weight_ok (weights : list float) : bool :=
  match list_getitem (accumulate weights) (-1) with
  | Ok last_weight =>
      negb (PrimFloat.leb (last_weight + 0.0) 0.0)%float
      && is_finite (last_weight + 0.0)%float
  | Raise _ => false
  end.

(** The weights [choose_action] hands to [random.choices] for the legal part
    of a strategy can be computed and pass that check. *)
Definition weights_ok (legal_strategy : Strategy) : bool :=
  match mapM (fun p => float_truediv p (float_sum (map snd legal_strategy)))
             (map snd legal_strategy) with
  | Ok weights => total_weight_ok weights
  | Raise _ => false
  end.

(** ** Totals of a tournament *)

(** The payoff a hand's record holds for a seat (0 when it holds none). *)
Definition payoff_at (hand : HandResult) (seat : Z) : Z :=
  match List.find (fun kv : Z * Z => kv.1 =? seat) (hand_payoffs hand) with
  | Some kv => kv.2
  | None => 0
  end.

(** The seat of the first agent of a tournament in the hand numbered
    [hand_num]. *)
Definition seat_of_agent1 (hand_num : Z) : Z :=
  if hand_num mod 2 =? 0 then 0 else 1.

(** The seat of the second agent: the other one. *)
Definition seat_of_agent2 (hand_num : Z) : Z :=
  1 - seat_of_agent1 hand_num.

(** The sum over the hands of the payoff of the seat [seat_of] assigns. *)
Definition profit_over (seat_of : Z -> Z) (hands : list HandResult) : Z :=
  foldr (fun hand total => payoff_at hand (seat_of (hand_id hand)) + total)
        0 hands.

(** ** Observations of an opponent *)

(** Modelled from the spec: the missing calls of [observe] a tournament
    makes on a model, one per observed pair of action and situation. *)
Definition observe_all (observations : list (string * string))
    (model : OpponentModel.t) : OpponentModel.t :=
  fold_left (fun m obs => OpponentModel.observe obs.1 obs.2 m)
            observations model.

(** The number of observations made in a situation. *)
Definition observed_in (situation : string)
    (observations : list (string * string)) : Z :=
  Z.of_nat (length (List.filter (fun obs : string * string =>
                                   String.eqb obs.2 situation) observations)).

(** ** Engines and seeds *)

(** tests/test_game.py, [test_reproducibility_with_seed]: two engines are
    built with the same seed, then each starts a hand.
    [game1 = KuhnPokerGame(seed); game2 = KuhnPokerGame(seed);]
    [state1 = game1.start_new_hand(); state2 = game2.start_new_hand()] *)
Definition two_engines {G : Type} `{PyRandom G} (seed : Z) (g : G)
    : result (GameState * GameState) :=
  let g := KuhnPokerGame.__init__ (Some seed) g in
  let g := KuhnPokerGame.__init__ (Some seed) g in
  '(state1, g) ← KuhnPokerGame.start_new_hand g;
  '(state2, g) ← KuhnPokerGame.start_new_hand g;
  Ok (state1, state2).

(** The cards of [n] hands dealt one after the other, nothing else drawing
    from the generator in between. *)
Fixpoint deal_hands {G : Type} `{PyRandom G} (n : nat) (g : G)
    : result (list (gmap Z string)) :=
  match n with
  | O => Ok []
  | S n =>
      '(state, g) ← KuhnPokerGame.start_new_hand g;
      rest ← deal_hands n g;
      Ok (cards state :: rest)
  end.

(** A run that builds one engine with a seed and then deals [n] hands. *)
Definition seeded_run {G : Type} `{PyRandom G} (seed : Z) (n : nat) (g : G)
    : result (list (gmap Z string)) :=
  deal_hands n (KuhnPokerGame.__init__ (Some seed) g).

(** ** States and agents used as examples *)

Definition king_queen : gmap Z string := <[1 := "Q"]> (<[0 := "K"]> ∅).

(** A hand as [start_new_hand] leaves it. *)
Definition hand_start : GameState :=
  mkGameState king_queen [] 2 0 false None.

(** A jack first to act. *)
Definition jack_first : GameState :=
  mkGameState (<[1 := "Q"]> (<[0 := "J"]> ∅)) [] 2 0 false None.

(** A state no play reaches: three actions, the last one a bet, not marked
    terminal. *)
Definition three_actions : GameState :=
  mkGameState king_queen ["CHECK"; "CHECK"; "BET"] 2 0 false None.

(** The hand after BET, FOLD: seat 1 folded to the bet of seat 0. *)
Definition bet_fold : GameState :=
  mkGameState king_queen ["BET"; "FOLD"] 3 1 true
              (Some (<[1 := -1]> (<[0 := 1]> ∅))).

(** The hand after CHECK, CHECK: showdown, the king of seat 0 wins. *)
Definition check_check : GameState :=
  mkGameState king_queen ["CHECK"; "CHECK"] 2 1 true
              (Some (<[1 := -1]> (<[0 := 1]> ∅))).

(** The hand after BET, CALL: showdown for the pot of 4. *)
Definition bet_call : GameState :=
  mkGameState king_queen ["BET"; "CALL"] 4 1 true
              (Some (<[1 := -2]> (<[0 := 2]> ∅))).

(** Two GTO agents over the counter generator, with no attributes to
    store. *)
Definition gto1 : BaseAgent Z unit := GTOAgent.new "GTO1".
Definition gto2 : BaseAgent Z unit := GTOAgent.new "GTO2".

From Stdlib Require DecimalString.
From Stdlib Require Floats.FloatOps.

(** ** Division of integers

    [a / b] on two [int]s: the binary64 nearest to the exact quotient, ties
    to even, subnormal results included; [ZeroDivisionError] when [b] is 0 and
    [OverflowError] when the rounded quotient does not fit a float.  The
    operands are not converted to floats first. *)

(** The exponent [e] of the quotient of two positive integers:
    [2^e <= n/d < 2^(e+1)]. *)
Definition quotient_exponent (n d : Z) : Z :=
  let e := Z.log2 n - Z.log2 d in
  if (if 0 <=? e then d * 2 ^ e <=? n else d <=? n * 2 ^ (- e))
  then e else e - 1.

(** The quotient [n/d] in units of [2^k], rounded to the nearest integer,
    ties to even. *)
Definition rounded_quotient (n d k : Z) : Z :=
  let num := if 0 <=? k then n else n * 2 ^ (- k) in
  let den := if 0 <=? k then d * 2 ^ k else d in
  let q := num / den in
  let r := num mod den in
  if (den <? 2 * r) || ((den =? 2 * r) && Z.odd q) then q + 1 else q.

(** The unit is chosen so that the rounded quotient has 53 bits (or is
    [2^53]), and fewer when the result is subnormal. *)
Definition int_truediv (a b : Z) : result float :=
  if b =? 0 then Raise ZeroDivisionError
  else
    let negate := xorb (a <? 0) (b <? 0) in
    if a =? 0 then Ok (if negate then (- 0)%float else 0%float)
    else
      let n := Z.abs a in
      let d := Z.abs b in
      let k := Z.max (quotient_exponent n d - 52) (-1074) in
      let m := rounded_quotient n d k in
      if 1024 <? k + Z.log2 m + 1 then Raise OverflowError
      else
        let x := FloatOps.Z.ldexp (PrimFloat.of_uint63 (Uint63.of_Z m)) k in
        Ok (if negate then (- x)%float else x).

(** ** agents/human_like_agent.py *)

(** [needle in hay] on strings. *)
Fixpoint str_contains (needle hay : string) : bool :=
  String.prefix needle hay
  || match hay with
     | EmptyString => false
     | String _ hay' => str_contains needle hay'
     end.

(** [str(n)] for an integer that is not negative. *)
Definition str_of_nat (n : nat) : string :=
  DecimalString.NilZero.string_of_uint (Nat.to_uint n).

Module HumanLikeAgent.

(** What the exchange with the API inside the [try] block comes to: the
    response holds a JSON object whose ['action'], in upper case, is the given
    string; or no object is found or it does not parse; or the call, or
    anything else in the block, raises.  Writing the log files is not
    modelled. *)
Inductive LLMOutcome : Type :=
| Answered (action : string)
| Unparsed
| Failed.

Definition _format_recent_history (recent_history : list string) : string :=
  if (length recent_history =? 0)%nat then "No previous hands to analyze."
  else
    let recent := drop (length recent_history - 5) recent_history in
    let bet_count := length (List.filter (str_contains "BET") recent) in
    if (3 <=? bet_count)%nat then
      "Opponent has been aggressive (bet " ++ str_of_nat bet_count
      ++ "/5 recent hands)"
    else if (bet_count <=? 1)%nat then
      "Opponent has been passive (only bet " ++ str_of_nat bet_count
      ++ "/5 recent hands)"
    else "Opponent showing balanced play recently".

(** [self.recent_history.append(action)], then [pop(0)] when more than 20
    actions are kept. *)
Definition observe (recent_history : list string) (action : string)
    : list string :=
  let recent_history := (recent_history ++ [action])%list in
  if (20 <? length recent_history)%nat then tail recent_history
  else recent_history.

(** [reset]: [self.recent_history = []]. *)
Definition reset : list string := [].

Section WithLLM.

Context {G M : Type}.

(** The attribute [recent_history] in the store of the agents' attributes,
    and the API: whatever the prompt is made of, and the world, may decide the
    outcome of the exchange. *)
Variable get_recent : M -> list string.
Variable set_recent : list string -> M -> M.
Variable llm : string -> string -> list string -> Z -> string -> G * M -> LLMOutcome.

(** Both fallbacks return [legal_actions[0]]; an [IndexError] of the one
    inside the [try] block is caught and raised again by the one of the
    handler. *)
Definition _choose_action_with_llm (state : GameState)
    (legal_actions : list string) (player_position : Z) (w : G * M)
    : result string :=
  card ← getitem (cards state) player_position;
  let history := get_betting_string state in
  let recent_pattern := _format_recent_history (get_recent w.2) in
  match llm card history legal_actions (pot state) recent_pattern w with
  | Answered action =>
      if str_in action legal_actions then Ok action
      else list_getitem legal_actions 0
  | Unparsed => list_getitem legal_actions 0
  | Failed => list_getitem legal_actions 0
  end.

(** [HumanLikeAgent(name)] as an agent object, once the API key is
    there. *)
Definition new (name : string) : BaseAgent G M :=
  mkAgent name
    (fun state legal_actions player_position w =>
       action ← _choose_action_with_llm state legal_actions player_position w;
       Ok (action, w))
    (fun _ _ _ _ w => Ok w)
    (fun _ action _ w =>
       Ok (w.1, set_recent (observe (get_recent w.2) action) w.2)).

End WithLLM.
End HumanLikeAgent.

(** ** experiment/analyzer.py *)

Module ResultsAnalyzer.

(** [frequencies[agent][action] += 1] for one action record, on the
    [defaultdict] whose missing entries are the four counters at 0; records
    with an empty agent or action are skipped ([if agent and action]). *)
Definition count_action (r : ActionRecord)
    (frequencies : gmap string (gmap string Z))
    : result (gmap string (gmap string Z)) :=
  if negb (String.eqb (agent r) "") && negb (String.eqb (action r) "") then
    let counts := default zero_counts (frequencies !! agent r) in
    old ← getitem counts (action r);
    Ok (<[agent r := <[action r := old + 1]> counts]> frequencies)
  else Ok frequencies.

(** [for action_data in hand.get('actions', []): ...] *)
Fixpoint count_actions (records : list ActionRecord)
    (frequencies : gmap string (gmap string Z))
    : result (gmap string (gmap string Z)) :=
  match records with
  | [] => Ok frequencies
  | r :: records =>
      frequencies ← count_action r frequencies;
      count_actions records frequencies
  end.

(** [for hand in hands: ...] *)
Fixpoint count_hands (hands : list HandResult)
    (frequencies : gmap string (gmap string Z))
    : result (gmap string (gmap string Z)) :=
  match hands with
  | [] => Ok frequencies
  | hand :: hands =>
      frequencies ← count_actions (actions hand) frequencies;
      count_hands hands frequencies
  end.

Definition _calculate_action_frequencies (hands : list HandResult)
    : result (gmap string (gmap string Z)) :=
  count_hands hands ∅.

(** [agent_positions]: the position of the last record of each agent with
    a name that is not empty. *)
Definition agent_positions (records : list ActionRecord) : gmap string Z :=
  fold_left (fun (m : gmap string Z) (r : ActionRecord) =>
               if negb (String.eqb (agent r) "")
               then <[agent r := position r]> m else m)
            records ∅.

(** One turn of [for agent in [agent1, agent2]]: the next point of the
    agent's curve. *)
Definition extend_curve (hand : HandResult) (positions : gmap string Z)
    (cumulative : gmap string (list Z)) (agent : string)
    : result (gmap string (list Z)) :=
  curve ← getitem cumulative agent;
  last_profit ← list_getitem curve (-1);
  match positions !! agent with
  | Some pos =>
      Ok (<[agent := (curve ++ [last_profit + payoff_at hand pos])%list]>
            cumulative)
  | None => Ok (<[agent := (curve ++ [last_profit])%list]> cumulative)
  end.

(** [for hand in hands: ...] of [_calculate_cumulative_profit]. *)
Fixpoint extend_curves (hands : list HandResult) (agent1 agent2 : string)
    (cumulative : gmap string (list Z)) : result (gmap string (list Z)) :=
  match hands with
  | [] => Ok cumulative
  | hand :: hands =>
      let positions := agent_positions (actions hand) in
      cumulative ← extend_curve hand positions cumulative agent1;
      cumulative ← extend_curve hand positions cumulative agent2;
      extend_curves hands agent1 agent2 cumulative
  end.

Definition _calculate_cumulative_profit (hands : list HandResult)
    (agent1 agent2 : string) : result (gmap string (list Z)) :=
  extend_curves hands agent1 agent2 (<[agent2 := [0]]> (<[agent1 := [0]]> ∅)).

(** The entry of a card in [card_stats]: the integer counters, and the two
    rates once the closing loop has set them. *)
Record CardStats : Type := mkCardStats {
  hands : Z;
  won : Z;
  profit : Z;
  win_rate : option float;
  avg_profit : option float
}.

(** [cards.items()], in the order of the seats, which is the order in which
    [deal_cards] fills the dict. *)
Fixpoint insert_by_key (kv : Z * string) (l : list (Z * string))
    : list (Z * string) :=
  match l with
  | [] => [kv]
  | x :: l' => if kv.1 <=? x.1 then kv :: l else x :: insert_by_key kv l'
  end.

Definition cards_items (cards : gmap Z string) : list (Z * string) :=
  foldr insert_by_key [] (map_to_list cards).

(** The body of [for pos, card in cards.items()], on the [defaultdict] whose
    missing entries are the three counters at 0. *)
Definition count_card (hand : HandResult) (card_stats : gmap string CardStats)
    (item : Z * string) : gmap string CardStats :=
  let '(pos, card) := item in
  let stats := default (mkCardStats 0 0 0 None None) (card_stats !! card) in
  let payoff := payoff_at hand pos in
  <[card := mkCardStats (hands stats + 1)
                        (if 0 <? payoff then won stats + 1 else won stats)
                        (profit stats + payoff)
                        (win_rate stats) (avg_profit stats)]> card_stats.

(** [for hand in hands: ...] of [_calculate_card_statistics]. *)
Definition count_cards (hands : list HandResult)
    : gmap string CardStats :=
  fold_left (fun card_stats hand =>
               fold_left (count_card hand) (cards_items (hand_cards hand))
                         card_stats)
            hands ∅.

(** The body of the closing loop: [win_rate = won / hands] and
    [avg_profit = profit / hands] for an entry with [hands > 0]. *)
Definition set_rates (stats : CardStats) : result CardStats :=
  if 0 <? hands stats then
    rate ← int_truediv (won stats) (hands stats);
    avg ← int_truediv (profit stats) (hands stats);
    Ok (mkCardStats (hands stats) (won stats) (profit stats)
                    (Some rate) (Some avg))
  else Ok stats.

(** [for card, stats in card_stats.items(): ...].  The only exception the
    body can raise is [OverflowError], so the order in which the entries are
    visited does not show in the result. *)
Definition set_all_rates (items : list (string * CardStats))
    : result (list (string * CardStats)) :=
  mapM (fun item : string * CardStats =>
          stats ← set_rates item.2;
          Ok (item.1, stats)) items.

Definition _calculate_card_statistics (hands : list HandResult)
    : result (gmap string CardStats) :=
  items ← set_all_rates (map_to_list (count_cards hands));
  Ok (list_to_map items).

End ResultsAnalyzer.

(** ** Further notions used in the statements *)

(** The deal the two draws of the shuffle of three cards lead to: [j2] is the
    draw below 3 (for the last position), [j1] the draw below 2. *)
Definition deal_of_draws (j2 j1 : Z) : string * string :=
  match j2, j1 with
  | 0, 0 => ("Q", "K")
  | 0, _ => ("K", "Q")
  | 1, 0 => ("K", "J")
  | 1, _ => ("J", "K")
  | _, 0 => ("Q", "J")
  | _, _ => ("J", "Q")
  end.

(** The actions of a list applied one after the other. *)
Fixpoint play_actions (state : GameState) (actions : list string)
    : result GameState :=
  match actions with
  | [] => Ok state
  | a :: actions =>
      state ← KuhnPokerGame.apply_action state a;
      play_actions state actions
  end.

(** The five complete plays of a hand. *)
Definition complete_plays : list (list string) :=
  [["CHECK"; "CHECK"]; ["BET"; "CALL"]; ["BET"; "FOLD"];
   ["CHECK"; "BET"; "CALL"]; ["CHECK"; "BET"; "FOLD"]].

(** The first card is the higher of two cards of the deck. *)
Definition outranks (c0 c1 : string) : bool :=
  (String.eqb c0 "K" && negb (String.eqb c1 "K"))
  || (String.eqb c0 "Q" && String.eqb c1 "J").

(** [s.count(sep)] for a separator of one character. *)
Fixpoint str_count (sep : ascii) (s : string) : nat :=
  match s with
  | EmptyString => 0
  | String c s' => (if Ascii.eqb c sep then 1 else 0) + str_count sep s'
  end.

(** The part of an information set after the dot, as [get_info_set] forms
    it from the history: a single action other than CHECK, and CHECK followed
    by BET, are both written BET; every other history is written as the
    concatenation of its actions. *)
Definition history_key (history : list string) : string :=
  match history with
  | [a] => if String.eqb a "CHECK" then "CHECK" else "BET"
  | [_; _] =>
      if list_str_eqb history ["CHECK"; "BET"] then "BET"
      else String.concat "" history
  | _ => String.concat "" history
  end.

(** The seats that act in the first [n] turns of a hand: 0, 1, 0. *)
Definition seats_in_turn (n : nat) : list Z :=
  map (fun i => Z.of_nat i mod 2) (seq 0 n).

(** The records of a hand agree with the hand: their actions are the
    history, their positions the seats in turn, and each holds the card of its
    seat and the name of the agent that sits there. *)
Definition records_match {G M : Type} (agents : gmap Z (BaseAgent G M))
    (cards : gmap Z string) (history : list string)
    (records : list ActionRecord) : Prop :=
  map action records = history /\
  map position records = seats_in_turn (length records) /\
  Forall (fun r : ActionRecord =>
            cards !! position r = Some (card r) /\
            exists a, agents !! position r = Some a /\ agent r = name a)
         records.

(** An agent that plays by the rules: asked at a state reached by play for
    the seat to act, with the legal actions of the state, it returns one of
    them; and its two observation hooks return. *)
Definition plays_legally {G M : Type} (a : BaseAgent G M) : Prop :=
  (forall (s : GameState) (legal : list string) (w : G * M),
     reachable s -> is_terminal s = false ->
     KuhnPokerGame.get_legal_actions s = Ok legal ->
     exists act w', choose_action a s legal (current_player s) w = Ok (act, w') /\
                    act ∈ legal) /\
  (forall s act s' p w, exists w', observe_result a s act s' p w = Ok w') /\
  (forall s act p w, exists w', observe_opponent_action a s act p w = Ok w').

(** The four actions of the game, the keys of an agent's action counters. *)
Definition ACTIONS : list string := ["CHECK"; "BET"; "CALL"; "FOLD"].

(** The totals hold an entry for each of the names. *)
Definition profits_ready (names : list string) (profits : gmap string Z)
    : Prop :=
  forall nm, nm ∈ names -> is_Some (profits !! nm).

(** The counters hold, for each of the names, an entry for each action. *)
Definition counts_ready (names : list string)
    (counts : gmap string (gmap string Z)) : Prop :=
  forall nm, nm ∈ names ->
    exists c, counts !! nm = Some c /\
              forall act, act ∈ ACTIONS -> is_Some (c !! act).

(** The running totals of a list of numbers, from a starting total. *)
Fixpoint running_sums (total : Z) (xs : list Z) : list Z :=
  match xs with
  | [] => []
  | x :: xs => (total + x) :: running_sums (total + x) xs
  end.

(** The payoffs an agent gets in the hands of a list, by the seat
    [seat_of] gives it in each. *)
Definition payoffs_of (seat_of : Z -> Z) (hands : list HandResult) : list Z :=
  map (fun hand => payoff_at hand (seat_of (hand_id hand))) hands.

(** The counters of a tournament agree with those the analyzer has built
    so far: they are the same, but for the agents of the tournament that have
    not acted yet, whose counters the tournament holds at 0 and the analyzer
    does not hold. *)
Definition counts_agree (names : list string)
    (tournament analyzer : gmap string (gmap string Z)) : Prop :=
  forall nm,
    tournament !! nm = analyzer !! nm \/
    (nm ∈ names /\ tournament !! nm = Some zero_counts /\ analyzer !! nm = None).

(** The analyzer finds both agents of a tournament at their seats in the
    records of a hand. *)
Definition seats_found (agent1 agent2 : string) (hand : HandResult) : Prop :=
  ResultsAnalyzer.agent_positions (actions hand) !! agent1
  = Some (seat_of_agent1 (hand_id hand)) /\
  ResultsAnalyzer.agent_positions (actions hand) !! agent2
  = Some (seat_of_agent2 (hand_id hand)).

(** The total of a counter over the entries of the three cards. *)
Definition card_total (f : ResultsAnalyzer.CardStats -> Z)
    (card_stats : gmap string ResultsAnalyzer.CardStats) : Z :=
  foldr (fun card total =>
           match card_stats !! card with
           | Some stats => f stats + total
           | None => total
           end) 0 KuhnPokerGame.CARDS.

(** What the first loop of [_calculate_card_statistics] maintains: only
    cards of the deck have an entry; the counters of the entries add up to
    [total_hands], [total_won] and [total_profit]; and every entry has seen a
    hand, has won no more hands than it has seen, has neither won nor lost
    more than two chips a hand, and has no rates yet. *)
Definition counted (total_hands total_won total_profit : Z)
    (card_stats : gmap string ResultsAnalyzer.CardStats) : Prop :=
  (forall c, is_Some (card_stats !! c) -> c ∈ KuhnPokerGame.CARDS) /\
  card_total ResultsAnalyzer.hands card_stats = total_hands /\
  card_total ResultsAnalyzer.won card_stats = total_won /\
  card_total ResultsAnalyzer.profit card_stats = total_profit /\
  forall c stats, card_stats !! c = Some stats ->
    0 < ResultsAnalyzer.hands stats /\
    0 <= ResultsAnalyzer.won stats <= ResultsAnalyzer.hands stats /\
    Z.abs (ResultsAnalyzer.profit stats) <= 2 * ResultsAnalyzer.hands stats /\
    ResultsAnalyzer.win_rate stats = None /\
    ResultsAnalyzer.avg_profit stats = None.

(** A hand as a tournament logs it: two cards of the deck, and two payoffs
    that cancel, are not zero and are of at most two chips. *)
Definition dealt_and_paid (hand : HandResult) : Prop :=
  exists (c0 c1 : string) (v0 v1 : Z),
    hand_cards hand = <[1 := c1]> (<[0 := c0]> ∅) /\
    c0 ∈ KuhnPokerGame.CARDS /\ c1 ∈ KuhnPokerGame.CARDS /\
    hand_payoffs hand = [(0, v0); (1, v1)] /\ v0 + v1 = 0 /\ v0 <> 0 /\
    -2 <= v0 <= 2.

(** The actions of the records of a seat, in their order. *)
Definition actions_of_seat (seat : Z) (records : list ActionRecord)
    : list string :=
  map action (List.filter (fun r => position r =? seat) records).

(** A human-like agent whose API never gives a usable answer, and a GTO
    agent, over the counter generator; the store holds the recent history of
    the human-like agent. *)
Definition human_like : BaseAgent Z (list string) :=
  HumanLikeAgent.new (fun m => m) (fun h _ => h)
    (fun _ _ _ _ _ _ => HumanLikeAgent.Unparsed) "HumanLike".
Definition gto_opponent : BaseAgent Z (list string) := GTOAgent.new "GTO".

(** ** The seats of a tournament and the sampling of the agent, in the
    words of the specification *)

Section AlternatingSeats.

Context {G : Type} `{PyRandom G} {M : Type}.

(** "For hand i (0-indexed), seat assignment alternates: even i gives
    (seat0 = A, seat1 = B); odd i gives (seat0 = B, seat1 = A)." *)
Definition alternating_seats (A B : BaseAgent G M) (i : Z)
    : gmap Z (BaseAgent G M) :=
  if Z.even i then <[1 := B]> (<[0 := A]> ∅) else <[1 := A]> (<[0 := B]> ∅).

(** The hands [i], [i + 1], ..., [n] of them, played one after the other by
    [play_hand], each with the seats of its number. *)
Fixpoint hands_with_alternating_seats (A B : BaseAgent G M) (n : nat) (i : Z)
    (w : G * M) : result (list HandResult * (G * M)) :=
  match n with
  | O => Ok ([], w)
  | S n =>
      '(hand, w) ← play_hand (alternating_seats A B i) i w;
      '(hands, w) ← hands_with_alternating_seats A B n (i + 1) w;
      Ok (hand :: hands, w)
  end.

End AlternatingSeats.

(** "Restricts the oracle's distribution to the legal actions and
    renormalizes": the kept entries, each probability divided by the total of
    the kept ones. *)
Definition renormalized (legal_strategy : Strategy) : Strategy :=
  map (fun ap : string * float =>
         (ap.1, (ap.2 / float_sum (map snd legal_strategy))%float))
      legal_strategy.

(** Sampling by weights at the point [x]: the first action whose running
    total of weights exceeds [x], and the last action when none does. *)
Fixpoint pick_weighted (x running : float) (entries : Strategy)
    : option string :=
  match entries with
  | [] => None
  | [(a, _)] => Some a
  | (a, weight) :: rest =>
      let running := (running + weight)%float in
      if PrimFloat.ltb x running then Some a
      else pick_weighted x running rest
  end.

(** The action sampled with the weights of [entries] at the uniform draw
    [u]: the point is [u] times the total weight. *)
Definition sample_weighted (entries : Strategy) (u : float) : option string :=
  pick_weighted (u * float_sum (map snd entries))%float 0%float entries.

(** A generator whose [random()] is always 0.75, and a state in which a
    jack at seat 1 acts after a check. *)
Definition late_random : PyRandom Z := {|
  random_seed a := a;
  random_randbelow n g := (g mod n, g + 1);
  random_random g := (0.75%float, g + 1)
|}.

Definition jack_after_check : GameState :=
  mkGameState (<[1 := "J"]> (<[0 := "K"]> ∅)) ["CHECK"] 2 1 false None.

(** * Properties *)
(** ** Lists, strings and the shuffle *)

Lemma str_in_elem_of a l : str_in a l = true <-> a ∈ l.
Proof.
  induction l as [|x l IH]; simpl.
  - split; [discriminate | intros Hin; inversion Hin].
  - rewrite orb_true_iff, IH, String.eqb_eq, elem_of_cons. tauto.
Qed.

Lemma bind_Ok {A B} (r : result A) (k : A -> result B) (b : B) :
  r ≫= k = Ok b -> exists a, r = Ok a /\ k a = Ok b.
Proof. destruct r as [a|e]; simpl; [eauto | discriminate]. Qed.

Ltac inv_bind H :=
  let x := fresh "x" in
  let Hx := fresh "Hx" in
  apply bind_Ok in H; destruct H as (x & Hx & H).

Lemma list_index_length {A B} (l : list A) (l' : list B) i :
  length l = length l' -> list_index l i = list_index l' i.
Proof. unfold list_index. intros ->. reflexivity. Qed.

Lemma list_getitem_Ok {A} (l : list A) i x :
  list_getitem l i = Ok x -> exists k, list_index l i = Ok k /\ l !! k = Some x.
Proof.
  unfold list_getitem. intros H. inv_bind H.
  destruct (l !! x0) eqn:E; [|discriminate]. injection H as ->. eauto.
Qed.

Lemma insert_cons_perm {A} (t : list A) n y h :
  t !! n = Some y -> y :: <[n := h]> t ≡ₚ h :: t.
Proof.
  revert n; induction t as [|z t IH]; intros [|n] Hn; simpl in *; try discriminate.
  - injection Hn as ->. apply perm_swap.
  - rewrite perm_swap, (IH n Hn). apply perm_swap.
Qed.

Lemma swap_items_perm {A} (x : list A) a b xa xb :
  x !! a = Some xa -> x !! b = Some xb ->
  <[a := xb]> (<[b := xa]> x) ≡ₚ x.
Proof.
  revert a b; induction x as [|h t IH]; intros [|a] [|b] Ha Hb; simpl in *;
    try discriminate.
  - injection Ha as ->. injection Hb as ->. reflexivity.
  - injection Ha as ->. apply insert_cons_perm; assumption.
  - injection Hb as ->. apply insert_cons_perm; assumption.
  - f_equiv. apply IH; assumption.
Qed.

Section WithRandom.
Context {G : Type} `{PyRandom G}.

Lemma shuffle_from_perm {A} (i : nat) (x x' : list A) (g g' : G) :
  shuffle_from i x g = Ok (x', g') -> x' ≡ₚ x.
Proof.
  revert x g; induction i as [|i IH]; intros x g; simpl.
  - intros [= -> ->]. reflexivity.
  - destruct (random_randbelow _ g) as [j g1].
    intros Hs. inv_bind Hs. inv_bind Hs. inv_bind Hs. inv_bind Hs.
    apply list_getitem_Ok in Hx as (a & Ha & Hxa).
    apply list_getitem_Ok in Hx0 as (b & Hb & Hxb).
    unfold list_setitem in Hx1, Hx2.
    rewrite Hb in Hx1. simpl in Hx1. injection Hx1 as <-.
    rewrite (list_index_length _ x) in Hx2 by apply length_insert.
    rewrite Ha in Hx2. simpl in Hx2. injection Hx2 as <-.
    rewrite (IH _ _ Hs). apply swap_items_perm; assumption.
Qed.

Lemma deal_cards_seated (g g' : G) (c : gmap Z string) :
  KuhnPokerGame.deal_cards g = Ok (c, g') ->
  exists c0 c1, c = <[1 := c1]> (<[0 := c0]> ∅) /\
                c0 ∈ KuhnPokerGame.CARDS /\ c1 ∈ KuhnPokerGame.CARDS /\ c0 <> c1.
Proof.
  unfold KuhnPokerGame.deal_cards, random_shuffle. intros Hd.
  inv_bind Hd. destruct x as [deck g1].
  apply shuffle_from_perm in Hx.
  assert (Hnd : NoDup deck).
  { rewrite Hx. unfold KuhnPokerGame.CARDS.
    apply (bool_decide_unpack _). reflexivity. }
  pose proof (Permutation_length Hx) as Hlen.
  destruct deck as [|a [|b [|c' [|]]]]; simpl in Hlen; try discriminate.
  unfold list_getitem in Hd; simpl in Hd. injection Hd as <- <-.
  exists a, b. split; [reflexivity|].
  split; [rewrite <- Hx; set_solver|].
  split; [rewrite <- Hx; set_solver|].
  apply NoDup_cons in Hnd as [Hnd _]. set_solver.
Qed.
End WithRandom.

Lemma CARDS_values c :
  str_in c KuhnPokerGame.CARDS = true ->
  exists v, KuhnPokerGame.CARD_VALUES !! c = Some v.
Proof.
  intros Hc. apply str_in_elem_of in Hc. unfold KuhnPokerGame.CARDS in Hc.
  rewrite !elem_of_cons in Hc.
  destruct Hc as [-> | [-> | [-> | Hc]]]; [eexists; reflexivity .. | inversion Hc].
Qed.

Lemma showdown_winner_seated c :
  seated c = true ->
  exists w, KuhnPokerGame._get_showdown_winner c = Ok w /\ (w = 0 \/ w = 1).
Proof.
  unfold seated, KuhnPokerGame._get_showdown_winner. intros Hs.
  destruct (c !! 0) as [c0|] eqn:E0; [|discriminate].
  destruct (c !! 1) as [c1|] eqn:E1; [|discriminate].
  apply andb_true_iff in Hs as [H0 H1].
  apply CARDS_values in H0 as [v0 Hv0]. apply CARDS_values in H1 as [v1 Hv1].
  unfold getitem. rewrite E0, E1. cbn [mbind result_bind].
  rewrite Hv0, Hv1. cbn [mbind result_bind].
  destruct (v0 >? v1); eauto.
Qed.

Lemma fold_payoffs_zero_sum (folder pot : Z) :
  folder = 0 \/ folder = 1 ->
  exists v0 v1,
    KuhnPokerGame._calculate_fold_payoffs folder pot !! 0 = Some v0 /\
    KuhnPokerGame._calculate_fold_payoffs folder pot !! 1 = Some v1 /\
    v0 + v1 = 0.
Proof.
  unfold KuhnPokerGame._calculate_fold_payoffs.
  intros [-> | ->]; simpl; do 2 eexists; repeat split;
    try (rewrite ?lookup_insert_eq, ?lookup_insert_ne by lia;
         rewrite ?lookup_insert_eq; reflexivity); lia.
Qed.

Lemma showdown_payoffs_zero_sum c pot :
  seated c = true ->
  exists p v0 v1,
    KuhnPokerGame._calculate_showdown_payoffs c pot = Ok p /\
    p !! 0 = Some v0 /\ p !! 1 = Some v1 /\ v0 + v1 = 0.
Proof.
  intros Hs. unfold KuhnPokerGame._calculate_showdown_payoffs.
  destruct (showdown_winner_seated c Hs) as (w & -> & Hw). simpl.
  eexists. destruct Hw as [-> | ->]; simpl; do 2 eexists;
    (split; [reflexivity|]); repeat split;
    try (rewrite ?lookup_insert_eq, ?lookup_insert_ne by lia;
         rewrite ?lookup_insert_eq; reflexivity); lia.
Qed.

Lemma str_in_two a x y :
  str_in a [x; y] = true -> a = x \/ a = y.
Proof.
  simpl. rewrite orb_false_r, orb_true_iff, !String.eqb_eq. tauto.
Qed.

#[local] Arguments str_in : simpl never.

Lemma apply_action_conforming s a s' :
  conforming s -> KuhnPokerGame.apply_action s a = Ok s' -> conforming s'.
Proof.
  intros [Hc Hsh Hn Hp] Ha.
  destruct s as [c h p cp t pay]; simpl in *.
  destruct (showdown_payoffs_zero_sum c (p + 1) Hc) as (q1 & u0 & u1 & Hq1 & Hu0 & Hu1 & Hu).
  destruct (showdown_payoffs_zero_sum c p Hc) as (q & v0 & v1 & Hq & Hv0 & Hv1 & Hv).
  unfold KuhnPokerGame.apply_action in Ha.
  inversion Hsh; subst; simpl in Ha;
    try discriminate;
    (destruct (str_in a _) eqn:Hin; [|discriminate]);
    apply str_in_two in Hin as [-> | ->]; simpl in Ha;
    unfold KuhnPokerGame.BET_SIZE in Ha;
    rewrite ?Hq, ?Hq1 in Ha; simpl in Ha; injection Ha as <-;
    (constructor; simpl; [assumption | constructor | try discriminate; try reflexivity | try discriminate]);
    intros _.
  all: try (exists q, v0, v1; repeat split; assumption).
  all: try (exists q1, u0, u1; repeat split; assumption).
  all: edestruct (fold_payoffs_zero_sum) as (w0 & w1 & Hw0 & Hw1 & Hw);
    [| eexists _, w0, w1; repeat split; [exact Hw0 | exact Hw1 | exact Hw]]; lia.
Qed.

Lemma start_new_hand_conforming {G} `{PyRandom G} (g g' : G) s :
  KuhnPokerGame.start_new_hand g = Ok (s, g') -> conforming s.
Proof.
  unfold KuhnPokerGame.start_new_hand. intros Hs. inv_bind Hs.
  destruct x as [c g1]. injection Hs as <- <-.
  apply deal_cards_seated in Hx as (c0 & c1 & -> & H0 & H1 & _).
  constructor; simpl; try discriminate; try constructor.
  unfold seated. rewrite lookup_insert_ne, lookup_insert_eq, lookup_insert_eq by lia.
  apply andb_true_iff. split; apply str_in_elem_of; assumption.
Qed.

Lemma reachable_conforming s : reachable s -> conforming s.
Proof.
  induction 1 as [G R g g' s Hs | s s' a _ IH Ha].
  - eapply start_new_hand_conforming; eassumption.
  - eapply apply_action_conforming; eassumption.
Qed.

(** ** Legal actions *)

Lemma legal_actions_nonterminal (s : GameState) (l : list string) :
  is_terminal s = false ->
  KuhnPokerGame.get_legal_actions s = Ok l ->
  (betting_history s = [] /\ l = ["CHECK"; "BET"]) \/
  (betting_history s = ["CHECK"] /\ l = ["CHECK"; "BET"]) \/
  (betting_history s = ["BET"] /\ l = ["CALL"; "FOLD"]) \/
  (exists x, betting_history s = [x; "BET"] /\ l = ["CALL"; "FOLD"]).
Proof.
  unfold KuhnPokerGame.get_legal_actions. intros ->.
  destruct (betting_history s) as [|x [|y [|z h]]]; unfold item_eqb; simpl.
  - intros [= <-]. tauto.
  - destruct (String.eqb_spec x "CHECK") as [->|]; [intros [= <-]; tauto|].
    destruct (String.eqb_spec x "BET") as [->|]; [intros [= <-]; tauto|].
    discriminate.
  - destruct (String.eqb_spec y "BET") as [->|]; [|discriminate].
    intros [= <-]. right; right; right. eauto.
  - discriminate.
Qed.

Lemma hand_start_reachable : reachable hand_start.
Proof. apply (reachable_start (G := Z) 0 2). reflexivity. Qed.

Lemma reachable_two_actions (s : GameState) :
  reachable s -> is_terminal s = false ->
  exists a b, a <> b /\ KuhnPokerGame.get_legal_actions s = Ok [a; b].
Proof.
  intros Hr Ht. destruct (reachable_conforming s Hr) as [_ Hsh _ _].
  unfold KuhnPokerGame.get_legal_actions. rewrite Ht.
  rewrite Ht in Hsh. inversion Hsh; simpl;
    (do 2 eexists; split; [|reflexivity]; discriminate).
Qed.

(** C3, as stated, at a history of three actions: the most recent action is
    a bet, the state is not terminal, and [get_legal_actions] raises the
    invalid-history error instead of returning CALL and FOLD. *)
Lemma get_legal_actions_three_actions :
  is_terminal three_actions = false /\
  last (betting_history three_actions) = Some "BET" /\
  KuhnPokerGame.get_legal_actions three_actions = Raise InvalidBettingHistory /\
  KuhnPokerGame.get_legal_actions three_actions <> Ok ["CALL"; "FOLD"].
Proof. repeat split. discriminate. Qed.

(** C3 (amended): [get_legal_actions] returns the empty list on a terminal
    state; CHECK and BET on the empty history and on the history of one
    CHECK; CALL and FOLD when the history has one or two actions and the most
    recent one is BET; it raises the invalid-history error on every other
    history.  Every state reached by play that is not terminal has exactly two
    legal actions. *)
Theorem get_legal_actions_spec (s : GameState) :
  (is_terminal s = true -> KuhnPokerGame.get_legal_actions s = Ok []) /\
  (is_terminal s = false -> betting_history s = [] ->
   KuhnPokerGame.get_legal_actions s = Ok ["CHECK"; "BET"]) /\
  (is_terminal s = false -> betting_history s = ["CHECK"] ->
   KuhnPokerGame.get_legal_actions s = Ok ["CHECK"; "BET"]) /\
  (is_terminal s = false ->
   (length (betting_history s) = 1 \/ length (betting_history s) = 2)%nat ->
   last (betting_history s) = Some "BET" ->
   KuhnPokerGame.get_legal_actions s = Ok ["CALL"; "FOLD"]) /\
  (is_terminal s = false ->
   betting_history s <> [] -> betting_history s <> ["CHECK"] ->
   ~ ((length (betting_history s) = 1 \/ length (betting_history s) = 2)%nat /\
      last (betting_history s) = Some "BET") ->
   KuhnPokerGame.get_legal_actions s = Raise InvalidBettingHistory) /\
  (reachable s -> is_terminal s = false ->
   exists a b, a <> b /\ KuhnPokerGame.get_legal_actions s = Ok [a; b]).
Proof.
  split; [|split; [|split; [|split; [|split]]]];
    [| | | | | apply reachable_two_actions];
    unfold KuhnPokerGame.get_legal_actions;
    destruct s as [c h p cp t pay]; simpl.
  - intros ->. reflexivity.
  - intros -> ->. reflexivity.
  - intros -> ->. reflexivity.
  - intros -> Hlen Hlast.
    destruct h as [|x [|y [|z h]]]; simpl in *; try lia.
    + injection Hlast as ->. reflexivity.
    + injection Hlast as ->. reflexivity.
  - intros -> Hne Hnc Hnb.
    destruct h as [|x [|y [|z h]]]; simpl in *; try congruence.
    + unfold item_eqb; simpl.
      destruct (String.eqb_spec x "CHECK") as [->|]; [congruence|].
      destruct (String.eqb_spec x "BET") as [->|]; [|reflexivity].
      exfalso. apply Hnb. split; [lia | reflexivity].
    + unfold item_eqb; simpl.
      destruct (String.eqb_spec y "BET") as [->|]; [|reflexivity].
      exfalso. apply Hnb. split; [lia | reflexivity].
Qed.

Lemma get_legal_actions_spec_witness :
  KuhnPokerGame.get_legal_actions hand_start = Ok ["CHECK"; "BET"] /\
  exists a b, a <> b /\ KuhnPokerGame.get_legal_actions hand_start = Ok [a; b].
Proof.
  destruct (get_legal_actions_spec hand_start) as (_ & H2 & _ & _ & _ & H6).
  split.
  - apply H2; reflexivity.
  - apply H6; [|reflexivity].
    exact hand_start_reachable.
Defined.

(** ** Applying an action *)

Lemma apply_action_legal (s : GameState) (a : string) (l : list string) :
  is_terminal s = false -> seated (cards s) = true ->
  KuhnPokerGame.get_legal_actions s = Ok l -> a ∈ l ->
  exists s', KuhnPokerGame.apply_action s a = Ok s' /\
    cards s' = cards s /\
    betting_history s' = (betting_history s ++ [a])%list /\
    (a = "BET" \/ a = "CALL" -> pot s' = pot s + 1) /\
    (a = "CHECK" \/ a = "FOLD" -> pot s' = pot s) /\
    (is_terminal s' = true <->
     a = "FOLD" \/ a = "CALL" \/ betting_history s' = ["CHECK"; "CHECK"]) /\
    (is_terminal s' = false -> current_player s' = 1 - current_player s).
Proof.
  intros Ht Hc Hl Ha.
  pose proof (legal_actions_nonterminal s l Ht Hl) as Hcases.
  unfold KuhnPokerGame.apply_action. rewrite Hl. cbn [mbind result_bind].
  apply str_in_elem_of in Ha. rewrite Ha. cbn [negb].
  destruct s as [c h p cp t pay]; simpl in Ht, Hc, Hcases |- *.
  destruct (showdown_payoffs_zero_sum c (p + 1) Hc) as (q1 & ? & ? & Hq1 & _).
  destruct (showdown_payoffs_zero_sum c p Hc) as (q & ? & ? & Hq & _).
  unfold KuhnPokerGame.BET_SIZE.
  destruct Hcases as [[-> ->] | [[-> ->] | [[-> ->] | (y & -> & ->)]]];
    apply str_in_two in Ha as [-> | ->]; simpl;
    rewrite ?Hq, ?Hq1; simpl;
    (eexists; split; [reflexivity|]; simpl;
     repeat split; try reflexivity; try lia;
     try (intros [? | ?]; discriminate);
     try (intros [? | [? | ?]]; discriminate);
     try discriminate; try tauto; auto).
Qed.

Lemma apply_action_illegal (s : GameState) (a : string) (l : list string) :
  KuhnPokerGame.get_legal_actions s = Ok l -> a ∉ l ->
  KuhnPokerGame.apply_action s a = Raise IllegalAction.
Proof.
  intros Hl Ha. unfold KuhnPokerGame.apply_action. rewrite Hl.
  cbn [mbind result_bind].
  destruct (str_in a l) eqn:E; [|reflexivity].
  apply str_in_elem_of in E. contradiction.
Qed.

Lemma apply_check_bet (s : GameState) :
  is_terminal s = false -> betting_history s = [] ->
  exists s1 s2,
    KuhnPokerGame.apply_action s "CHECK" = Ok s1 /\
    KuhnPokerGame.apply_action s1 "BET" = Ok s2 /\
    betting_history s2 = ["CHECK"; "BET"] /\
    is_terminal s2 = false /\
    current_player s2 = current_player s /\
    KuhnPokerGame.get_legal_actions s2 = Ok ["CALL"; "FOLD"].
Proof.
  destruct s as [c h p cp t pay]; simpl. intros -> ->.
  do 2 eexists. split; [reflexivity|]. split; [reflexivity|].
  simpl. repeat split. lia.
Qed.

(** C1: on a state that is not terminal and holds a card for both seats,
    applying a legal action returns a state with the action appended to the
    history, the pot one unit higher for BET and CALL and unchanged for CHECK
    and FOLD, terminal exactly for FOLD, CALL and the history CHECK, CHECK,
    and with the other seat to act when it is not terminal; an action that is
    not legal raises the illegal-action error; and CHECK then BET leaves a
    state that is not terminal in which the checker acts again, with CALL and
    FOLD as legal actions. *)
Theorem apply_action_spec :
  (forall (s : GameState) (a : string) (l : list string),
     is_terminal s = false -> seated (cards s) = true ->
     KuhnPokerGame.get_legal_actions s = Ok l -> a ∈ l ->
     exists s', KuhnPokerGame.apply_action s a = Ok s' /\
       cards s' = cards s /\
       betting_history s' = (betting_history s ++ [a])%list /\
       (a = "BET" \/ a = "CALL" -> pot s' = pot s + 1) /\
       (a = "CHECK" \/ a = "FOLD" -> pot s' = pot s) /\
       (is_terminal s' = true <->
        a = "FOLD" \/ a = "CALL" \/ betting_history s' = ["CHECK"; "CHECK"]) /\
       (is_terminal s' = false -> current_player s' = 1 - current_player s)) /\
  (forall (s : GameState) (a : string) (l : list string),
     KuhnPokerGame.get_legal_actions s = Ok l -> a ∉ l ->
     KuhnPokerGame.apply_action s a = Raise IllegalAction) /\
  (forall s : GameState,
     is_terminal s = false -> betting_history s = [] ->
     exists s1 s2,
       KuhnPokerGame.apply_action s "CHECK" = Ok s1 /\
       KuhnPokerGame.apply_action s1 "BET" = Ok s2 /\
       betting_history s2 = ["CHECK"; "BET"] /\
       is_terminal s2 = false /\
       current_player s2 = current_player s /\
       KuhnPokerGame.get_legal_actions s2 = Ok ["CALL"; "FOLD"]).
Proof.
  split; [exact apply_action_legal|].
  split; [exact apply_action_illegal | exact apply_check_bet].
Qed.

Lemma apply_action_spec_witness :
  (exists s', KuhnPokerGame.apply_action hand_start "BET" = Ok s' /\
     cards s' = cards hand_start /\
     betting_history s' = (betting_history hand_start ++ ["BET"])%list /\
     ("BET" = "BET" \/ "BET" = "CALL" -> pot s' = pot hand_start + 1) /\
     ("BET" = "CHECK" \/ "BET" = "FOLD" -> pot s' = pot hand_start) /\
     (is_terminal s' = true <->
      "BET" = "FOLD" \/ "BET" = "CALL" \/
      betting_history s' = ["CHECK"; "CHECK"]) /\
     (is_terminal s' = false ->
      current_player s' = 1 - current_player hand_start)) /\
  KuhnPokerGame.apply_action hand_start "CALL" = Raise IllegalAction.
Proof.
  split.
  - apply (proj1 apply_action_spec hand_start "BET" ["CHECK"; "BET"]);
      [reflexivity | reflexivity | reflexivity | repeat constructor].
  - apply (proj1 (proj2 apply_action_spec) hand_start "CALL" ["CHECK"; "BET"]);
      [reflexivity|].
    intros Hin. apply str_in_elem_of in Hin. discriminate Hin.
Defined.

(** ** Payoffs and the pot *)

Lemma bet_fold_reachable : reachable bet_fold.
Proof.
  apply (reachable_step (mkGameState king_queen ["BET"] 3 1 false None) _ "FOLD");
    [|reflexivity].
  apply (reachable_step hand_start _ "BET"); [|reflexivity].
  exact hand_start_reachable.
Qed.

Lemma check_check_reachable : reachable check_check.
Proof.
  apply (reachable_step (mkGameState king_queen ["CHECK"] 2 1 false None) _ "CHECK");
    [|reflexivity].
  apply (reachable_step hand_start _ "CHECK"); [|reflexivity].
  exact hand_start_reachable.
Qed.

Lemma bet_call_reachable : reachable bet_call.
Proof.
  apply (reachable_step (mkGameState king_queen ["BET"] 3 1 false None) _ "CALL");
    [|reflexivity].
  apply (reachable_step hand_start _ "BET"); [|reflexivity].
  exact hand_start_reachable.
Qed.

(** C2: a terminal state reached by play carries payoffs for both seats
    that add up to zero, and a state reached by play that is not terminal
    carries none. *)
Theorem payoffs_zero_sum (s : GameState) :
  reachable s ->
  (is_terminal s = true ->
   exists p v0 v1, payoffs s = Some p /\ p !! 0 = Some v0 /\ p !! 1 = Some v1 /\
                   v0 + v1 = 0) /\
  (is_terminal s = false -> payoffs s = None).
Proof.
  intros Hr. destruct (reachable_conforming s Hr) as [_ _ Hnone Hsome].
  split; assumption.
Qed.

Lemma payoffs_zero_sum_witness :
  (exists p v0 v1, payoffs bet_fold = Some p /\ p !! 0 = Some v0 /\
                   p !! 1 = Some v1 /\ v0 + v1 = 0) /\
  (exists p v0 v1, payoffs check_check = Some p /\ p !! 0 = Some v0 /\
                   p !! 1 = Some v1 /\ v0 + v1 = 0) /\
  (exists p v0 v1, payoffs bet_call = Some p /\ p !! 0 = Some v0 /\
                   p !! 1 = Some v1 /\ v0 + v1 = 0) /\
  payoffs hand_start = None.
Proof.
  split; [|split; [|split]].
  - apply (proj1 (payoffs_zero_sum bet_fold bet_fold_reachable)). reflexivity.
  - apply (proj1 (payoffs_zero_sum check_check check_check_reachable)). reflexivity.
  - apply (proj1 (payoffs_zero_sum bet_call bet_call_reachable)). reflexivity.
  - apply (proj2 (payoffs_zero_sum hand_start hand_start_reachable)). reflexivity.
Defined.

(** C6, as stated, after BET and FOLD: the state is reached by play, it is
    terminal, and its pot is 3, which is odd, so twice [pot // 2] is not the
    pot. *)
Lemma pot_odd_after_bet_fold :
  reachable bet_fold /\ is_terminal bet_fold = true /\ pot bet_fold = 3 /\
  Z.even (pot bet_fold) = false /\ 2 * (pot bet_fold / 2) <> pot bet_fold.
Proof.
  split; [exact bet_fold_reachable|]. repeat split. discriminate.
Qed.

(** C6 (amended): on every state reached by play the pot is the two antes
    plus one chip for every BET and CALL of the history.  At a terminal state
    that ends in a showdown it is even, so [pot // 2] is its exact half; at a
    terminal state that ends in a fold it is 3, and [pot // 2] is 1. *)
Theorem pot_parity (s : GameState) :
  reachable s ->
  pot s = 2 * KuhnPokerGame.ANTE + chips_committed (betting_history s) /\
  (is_terminal s = true -> last (betting_history s) <> Some "FOLD" ->
   Z.even (pot s) = true /\ 2 * (pot s / 2) = pot s) /\
  (is_terminal s = true -> last (betting_history s) = Some "FOLD" ->
   pot s = 3 /\ pot s / 2 = 1).
Proof.
  intros Hr. destruct (reachable_conforming s Hr) as [_ Hsh _ _].
  inversion Hsh; (split; [reflexivity|]); split; intros Ht Hl;
    try discriminate; try (exfalso; apply Hl; reflexivity);
    split; reflexivity.
Qed.

Lemma pot_parity_witness :
  (pot bet_call = 2 * KuhnPokerGame.ANTE + chips_committed (betting_history bet_call)) /\
  (Z.even (pot bet_call) = true /\ 2 * (pot bet_call / 2) = pot bet_call) /\
  (pot bet_fold = 3 /\ pot bet_fold / 2 = 1).
Proof.
  split; [|split].
  - exact (proj1 (pot_parity bet_call bet_call_reachable)).
  - apply (proj1 (proj2 (pot_parity bet_call bet_call_reachable)));
      [reflexivity | discriminate].
  - apply (proj2 (proj2 (pot_parity bet_fold bet_fold_reachable)));
      reflexivity.
Defined.

(** ** Information sets and the equilibrium table *)

(** C8: the seat that faces a bet gets the key [c.BET] for its card [c],
    after the history BET as well as after CHECK, BET; so the equilibrium
    table answers both alike, and for each of the three cards with a
    distribution over CALL and FOLD. *)
Theorem facing_bet_info_set (s1 s2 : GameState) (p1 p2 : Z) (c : string) :
  cards s1 !! p1 = Some c -> cards s2 !! p2 = Some c ->
  betting_history s1 = ["BET"] -> betting_history s2 = ["CHECK"; "BET"] ->
  get_info_set s1 p1 = Ok (c ++ ".BET") /\
  get_info_set s2 p2 = Ok (c ++ ".BET") /\
  (get_info_set s1 p1 ≫= GTOStrategy.get_strategy)
  = (get_info_set s2 p2 ≫= GTOStrategy.get_strategy) /\
  (c ∈ KuhnPokerGame.CARDS ->
   exists call fold,
     get_info_set s1 p1 ≫= GTOStrategy.get_strategy
     = Ok [("CALL", call); ("FOLD", fold)] /\
     get_info_set s2 p2 ≫= GTOStrategy.get_strategy
     = Ok [("CALL", call); ("FOLD", fold)]).
Proof.
  intros Hc1 Hc2 Hh1 Hh2.
  assert (E1 : get_info_set s1 p1 = Ok (c ++ ".BET")).
  { unfold get_info_set, getitem. rewrite Hc1, Hh1. reflexivity. }
  assert (E2 : get_info_set s2 p2 = Ok (c ++ ".BET")).
  { unfold get_info_set, getitem. rewrite Hc2, Hh2. reflexivity. }
  rewrite E1, E2. repeat split.
  unfold KuhnPokerGame.CARDS. rewrite !elem_of_cons.
  intros [-> | [-> | [-> | Hin]]]; [| | | inversion Hin];
    do 2 eexists; split; reflexivity.
Qed.

Lemma facing_bet_info_set_witness :
  get_info_set (situation_state ["BET"]) 1 = Ok "Q.BET" /\
  get_info_set (situation_state ["CHECK"; "BET"]) 1 = Ok "Q.BET".
Proof.
  pose proof (facing_bet_info_set
                (situation_state ["BET"]) (situation_state ["CHECK"; "BET"])
                1 1 "Q" eq_refl eq_refl eq_refl eq_refl) as (E1 & E2 & _).
  split; assumption.
Defined.

(** C4: the nine entries of the equilibrium table, as [get_strategy]
    returns them; each is a distribution (probabilities in [0, 1], sum within
    1e-6 of 1.0) over exactly the legal actions of its decision point. *)
Theorem equilibrium_table :
  GTOStrategy.get_strategy "J." = Ok [("CHECK", 1.0%float); ("BET", 0.0%float)] /\
  GTOStrategy.get_strategy "Q." = Ok [("CHECK", 1.0%float); ("BET", 0.0%float)] /\
  GTOStrategy.get_strategy "K." = Ok [("CHECK", 0.0%float); ("BET", 1.0%float)] /\
  GTOStrategy.get_strategy "J.BET" = Ok [("CALL", 0.0%float); ("FOLD", 1.0%float)] /\
  GTOStrategy.get_strategy "Q.BET" = Ok [("CALL", 1.0%float); ("FOLD", 0.0%float)] /\
  GTOStrategy.get_strategy "K.BET" = Ok [("CALL", 1.0%float); ("FOLD", 0.0%float)] /\
  GTOStrategy.get_strategy "J.CHECK"
  = Ok [("CHECK", (2 / 3)%float); ("BET", (1 / 3)%float)] /\
  GTOStrategy.get_strategy "Q.CHECK" = Ok [("CHECK", 1.0%float); ("BET", 0.0%float)] /\
  GTOStrategy.get_strategy "K.CHECK" = Ok [("CHECK", 0.0%float); ("BET", 1.0%float)] /\
  Forall (fun key : string * list string =>
            exists strategy,
              GTOStrategy.get_strategy key.1 = Ok strategy /\
              is_distribution strategy = true /\
              KuhnPokerGame.get_legal_actions (situation_state key.2)
              = Ok (map fst strategy))
         info_sets.
Proof.
  repeat (split; [reflexivity|]).
  unfold info_sets.
  repeat (constructor; [eexists; split; [reflexivity|]; split; reflexivity|]).
  constructor.
Qed.

(** ** The GTO agent *)

Lemma get_strategy_rows (info_set : string) (strategy : Strategy) :
  GTOStrategy.get_strategy info_set = Ok strategy -> In strategy table_rows.
Proof.
  unfold GTOStrategy.get_strategy.
  destruct (str_split _ info_set) as [|card [|history [|? ?]]]; try discriminate.
  unfold GTOStrategy._get_p1_strategy, GTOStrategy._get_p2_facing_bet,
    GTOStrategy._get_p2_after_check.
  repeat (match goal with
          | |- context [String.eqb ?a ?b] => destruct (String.eqb a b)
          end);
    try discriminate; intros [= <-]; simpl; tauto.
Qed.

Lemma list_getitem_nat {A} (l : list A) (i : nat) :
  (i < length l)%nat -> exists x, list_getitem l (Z.of_nat i) = Ok x /\ l !! i = Some x.
Proof.
  intros Hi. unfold list_getitem, list_index.
  assert (E1 : (Z.of_nat i <? 0) = false) by (apply Z.ltb_ge; lia).
  assert (E2 : (Z.of_nat (length l) <=? Z.of_nat i) = false)
    by (apply Z.leb_gt; lia).
  cbv zeta. rewrite E1, E1, E2. cbn [orb mbind result_bind]. rewrite Nat2Z.id.
  destruct (lookup_lt_is_Some_2 l i Hi) as [x Hx]. rewrite Hx.
  exists x. split; reflexivity.
Qed.

Lemma bisect_loop_bound (fuel : nat) (a : list float) (x : float) (lo hi : nat) :
  (lo <= hi)%nat -> (hi < length a)%nat ->
  exists i, bisect_loop fuel a x lo hi = Ok i /\ (lo <= i <= hi)%nat.
Proof.
  revert lo hi; induction fuel as [|fuel IH]; intros lo hi Hle Hhi;
    cbn [bisect_loop].
  - destruct (lo <? hi)%nat; exists lo; split; (reflexivity || lia).
  - destruct (Nat.ltb_spec lo hi) as [Hlt|]; [|exists lo; split; (reflexivity || lia)].
    assert (Hmid : (lo <= (lo + hi) / 2 < hi)%nat).
    { split.
      - apply Nat.div_le_lower_bound; lia.
      - apply Nat.Div0.div_lt_upper_bound; lia. }
    destruct (list_getitem_nat a ((lo + hi) / 2)) as (a_mid & -> & _); [lia|].
    cbn [mbind result_bind].
    destruct (PrimFloat.ltb x a_mid).
    + destruct (IH lo ((lo + hi) / 2)%nat) as (i & -> & Hi); [lia | lia |].
      exists i. split; [reflexivity | lia].
    + destruct (IH ((lo + hi) / 2 + 1)%nat hi) as (i & -> & Hi); [lia | lia |].
      exists i. split; [reflexivity | lia].
Qed.

Lemma accumulate_from_length (acc : float) (weights : list float) :
  length (accumulate_from acc weights) = length weights.
Proof.
  revert acc; induction weights as [|x xs IH]; intros acc; simpl;
    [reflexivity | rewrite IH; reflexivity].
Qed.

Lemma accumulate_length (weights : list float) :
  length (accumulate weights) = length weights.
Proof.
  destruct weights; simpl; [reflexivity | rewrite accumulate_from_length; reflexivity].
Qed.

Lemma mapM_result_length {A B} (f : A -> result B) (l : list A) (l' : list B) :
  mapM f l = Ok l' -> length l' = length l.
Proof.
  revert l'; induction l as [|x l IH]; intros l'; simpl.
  - intros [= <-]. reflexivity.
  - destruct (f x) as [y|]; [|discriminate]. cbn [mbind result_bind].
    destruct (mapM f l) as [ys|]; [|discriminate]. cbn [mbind result_bind].
    intros [= <-]. simpl. rewrite (IH ys); reflexivity.
Qed.

Section AgentWithRandom.
Context {G : Type} `{PyRandom G}.

Lemma random_choice_in {A} (seq : list A) (g : G) :
  seq <> [] -> randbelow_in_range ->
  exists x g', random_choice seq g = Ok (x, g') /\ x ∈ seq.
Proof.
  intros Hne Hrange. unfold random_choice.
  destruct seq as [|y seq]; [contradiction|]. cbn [length Nat.eqb].
  pose proof (Hrange (Z.of_nat (length (y :: seq))) g) as Hr.
  destruct (random_randbelow _ g) as [i g']. simpl fst in Hr.
  destruct (list_getitem_nat (y :: seq) (Z.to_nat i)) as (x & Hx & Hl).
  { simpl length in *. lia. }
  rewrite Z2Nat.id in Hx by (simpl length in *; lia).
  rewrite Hx. exists x, g'. split; [reflexivity|].
  apply list_elem_of_lookup. eauto.
Qed.

Lemma random_choices_one {A} (population : list A) (weights : list float) (g : G) :
  length weights = length population -> population <> [] ->
  total_weight_ok weights = true ->
  exists x g', random_choices population weights 1 g = Ok ([x], g') /\
               x ∈ population.
Proof.
  intros Hlen Hne Hok. unfold random_choices, total_weight_ok in *.
  rewrite accumulate_length, Hlen, Nat.eqb_refl. cbn [negb].
  destruct (list_getitem (accumulate weights) (-1)) as [last_weight|];
    [|discriminate].
  cbn [mbind result_bind].
  apply andb_true_iff in Hok as [Hpos Hfin].
  apply negb_true_iff in Hpos. rewrite Hpos, Hfin. cbn [negb].
  unfold choices_draws, choices_draw.
  destruct (random_random g) as [u g'].
  assert (Hpop : (0 < length population)%nat).
  { destruct population; [contradiction | simpl; lia]. }
  destruct (bisect_loop_bound (length population - 1 - 0) (accumulate weights)
              (u * (last_weight + 0.0))%float 0 (length population - 1))
    as (i & Hi & Hbound); [lia | rewrite accumulate_length; lia |].
  unfold bisect. rewrite Hi. cbn [mbind result_bind].
  destruct (list_getitem_nat population i) as (x & -> & Hx); [lia|].
  cbn [mbind result_bind]. exists x, g'. split; [reflexivity|].
  apply list_elem_of_lookup. eauto.
Qed.

Lemma sample_legal_strategy (legal_strategy : Strategy) (g : G) :
  legal_strategy <> [] -> weights_ok legal_strategy = true ->
  exists a g',
    (normalized_probs ←
       mapM (fun p => float_truediv p (float_sum (map snd legal_strategy)))
            (map snd legal_strategy);
     '(picked, g) ← random_choices (map fst legal_strategy) normalized_probs 1 g;
     action ← list_getitem picked 0;
     Ok (action, g)) = Ok (a, g') /\
    a ∈ map fst legal_strategy.
Proof.
  intros Hne Hok. unfold weights_ok in Hok.
  destruct (mapM _ (map snd legal_strategy)) as [weights|] eqn:Hw; [|discriminate].
  cbn [mbind result_bind].
  apply mapM_result_length in Hw. rewrite length_map in Hw.
  destruct (random_choices_one (map fst legal_strategy) weights g)
    as (a & g' & -> & Ha); [rewrite length_map; exact Hw | | exact Hok |].
  { destruct legal_strategy; [contradiction | discriminate]. }
  cbn [mbind result_bind]. exists a, g'. split; [reflexivity | exact Ha].
Qed.

Lemma row_weights_ok (row : Strategy) (legal_actions : list string) :
  In row table_rows ->
  existsb (fun ap : string * float =>
             str_in ap.1 legal_actions && PrimFloat.ltb 0 ap.2) row = true ->
  List.filter (fun ap : string * float => str_in ap.1 legal_actions) row <> [] /\
  weights_ok
    (List.filter (fun ap : string * float => str_in ap.1 legal_actions) row) = true.
Proof.
  unfold table_rows. simpl In.
  intros [<- | [<- | [<- | [<- | [<- | []]]]]]; cbn [existsb List.filter fst snd];
    repeat (match goal with
            | |- context [str_in ?a legal_actions] =>
                destruct (str_in a legal_actions)
            end);
    cbn; intros Hpos; try discriminate Hpos; split; (discriminate || reflexivity).
Qed.
End AgentWithRandom.

Lemma counter_randbelow_in_range : randbelow_in_range (G := Z).
Proof.
  intros n g Hn. simpl. apply Z.mod_pos_bound. exact Hn.
Qed.

(** C10, as stated, at two inputs.  On a hand that is over the information
    set is none of the table's and the oracle's error comes back, whatever the
    legal actions are.  With a jack first to act and BET as the only legal
    action, the action the oracle plays (CHECK) is not legal, no fallback
    happens, and the division by the zero total raises. *)
Lemma choose_action_raises :
  GTOAgent.choose_action (G := Z) bet_call ["CALL"; "FOLD"] 1 0
  = Raise UnknownInformationSet /\
  GTOAgent.choose_action (G := Z) jack_first ["BET"] 0 0
  = Raise ZeroDivisionError.
Proof. split; reflexivity. Qed.

Lemma kept_entries (row : Strategy) (legal_actions : list string) :
  In row table_rows ->
  existsb (fun ap : string * float =>
             str_in ap.1 legal_actions && PrimFloat.ltb 0 ap.2) row = true ->
  In (List.filter (fun ap : string * float => str_in ap.1 legal_actions) row)
     [[("CHECK", 1.0%float); ("BET", 0.0%float)];
      [("CHECK", 0.0%float); ("BET", 1.0%float)];
      [("CALL", 0.0%float); ("FOLD", 1.0%float)];
      [("CALL", 1.0%float); ("FOLD", 0.0%float)];
      [("CHECK", (2 / 3)%float); ("BET", (1 / 3)%float)];
      [("CHECK", 1.0%float)]; [("BET", 1.0%float)];
      [("CALL", 1.0%float)]; [("FOLD", 1.0%float)];
      [("CHECK", (2 / 3)%float)]; [("BET", (1 / 3)%float)]].
Proof.
  unfold table_rows. simpl In.
  intros [<- | [<- | [<- | [<- | [<- | []]]]]]; cbn [existsb List.filter fst snd];
    repeat (match goal with
            | |- context [str_in ?a legal_actions] =>
                destruct (str_in a legal_actions)
            end);
    cbn; intros Hpos; try discriminate Hpos; tauto.
Qed.

Section SamplingWithRandom.
Context {G : Type} `{PyRandom G}.

Lemma sample_kept (kept : Strategy) (g : G) :
  In kept
     [[("CHECK", 1.0%float); ("BET", 0.0%float)];
      [("CHECK", 0.0%float); ("BET", 1.0%float)];
      [("CALL", 0.0%float); ("FOLD", 1.0%float)];
      [("CALL", 1.0%float); ("FOLD", 0.0%float)];
      [("CHECK", (2 / 3)%float); ("BET", (1 / 3)%float)];
      [("CHECK", 1.0%float)]; [("BET", 1.0%float)];
      [("CALL", 1.0%float)]; [("FOLD", 1.0%float)];
      [("CHECK", (2 / 3)%float)]; [("BET", (1 / 3)%float)]] ->
  exists a,
    (normalized_probs ←
       mapM (fun p => float_truediv p (float_sum (map snd kept))) (map snd kept);
     '(picked, g) ← random_choices (map fst kept) normalized_probs 1 g;
     action ← list_getitem picked 0;
     Ok (action, g)) = Ok (a, (random_random g).2) /\
    sample_weighted (renormalized kept) (random_random g).1 = Some a /\
    a ∈ map fst kept.
Proof.
  simpl In. intros Hin.
  repeat (destruct Hin as [<- | Hin]); try contradiction;
    unfold random_choices, choices_draws, choices_draw, sample_weighted;
    destruct (random_random g) as [u g']; cbn [fst snd].
  all: vm_compute;
    first
      [ (* one entry kept *)
        eexists; split; [reflexivity|]; split; [reflexivity|];
        apply list_elem_of_In; simpl; tauto
      | (* two entries kept *)
        match goal with
        | |- context [PrimFloat.ltb ?x ?c] =>
            destruct (PrimFloat.ltb x c);
            eexists; (split; [reflexivity|]); (split; [reflexivity|]);
            apply list_elem_of_In; simpl; tauto
        end ].
Qed.

End SamplingWithRandom.

(** C10 (amended): when the information set of the seat is one of the
    table's, [choose_action] keeps the oracle's entries whose action is legal.
    If none is, it returns [random.choice(legal_actions)], an element of a
    non-empty list of legal actions.  If some legal action has positive
    probability, it draws [random()] once and returns the action sampled at
    that draw with the weights of the kept entries, each probability divided
    by the total of the kept ones; that action is one of the kept ones, so it
    is legal.  When the oracle raises, so does [choose_action]. *)
Theorem choose_action_legal {G : Type} `{PyRandom G}
    (state : GameState) (legal_actions : list string) (player_position : Z)
    (g : G) (info_set : string) :
  get_info_set state player_position = Ok info_set ->
  (forall e, GTOStrategy.get_strategy info_set = Raise e ->
             GTOAgent.choose_action state legal_actions player_position g
             = Raise e) /\
  (forall strategy,
     GTOStrategy.get_strategy info_set = Ok strategy ->
     (List.filter (fun ap : string * float => str_in ap.1 legal_actions) strategy
      = [] ->
      GTOAgent.choose_action state legal_actions player_position g
      = random_choice legal_actions g /\
      (legal_actions <> [] -> randbelow_in_range ->
       exists a g',
         GTOAgent.choose_action state legal_actions player_position g
         = Ok (a, g') /\ a ∈ legal_actions)) /\
     (existsb (fun ap : string * float =>
                 str_in ap.1 legal_actions && PrimFloat.ltb 0 ap.2) strategy
      = true ->
      exists a,
        GTOAgent.choose_action state legal_actions player_position g
        = Ok (a, (random_random g).2) /\
        sample_weighted
          (renormalized
             (List.filter (fun ap : string * float => str_in ap.1 legal_actions)
                          strategy))
          (random_random g).1 = Some a /\
        a ∈ legal_actions /\ a ∈ map fst strategy)).
Proof.
  intros Hinfo. unfold GTOAgent.choose_action. rewrite Hinfo.
  cbn [mbind result_bind]. split.
  - intros e ->. reflexivity.
  - intros strategy Hs. rewrite Hs. cbn [mbind result_bind]. split.
    + intros ->. cbn [length Nat.eqb]. split; [reflexivity|].
      intros Hne Hrange. apply random_choice_in; assumption.
    + intros Hpos.
      pose proof (kept_entries strategy legal_actions
                    (get_strategy_rows _ _ Hs) Hpos) as Hkept.
      destruct (sample_kept _ g Hkept) as (a & Hcode & Hspec & Ha).
      destruct (List.filter _ strategy) as [|ap rest] eqn:Hf;
        [simpl in Hkept; intuition discriminate|].
      cbn [length Nat.eqb].
      exists a. split; [exact Hcode|]. split; [exact Hspec|].
      apply list_elem_of_fmap in Ha as ([a' p] & -> & Hin).
      rewrite <- Hf in Hin. apply list_elem_of_In, filter_In in Hin as [Hin Hlegal].
      split.
      * apply str_in_elem_of. exact Hlegal.
      * apply list_elem_of_fmap. exists (a', p). split; [reflexivity|].
        apply list_elem_of_In. exact Hin.
Qed.

Lemma choose_action_legal_witness :
  (exists a g',
     GTOAgent.choose_action (G := Z) (situation_state ["BET"])
       ["CHECK"; "BET"] 1 0 = Ok (a, g') /\ a ∈ ["CHECK"; "BET"]) /\
  (GTOAgent.choose_action (H := late_random) jack_after_check
     ["CHECK"; "BET"] 1 0 = Ok ("BET", 1) /\
   sample_weighted
     (renormalized [("CHECK", (2 / 3)%float); ("BET", (1 / 3)%float)])
     0.75%float = Some "BET") /\
  (GTOAgent.choose_action (G := Z) jack_after_check ["CHECK"; "BET"] 1 0
   = Ok ("CHECK", 1)).
Proof.
  split; [|split].
  - apply (proj2 (choose_action_legal (G := Z) (situation_state ["BET"])
                    ["CHECK"; "BET"] 1 0 "Q.BET" eq_refl)
                 [("CALL", 1.0%float); ("FOLD", 0.0%float)] eq_refl);
      [reflexivity | discriminate | exact counter_randbelow_in_range].
  - destruct (proj2 (proj2 (choose_action_legal (H := late_random)
                              jack_after_check ["CHECK"; "BET"] 1 0 "J.CHECK"
                              eq_refl)
                           [("CHECK", (2 / 3)%float); ("BET", (1 / 3)%float)]
                           eq_refl) eq_refl)
      as (a & Hcode & Hspec & _).
    vm_compute in Hspec. injection Hspec as <-.
    split; [exact Hcode | reflexivity].
  - destruct (proj2 (proj2 (choose_action_legal (G := Z)
                              jack_after_check ["CHECK"; "BET"] 1 0 "J.CHECK"
                              eq_refl)
                           [("CHECK", (2 / 3)%float); ("BET", (1 / 3)%float)]
                           eq_refl) eq_refl)
      as (a & Hcode & Hspec & _).
    vm_compute in Hspec. injection Hspec as <-. exact Hcode.
Defined.

(** ** The tournament *)

Lemma apply_action_history (s s' : GameState) (a : string) :
  KuhnPokerGame.apply_action s a = Ok s' ->
  betting_history s' = (betting_history s ++ [a])%list.
Proof.
  unfold KuhnPokerGame.apply_action. intros Ha. inv_bind Ha.
  destruct (negb _); [discriminate|].
  inv_bind Ha. destruct x0 as [terminal pay]. injection Ha as <-. reflexivity.
Qed.

Lemma conforming_history_length (s : GameState) :
  conforming s -> (length (betting_history s) <= 3)%nat.
Proof. intros [_ Hsh _ _]. inversion Hsh; simpl; lia. Qed.

Lemma conforming_terminal_payoffs (s : GameState) :
  conforming s -> is_terminal s = true ->
  exists v0 v1, KuhnPokerGame.get_payoff s 0 = Ok v0 /\
                KuhnPokerGame.get_payoff s 1 = Ok v1 /\ v0 + v1 = 0.
Proof.
  intros [_ _ _ Hp] Ht. destruct (Hp Ht) as (p & v0 & v1 & Hpay & H0 & H1 & Hv).
  unfold KuhnPokerGame.get_payoff, getitem. rewrite Ht, Hpay, H0, H1.
  exists v0, v1. repeat split. exact Hv.
Qed.

Section TournamentProofs.
Context {G : Type} `{PyRandom G} {M : Type}.
Implicit Types (agents : gmap Z (BaseAgent G M)) (w : G * M).

Lemma play_turn_applies agents s acts w s' acts' w' :
  play_turn agents s acts w = Ok (s', acts', w') ->
  exists a, KuhnPokerGame.apply_action s a = Ok s'.
Proof.
  unfold play_turn. intros Ht.
  inv_bind Ht. inv_bind Ht. inv_bind Ht. destruct x1 as [a w1].
  inv_bind Ht. inv_bind Ht. inv_bind Ht. inv_bind Ht. inv_bind Ht.
  injection Ht as <- _ _. eauto.
Qed.

(** A hand that conforms is over after at most three more turns: the loop of
    [play_hand] is never cut off, and it ends on a terminal state. *)
Lemma play_loop_not_cut_off (fuel : nat) agents s acts w :
  conforming s -> (4 - length (betting_history s) <= fuel)%nat ->
  exists r, play_loop fuel agents s acts w = Some r /\
            forall s' acts' w', r = Ok (s', acts', w') ->
                                conforming s' /\ is_terminal s' = true.
Proof.
  revert s acts w; induction fuel as [|fuel IH]; intros s acts w Hc Hfuel.
  - pose proof (conforming_history_length s Hc). lia.
  - cbn [play_loop]. destruct (is_terminal s) eqn:Ht.
    + eexists. split; [reflexivity|]. intros s' acts' w' [= <- _ _]. auto.
    + destruct (play_turn agents s acts w) as [[[s1 acts1] w1]|e] eqn:Hturn.
      * destruct (play_turn_applies _ _ _ _ _ _ _ Hturn) as [a Ha].
        apply IH.
        -- eapply apply_action_conforming; eassumption.
        -- rewrite (apply_action_history _ _ _ Ha), length_app. simpl. lia.
      * eexists. split; [reflexivity|]. discriminate.
Qed.

Lemma play_hand_payoffs agents (hand_num : Z) w hand w' :
  play_hand agents hand_num w = Ok (hand, w') ->
  hand_id hand = hand_num /\
  exists v0 v1, hand_payoffs hand = [(0, v0); (1, v1)] /\ v0 + v1 = 0.
Proof.
  unfold play_hand. intros Hh. inv_bind Hh. destruct x as [s0 g1].
  pose proof (start_new_hand_conforming _ _ _ Hx) as Hc.
  destruct (play_loop_not_cut_off 4 agents s0 [] (g1, w.2) Hc) as (r & Hr & Hend).
  { lia. }
  rewrite Hr in Hh. cbn [default] in Hh.
  inv_bind Hh. destruct x as [[s1 acts1] w1].
  destruct (Hend _ _ _ Hx0) as [Hc1 Ht1].
  destruct (conforming_terminal_payoffs s1 Hc1 Ht1) as (v0 & v1 & H0 & H1 & Hv).
  rewrite H0, H1 in Hh. cbn [mbind result_bind] in Hh.
  injection Hh as <- _. cbn. split; [reflexivity|]. eauto.
Qed.

Lemma seating_seats (agent1 agent2 : BaseAgent G M) (hand_num : Z) :
  (hand_num mod 2 = 0 ->
   seating agent1 agent2 hand_num !! 0 = Some agent1 /\
   seating agent1 agent2 hand_num !! 1 = Some agent2) /\
  (hand_num mod 2 <> 0 ->
   seating agent1 agent2 hand_num !! 0 = Some agent2 /\
   seating agent1 agent2 hand_num !! 1 = Some agent1).
Proof.
  unfold seating. destruct (Z.eqb_spec (hand_num mod 2) 0) as [E|E];
    (split; [intros ?|intros ?]; try contradiction);
    (split; [rewrite lookup_insert_ne by lia; apply lookup_insert_eq
            | apply lookup_insert_eq]).
Qed.

Lemma update_profits_seated (agent1 agent2 : BaseAgent G M) (hand_num : Z)
    (v0 v1 x1 x2 : Z) (profits profits' : gmap string Z) :
  name agent1 <> name agent2 ->
  profits !! name agent1 = Some x1 -> profits !! name agent2 = Some x2 ->
  update_profits (seating agent1 agent2 hand_num) [(0, v0); (1, v1)] profits
  = Ok profits' ->
  profits' !! name agent1
  = Some (x1 + (if seat_of_agent1 hand_num =? 0 then v0 else v1)) /\
  profits' !! name agent2
  = Some (x2 + (if seat_of_agent2 hand_num =? 0 then v0 else v1)).
Proof.
  intros Hne H1 H2. unfold seat_of_agent2, seat_of_agent1.
  destruct (seating_seats agent1 agent2 hand_num) as [Heven Hodd].
  cbn [update_profits]. unfold getitem.
  destruct (Z.eqb_spec (hand_num mod 2) 0) as [E|E].
  - destruct (Heven E) as [-> ->]. cbn [mbind result_bind].
    rewrite H1. cbn [mbind result_bind].
    rewrite lookup_insert_ne, H2 by exact Hne. cbn [mbind result_bind].
    intros [= <-]. cbn. split.
    + rewrite lookup_insert_ne by (intros E'; apply Hne; symmetry; exact E').
      apply lookup_insert_eq.
    + apply lookup_insert_eq.
  - destruct (Hodd E) as [-> ->]. cbn [mbind result_bind].
    rewrite H2. cbn [mbind result_bind].
    rewrite lookup_insert_ne, H1 by (intros E'; apply Hne; symmetry; exact E').
    cbn [mbind result_bind].
    intros [= <-]. cbn. split.
    + apply lookup_insert_eq.
    + rewrite lookup_insert_ne by exact Hne. apply lookup_insert_eq.
Qed.

Lemma tournament_loop_profits (agent1 agent2 : BaseAgent G M) (n : nat) :
  name agent1 <> name agent2 ->
  forall (hand_num : Z) (profits : gmap string Z)
         (counts : gmap string (gmap string Z)) (hands : list HandResult)
         w (x1 x2 : Z) profits' counts' hands' w',
    profits !! name agent1 = Some x1 -> profits !! name agent2 = Some x2 ->
    tournament_loop agent1 agent2 n hand_num (profits, counts, hands) w
    = Ok ((profits', counts', hands'), w') ->
    exists played,
      hands' = (hands ++ played)%list /\
      map hand_id played = map (fun i => hand_num + Z.of_nat i) (seq 0 n) /\
      profits' !! name agent1 = Some (x1 + profit_over seat_of_agent1 played) /\
      profits' !! name agent2 = Some (x2 + profit_over seat_of_agent2 played) /\
      profit_over seat_of_agent1 played + profit_over seat_of_agent2 played = 0.
Proof.
  intros Hne. induction n as [|n IH];
    intros hand_num profits counts hands w x1 x2 profits' counts' hands' w' H1 H2;
    cbn [tournament_loop].
  - intros [= <- _ <- _]. exists []. rewrite app_nil_r. cbn.
    rewrite !Z.add_0_r. auto.
  - intros Hl. inv_bind Hl. destruct x as [[[profits1 counts1] hands1] w1].
    unfold tournament_hand in Hx.
    inv_bind Hx. destruct x as [hand w0].
    destruct (play_hand_payoffs _ _ _ _ _ Hx0) as (Hid & v0 & v1 & Hpay & Hv).
    inv_bind Hx. inv_bind Hx. injection Hx as <- _ <- _.
    rewrite Hpay in Hx1.
    destruct (update_profits_seated _ _ _ _ _ _ _ _ _ Hne H1 H2 Hx1) as [P1 P2].
    destruct (IH _ _ _ _ _ _ _ _ _ _ _ P1 P2 Hl)
      as (played & -> & Hids & Q1 & Q2 & Hz).
    exists (hand :: played). rewrite <- app_assoc. split; [reflexivity|].
    assert (Hp1 : payoff_at hand (seat_of_agent1 hand_num)
                  = if seat_of_agent1 hand_num =? 0 then v0 else v1).
    { unfold payoff_at, seat_of_agent1. rewrite Hpay.
      destruct (hand_num mod 2 =? 0); reflexivity. }
    assert (Hp2 : payoff_at hand (seat_of_agent2 hand_num)
                  = if seat_of_agent2 hand_num =? 0 then v0 else v1).
    { unfold payoff_at, seat_of_agent2, seat_of_agent1. rewrite Hpay.
      destruct (hand_num mod 2 =? 0); reflexivity. }
    cbn [profit_over foldr map]. fold (profit_over seat_of_agent1 played).
    fold (profit_over seat_of_agent2 played). rewrite Hid, Hp1, Hp2.
    split; [|split; [|split]].
    + cbn [seq map]. rewrite Z.add_0_r. f_equal.
      rewrite Hids, <- seq_shift, map_map.
      apply map_ext. intros i. lia.
    + rewrite Q1. f_equal. lia.
    + rewrite Q2. f_equal. lia.
    + assert (Hs : (if seat_of_agent1 hand_num =? 0 then v0 else v1)
                   + (if seat_of_agent2 hand_num =? 0 then v0 else v1) = 0).
      { unfold seat_of_agent2, seat_of_agent1.
        destruct (hand_num mod 2 =? 0); simpl; lia. }
      lia.
Qed.
End TournamentProofs.

Lemma tournament_loop_split {G : Type} `{PyRandom G} {M : Type}
    (agent1 agent2 : BaseAgent G M) (k m : nat) (hand_num : Z)
    (st : gmap string Z * gmap string (gmap string Z) * list HandResult)
    (w : G * M) :
  tournament_loop agent1 agent2 (k + m) hand_num st w
  = ('(st', w') ← tournament_loop agent1 agent2 k hand_num st w;
     tournament_loop agent1 agent2 m (hand_num + Z.of_nat k) st' w').
Proof.
  revert hand_num st w; induction k as [|k IH]; intros hand_num st w.
  - cbn. rewrite Z.add_0_r. reflexivity.
  - cbn [Nat.add tournament_loop].
    destruct (tournament_hand agent1 agent2 hand_num st w) as [[st1 w1]|e];
      cbn [mbind result_bind]; [|reflexivity].
    rewrite IH. replace (hand_num + 1 + Z.of_nat k) with (hand_num + Z.of_nat (S k)) by lia.
    reflexivity.
Qed.

Section LoggedHands.
Context {G : Type} `{PyRandom G} {M : Type}.

Lemma tournament_hand_inv (agent1 agent2 : BaseAgent G M) (hand_num : Z)
    profits ct hands (w : G * M) profits' ct' hands' w' :
  tournament_hand agent1 agent2 hand_num (profits, ct, hands) w
  = Ok (profits', ct', hands', w') ->
  exists hand,
    play_hand (seating agent1 agent2 hand_num) hand_num w = Ok (hand, w') /\
    update_profits (seating agent1 agent2 hand_num) (hand_payoffs hand) profits
    = Ok profits' /\
    update_action_counts (actions hand) ct = Ok ct' /\
    hands' = (hands ++ [hand])%list.
Proof.
  unfold tournament_hand. intros Hh. inv_bind Hh. destruct x as [hand w2].
  inv_bind Hh. inv_bind Hh. injection Hh as <- <- <- <-.
  exists hand. auto.
Qed.

Lemma seating_alternating (agent1 agent2 : BaseAgent G M) (hand_num : Z) :
  seating agent1 agent2 hand_num = alternating_seats agent1 agent2 hand_num.
Proof.
  unfold seating, alternating_seats. rewrite (Zmod_even hand_num).
  destruct (Z.even hand_num); reflexivity.
Qed.

Lemma alternating_seats_of_agents (agent1 agent2 : BaseAgent G M) (i : Z) :
  alternating_seats agent1 agent2 i !! seat_of_agent1 i = Some agent1 /\
  alternating_seats agent1 agent2 i !! seat_of_agent2 i = Some agent2.
Proof.
  unfold alternating_seats, seat_of_agent2, seat_of_agent1.
  rewrite (Zmod_even i). destruct (Z.even i); split; reflexivity.
Qed.

Lemma tournament_loop_hands (agent1 agent2 : BaseAgent G M) (n : nat) :
  forall (hand_num : Z) profits ct hands (w : G * M) profits' ct' hands' w',
    tournament_loop agent1 agent2 n hand_num (profits, ct, hands) w
    = Ok (profits', ct', hands', w') ->
    exists played,
      hands' = (hands ++ played)%list /\
      hands_with_alternating_seats agent1 agent2 n hand_num w = Ok (played, w').
Proof.
  induction n as [|n IH];
    intros hand_num profits ct hands w profits' ct' hands' w' Hl.
  - injection Hl as <- <- <- <-. exists []. rewrite app_nil_r.
    split; reflexivity.
  - cbn [tournament_loop] in Hl. inv_bind Hl.
    destruct x as [[[profits1 ct1] hands1] w1].
    apply tournament_hand_inv in Hx as (hand & Hh & _ & _ & ->).
    destruct (IH _ _ _ _ _ _ _ _ _ Hl) as (played & -> & Hplayed).
    exists (hand :: played). rewrite <- app_assoc. split; [reflexivity|].
    cbn [hands_with_alternating_seats].
    rewrite <- seating_alternating, Hh. cbn [mbind result_bind].
    rewrite Hplayed. reflexivity.
Qed.

End LoggedHands.

(** C7: two agents with different names sit at seats 0 and 1 in the hands
    with an even number and at seats 1 and 0 in the hands with an odd number:
    the seats [run_tournament] builds for hand [i] are those the specification
    gives, and in them the first agent has the seat [seat_of_agent1 i] and the
    second the other one.  After [n] hands the loop of [run_tournament] has
    logged, after the hands the logger held, exactly the hands 0, ..., n-1
    played one after the other with these seats; the total under an agent's
    name is the sum, over these hands, of the payoff of the seat the agent had
    in the hand; and the two totals add up to zero.  The loop over [k + m]
    hands is the loop over [k] hands followed by the loop over the next [m],
    so this holds after every hand of a tournament; and it holds of the log
    and the profits [run_tournament] returns. *)
Theorem run_tournament_zero_sum {G : Type} `{PyRandom G} {M : Type}
    (agent1 agent2 : BaseAgent G M) :
  name agent1 <> name agent2 ->
  (forall hand_num : Z,
     (hand_num mod 2 = 0 ->
      seating agent1 agent2 hand_num !! 0 = Some agent1 /\
      seating agent1 agent2 hand_num !! 1 = Some agent2) /\
     (hand_num mod 2 <> 0 ->
      seating agent1 agent2 hand_num !! 0 = Some agent2 /\
      seating agent1 agent2 hand_num !! 1 = Some agent1) /\
     seating agent1 agent2 hand_num = alternating_seats agent1 agent2 hand_num /\
     alternating_seats agent1 agent2 hand_num !! seat_of_agent1 hand_num
     = Some agent1 /\
     alternating_seats agent1 agent2 hand_num !! seat_of_agent2 hand_num
     = Some agent2) /\
  (forall (n : nat) (hands : list HandResult) (w w' : G * M)
          (profits : gmap string Z) (counts : gmap string (gmap string Z))
          (logged : list HandResult),
     tournament_loop agent1 agent2 n 0 (tournament_init agent1 agent2 hands) w
     = Ok ((profits, counts, logged), w') ->
     exists played,
       logged = (hands ++ played)%list /\
       hands_with_alternating_seats agent1 agent2 n 0 w = Ok (played, w') /\
       map hand_id played = map Z.of_nat (seq 0 n) /\
       profits !! name agent1 = Some (profit_over seat_of_agent1 played) /\
       profits !! name agent2 = Some (profit_over seat_of_agent2 played) /\
       profit_over seat_of_agent1 played + profit_over seat_of_agent2 played = 0) /\
  (forall (k m : nat) (hand_num : Z)
          (st : gmap string Z * gmap string (gmap string Z) * list HandResult)
          (w : G * M),
     tournament_loop agent1 agent2 (k + m) hand_num st w
     = ('(st', w') ← tournament_loop agent1 agent2 k hand_num st w;
        tournament_loop agent1 agent2 m (hand_num + Z.of_nat k) st' w')) /\
  (forall (n : nat) (hands : list HandResult) (w w' : G * M)
          (results : TournamentResults),
     run_tournament agent1 agent2 n hands w = Ok (results, w') ->
     exists played p1 p2,
       logger results = (hands ++ played)%list /\
       hands_with_alternating_seats agent1 agent2 n 0
         (KuhnPokerGame.__init__ None w.1, w.2) = Ok (played, w') /\
       map hand_id played = map Z.of_nat (seq 0 n) /\
       profits results !! name agent1 = Some p1 /\
       profits results !! name agent2 = Some p2 /\
       p1 = profit_over seat_of_agent1 played /\
       p2 = profit_over seat_of_agent2 played /\
       p1 + p2 = 0).
Proof.
  intros Hne.
  assert (Hloop :
    forall (n : nat) (hands : list HandResult) (w w' : G * M)
           (profits : gmap string Z) (counts : gmap string (gmap string Z))
           (logged : list HandResult),
      tournament_loop agent1 agent2 n 0 (tournament_init agent1 agent2 hands) w
      = Ok ((profits, counts, logged), w') ->
      exists played,
        logged = (hands ++ played)%list /\
        hands_with_alternating_seats agent1 agent2 n 0 w = Ok (played, w') /\
        map hand_id played = map Z.of_nat (seq 0 n) /\
        profits !! name agent1 = Some (profit_over seat_of_agent1 played) /\
        profits !! name agent2 = Some (profit_over seat_of_agent2 played) /\
        profit_over seat_of_agent1 played + profit_over seat_of_agent2 played = 0).
  { intros n hands w w' profits counts logged Hl. unfold tournament_init in Hl.
    destruct (tournament_loop_profits agent1 agent2 n Hne _ _ _ _ _ 0 0 _ _ _ _
                ltac:(rewrite lookup_insert_ne by (intros E; apply Hne; symmetry; exact E);
                      apply lookup_insert_eq)
                ltac:(apply lookup_insert_eq) Hl)
      as (played & Hlog & Hids & P1 & P2 & Hz).
    destruct (tournament_loop_hands _ _ _ _ _ _ _ _ _ _ _ _ Hl)
      as (played' & Hlog' & Hplayed).
    assert (played' = played) as ->
      by (apply (app_inv_head hands); congruence).
    exists played. rewrite Z.add_0_l in P1, P2. repeat split; assumption. }
  split.
  { intros hand_num. pose proof (seating_seats agent1 agent2 hand_num) as [He Ho].
    split; [exact He|]. split; [exact Ho|].
    split; [apply seating_alternating | apply alternating_seats_of_agents]. }
  split; [exact Hloop|].
  split; [apply tournament_loop_split|].
  intros n hands w w' results Hrun. unfold run_tournament in Hrun.
  inv_bind Hrun. destruct x as [[[totals counts] logged] w1].
  destruct (n =? 0)%nat; [discriminate|]. injection Hrun as <- <-.
  destruct (Hloop _ _ _ _ _ _ _ Hx) as (played & Hlog & Hplayed & Hids & P1 & P2 & Hz).
  cbn [profits logger]. exists played. do 2 eexists.
  repeat (split; [eassumption || reflexivity|]). exact Hz.
Qed.

Lemma run_tournament_zero_sum_witness :
  exists results w',
    run_tournament gto1 gto2 4 [] (3, tt) = Ok (results, w') /\
    exists played p1 p2,
      logger results = ([] ++ played)%list /\
      hands_with_alternating_seats gto1 gto2 4 0
        (KuhnPokerGame.__init__ None (3, tt).1, (3, tt).2) = Ok (played, w') /\
      map hand_id played = map Z.of_nat (seq 0 4) /\
      profits results !! "GTO1" = Some p1 /\
      profits results !! "GTO2" = Some p2 /\
      p1 = profit_over seat_of_agent1 played /\
      p2 = profit_over seat_of_agent2 played /\
      p1 + p2 = 0.
Proof.
  destruct (run_tournament gto1 gto2 4 [] (3, tt)) as [[results w']|e] eqn:Hrun.
  - exists results, w'. split; [reflexivity|].
    refine (proj2 (proj2 (proj2 (run_tournament_zero_sum gto1 gto2 _)))
                  4%nat [] (3, tt) w' results Hrun).
    discriminate.
  - vm_compute in Hrun. discriminate Hrun.
Defined.

(** ** The exploitative strategy below the sample threshold *)

Lemma observe_all_min_samples (observations : list (string * string))
    (model : OpponentModel.t) :
  OpponentModel.min_samples (observe_all observations model)
  = OpponentModel.min_samples model.
Proof.
  revert model; induction observations as [|obs rest IH]; intros model;
    [reflexivity|].
  cbn [observe_all fold_left]. fold (observe_all rest).
  rewrite IH. reflexivity.
Qed.

Lemma observe_all_opportunities (observations : list (string * string))
    (model : OpponentModel.t) (situation : string) :
  OpponentModel.opportunities_of (observe_all observations model) situation
  = OpponentModel.opportunities_of model situation
    + observed_in situation observations.
Proof.
  revert model; induction observations as [|[action s] rest IH]; intros model.
  - unfold observed_in. cbn. lia.
  - cbn [observe_all fold_left]. fold (observe_all rest). rewrite IH.
    unfold observed_in. cbn [List.filter snd fst].
    unfold OpponentModel.opportunities_of at 1, OpponentModel.observe.
    cbn [OpponentModel.opportunities].
    destruct (String.eqb_spec s situation) as [->|Hne].
    + rewrite lookup_insert_eq. cbn [default length id]. lia.
    + rewrite lookup_insert_ne by exact Hne.
      fold (OpponentModel.opportunities_of model situation). lia.
Qed.

(** C5: a model whose count of opportunities when facing a bet is below
    its minimum-sample threshold makes the exploitative strategy return, for
    every information set, what the equilibrium oracle returns (the same
    distribution, or the same error); so does a model that has seen fewer
    observations of that situation than the threshold, a new model among
    them. *)
Theorem exploitative_insufficient_data (bluff_probability : float -> float)
    (info_set : string) :
  (forall model : OpponentModel.t,
     OpponentModel.opportunities_of model "facing a bet"
     < OpponentModel.min_samples model ->
     ExploitativeStrategy.get_strategy bluff_probability model info_set
     = GTOStrategy.get_strategy info_set) /\
  (forall (min_samples : Z) (observations : list (string * string)),
     observed_in "facing a bet" observations < min_samples ->
     ExploitativeStrategy.get_strategy bluff_probability
       (observe_all observations (OpponentModel.fresh min_samples)) info_set
     = GTOStrategy.get_strategy info_set).
Proof.
  assert (Hmodel : forall model : OpponentModel.t,
     OpponentModel.opportunities_of model "facing a bet"
     < OpponentModel.min_samples model ->
     ExploitativeStrategy.get_strategy bluff_probability model info_set
     = GTOStrategy.get_strategy info_set).
  { intros model Hlt. unfold ExploitativeStrategy.get_strategy.
    destruct (GTOStrategy.get_strategy info_set) as [strategy|e]; [|reflexivity].
    cbn [mbind result_bind]. unfold OpponentModel.insufficient.
    apply Z.ltb_lt in Hlt. rewrite Hlt, andb_false_r. reflexivity. }
  split; [exact Hmodel|].
  intros min_samples observations Hlt. apply Hmodel.
  rewrite observe_all_opportunities, observe_all_min_samples.
  unfold OpponentModel.opportunities_of, OpponentModel.fresh.
  cbn [OpponentModel.opportunities OpponentModel.min_samples].
  rewrite lookup_empty. cbn [default]. lia.
Qed.

Lemma exploitative_insufficient_data_witness :
  ExploitativeStrategy.get_strategy (fun fold_rate => fold_rate)
    (OpponentModel.fresh 5) "J.CHECK"
  = GTOStrategy.get_strategy "J.CHECK" /\
  ExploitativeStrategy.get_strategy (fun fold_rate => fold_rate)
    (observe_all [("FOLD", "facing a bet"); ("CALL", "facing a bet")]
                 (OpponentModel.fresh 5)) "J.CHECK"
  = GTOStrategy.get_strategy "J.CHECK".
Proof.
  split.
  - apply (proj1 (exploitative_insufficient_data (fun r => r) "J.CHECK")).
    reflexivity.
  - apply (proj2 (exploitative_insufficient_data (fun r => r) "J.CHECK")).
    reflexivity.
Defined.

(** ** Seeds and the shared generator *)

(** A run that builds one engine with a seed and then only deals depends on
    nothing but the seed. *)
Lemma seeded_run_deterministic {G : Type} `{PyRandom G} (seed : Z) (n : nat)
    (g g' : G) :
  seeded_run seed n g = seeded_run seed n g'.
Proof. reflexivity. Qed.

(** Two engines built with one seed share the generator: the hand of the
    second engine is the second deal after the seed, not the first. *)
Lemma two_engines_share {G : Type} `{PyRandom G} (seed : Z) (g : G) :
  two_engines seed g
  = ('(state1, g1) ← KuhnPokerGame.start_new_hand (random_seed seed);
     '(state2, g2) ← KuhnPokerGame.start_new_hand g1;
     Ok (state1, state2)).
Proof. reflexivity. Qed.

(** C9 at the seed 42, on the generator of CPython: the two engines of
    [test_reproducibility_with_seed], both built with 42, deal queen and jack
    to the first and king and queen to the second. *)
Theorem two_engines_seed_42 (g : MT19937.state) :
  exists state1 state2,
    two_engines 42 g = Ok (state1, state2) /\
    cards state1 = <[1 := "J"]> (<[0 := "Q"]> ∅) /\
    cards state2 = <[1 := "Q"]> (<[0 := "K"]> ∅) /\
    cards state1 <> cards state2.
Proof.
  do 2 eexists. split; [vm_compute; reflexivity|].
  split; [reflexivity|]. split; [reflexivity|].
  intros E. apply (f_equal (fun c : gmap Z string => c !! 0)) in E.
  vm_compute in E. discriminate E.
Qed.

(** * Further properties of the code *)

(** ** Dealing *)

Lemma list_getitem_in_range {A} (l : list A) (i : Z) :
  0 <= i < Z.of_nat (length l) ->
  exists x, list_getitem l i = Ok x /\ l !! Z.to_nat i = Some x.
Proof.
  intros Hi. destruct (list_getitem_nat l (Z.to_nat i)) as (x & Hx & Hl); [lia|].
  rewrite Z2Nat.id in Hx by lia. eauto.
Qed.

Lemma list_setitem_in_range {A} (l : list A) (i : Z) (x : A) :
  0 <= i < Z.of_nat (length l) ->
  list_setitem l i x = Ok (<[Z.to_nat i := x]> l).
Proof.
  intros Hi. unfold list_setitem, list_index.
  assert (E1 : (i <? 0) = false) by (apply Z.ltb_ge; lia).
  assert (E2 : (Z.of_nat (length l) <=? i) = false) by (apply Z.leb_gt; lia).
  cbv zeta. rewrite E1, E1, E2. reflexivity.
Qed.

Section DealingProofs.
Context {G : Type} `{PyRandom G}.

Lemma shuffle_from_returns {A} (i : nat) (x : list A) (g : G) :
  randbelow_in_range -> (i < length x)%nat ->
  exists x' g', shuffle_from i x g = Ok (x', g').
Proof.
  intros Hrange. revert x g; induction i as [|i IH]; intros x g Hi.
  - simpl. eauto.
  - cbn [shuffle_from].
    pose proof (Hrange (Z.of_nat (S i) + 1) g ltac:(lia)) as Hj.
    destruct (random_randbelow (Z.of_nat (S i) + 1) g) as [j g1].
    cbn [fst] in Hj.
    destruct (list_getitem_in_range x j) as (xj & -> & _); [lia|].
    destruct (list_getitem_in_range x (Z.of_nat (S i))) as (xi & -> & _); [lia|].
    cbn [mbind result_bind].
    rewrite list_setitem_in_range by lia. cbn [mbind result_bind].
    rewrite list_setitem_in_range by (rewrite length_insert; lia).
    cbn [mbind result_bind].
    apply IH. rewrite !length_insert. lia.
Qed.

Lemma shuffle_returns_hand (g : G) :
  randbelow_in_range ->
  exists (s : GameState) (g' : G), KuhnPokerGame.start_new_hand g = Ok (s, g').
Proof.
  intros Hrange.
  unfold KuhnPokerGame.start_new_hand, KuhnPokerGame.deal_cards, random_shuffle.
  destruct (shuffle_from_returns (length KuhnPokerGame.CARDS - 1)
              KuhnPokerGame.CARDS g Hrange) as (deck & g1 & Hsh);
    [simpl; lia|].
  rewrite Hsh. cbn [mbind result_bind].
  pose proof (Permutation_length (shuffle_from_perm _ _ _ _ _ Hsh)) as Hlen.
  destruct deck as [|a [|b [|c [|]]]]; try discriminate Hlen.
  cbn. eauto.
Qed.

(** X1: whenever [start_new_hand] returns, the state holds two different
    cards of the deck at the seats 0 and 1, an empty history, the pot of two
    antes, seat 0 to act, and is neither terminal nor paid; and it returns
    under every generator whose draws below [n] lie in [0, n). *)
Theorem start_new_hand_spec (g : G) :
  (forall (s : GameState) (g' : G),
     KuhnPokerGame.start_new_hand g = Ok (s, g') ->
     (exists c0 c1,
        cards s = <[1 := c1]> (<[0 := c0]> ∅) /\
        c0 ∈ KuhnPokerGame.CARDS /\ c1 ∈ KuhnPokerGame.CARDS /\ c0 <> c1) /\
     betting_history s = [] /\ pot s = 2 /\ current_player s = 0 /\
     is_terminal s = false /\ payoffs s = None) /\
  (randbelow_in_range ->
   exists (s : GameState) (g' : G), KuhnPokerGame.start_new_hand g = Ok (s, g')).
Proof.
  split.
  - intros s g' Hs. unfold KuhnPokerGame.start_new_hand in Hs.
    inv_bind Hs. destruct x as [c g1]. injection Hs as <- <-.
    apply deal_cards_seated in Hx. cbn. repeat split. exact Hx.
  - exact (shuffle_returns_hand g).
Qed.

End DealingProofs.

Lemma start_new_hand_spec_witness :
  exists (s : GameState) (g' : Z), KuhnPokerGame.start_new_hand (G := Z) 4 = Ok (s, g').
Proof.
  apply (proj2 (start_new_hand_spec (G := Z) 4)).
  exact counter_randbelow_in_range.
Defined.

Section DealOfDraws.
Context {G : Type} `{PyRandom G}.

(** X2: the deal is a function of the two draws of the shuffle, the first
    below 3 and the second below 2, and this function is one-to-one from the
    six pairs of draws onto the six ordered pairs of different cards: draws
    that are uniform give deals that are uniform. *)
Theorem deal_cards_of_draws (g : G) (j2 j1 : Z) (g1 g2 : G) :
  random_randbelow 3 g = (j2, g1) ->
  random_randbelow 2 g1 = (j1, g2) ->
  0 <= j2 < 3 -> 0 <= j1 < 2 ->
  KuhnPokerGame.deal_cards g =
    Ok (<[1 := (deal_of_draws j2 j1).2]> (<[0 := (deal_of_draws j2 j1).1]> ∅), g2) /\
  (forall c0 c1 : string,
     c0 ∈ KuhnPokerGame.CARDS -> c1 ∈ KuhnPokerGame.CARDS -> c0 <> c1 ->
     exists i2 i1 : Z,
       (0 <= i2 < 3 /\ 0 <= i1 < 2 /\ deal_of_draws i2 i1 = (c0, c1)) /\
       forall k2 k1 : Z,
         0 <= k2 < 3 -> 0 <= k1 < 2 -> deal_of_draws k2 k1 = (c0, c1) ->
         k2 = i2 /\ k1 = i1).
Proof.
  intros E2 E1 H2 H1. split.
  - unfold KuhnPokerGame.deal_cards, random_shuffle.
    change (length KuhnPokerGame.CARDS - 1)%nat with 2%nat.
    cbn [shuffle_from].
    change (Z.of_nat 2 + 1) with 3. change (Z.of_nat 1 + 1) with 2.
    rewrite E2.
    assert (C2 : j2 = 0 \/ j2 = 1 \/ j2 = 2) by lia.
    assert (C1 : j1 = 0 \/ j1 = 1) by lia.
    destruct C2 as [-> | [-> | ->]]; cbn; rewrite E1;
      destruct C1 as [-> | ->]; reflexivity.
  - intros c0 c1 H0 H1' Hne.
    unfold KuhnPokerGame.CARDS in H0, H1'.
    assert (forall k2 k1, 0 <= k2 < 3 -> 0 <= k1 < 2 ->
              (k2 = 0 \/ k2 = 1 \/ k2 = 2) /\ (k1 = 0 \/ k1 = 1)) as Hk by lia.
    rewrite !elem_of_cons, elem_of_nil in H0, H1'.
    destruct H0 as [-> | [-> | [-> | []]]];
      destruct H1' as [-> | [-> | [-> | []]]]; try congruence.
    + exists 2, 1. split; [repeat split; lia|].
      intros k2 k1 Hk2 Hk1.
      destruct (Hk k2 k1 Hk2 Hk1) as [[-> | [-> | ->]] [-> | ->]];
        cbn; intros E; (discriminate E || (split; reflexivity)).
    + exists 1, 1. split; [repeat split; lia|].
      intros k2 k1 Hk2 Hk1.
      destruct (Hk k2 k1 Hk2 Hk1) as [[-> | [-> | ->]] [-> | ->]];
        cbn; intros E; (discriminate E || (split; reflexivity)).
    + exists 2, 0. split; [repeat split; lia|].
      intros k2 k1 Hk2 Hk1.
      destruct (Hk k2 k1 Hk2 Hk1) as [[-> | [-> | ->]] [-> | ->]];
        cbn; intros E; (discriminate E || (split; reflexivity)).
    + exists 0, 0. split; [repeat split; lia|].
      intros k2 k1 Hk2 Hk1.
      destruct (Hk k2 k1 Hk2 Hk1) as [[-> | [-> | ->]] [-> | ->]];
        cbn; intros E; (discriminate E || (split; reflexivity)).
    + exists 1, 0. split; [repeat split; lia|].
      intros k2 k1 Hk2 Hk1.
      destruct (Hk k2 k1 Hk2 Hk1) as [[-> | [-> | ->]] [-> | ->]];
        cbn; intros E; (discriminate E || (split; reflexivity)).
    + exists 0, 1. split; [repeat split; lia|].
      intros k2 k1 Hk2 Hk1.
      destruct (Hk k2 k1 Hk2 Hk1) as [[-> | [-> | ->]] [-> | ->]];
        cbn; intros E; (discriminate E || (split; reflexivity)).
Qed.

End DealOfDraws.

Lemma deal_cards_of_draws_witness :
  KuhnPokerGame.deal_cards (G := Z) 4 = Ok (<[1 := "K"]> (<[0 := "J"]> ∅), 6).
Proof.
  apply (deal_cards_of_draws (G := Z) 4 1 1 5 6);
    [reflexivity | reflexivity | lia | lia].
Defined.

(** ** Showdown, payoffs and the end of a hand *)

Lemma CARDS_values_none c :
  str_in c KuhnPokerGame.CARDS = false -> KuhnPokerGame.CARD_VALUES !! c = None.
Proof.
  unfold str_in, KuhnPokerGame.CARDS, KuhnPokerGame.CARD_VALUES. cbn [existsb].
  rewrite !orb_false_iff, !String.eqb_neq. intros (HJ & HQ & HK & _).
  rewrite !lookup_insert_ne by congruence. apply lookup_empty.
Qed.

Lemma showdown_winner_outranks (c : gmap Z string) (c0 c1 : string) :
  c !! 0 = Some c0 -> c !! 1 = Some c1 -> seated c = true ->
  KuhnPokerGame._get_showdown_winner c = Ok (if outranks c0 c1 then 0 else 1).
Proof.
  intros E0 E1 Hs. unfold seated in Hs. rewrite E0, E1 in Hs.
  apply andb_true_iff in Hs as [H0 H1].
  apply str_in_elem_of in H0, H1. unfold KuhnPokerGame.CARDS in H0, H1.
  rewrite !elem_of_cons, elem_of_nil in H0, H1.
  unfold KuhnPokerGame._get_showdown_winner, getitem. rewrite E0, E1.
  destruct H0 as [-> | [-> | [-> | []]]];
    destruct H1 as [-> | [-> | [-> | []]]]; reflexivity.
Qed.

(** X3: [_get_showdown_winner] raises the key error exactly when a seat has
    no card or a card that is not of the deck; otherwise it returns seat 0
    when the card of seat 0 is the higher one and seat 1 in every other case,
    also when both seats hold the same card. *)
Theorem showdown_winner_spec (c : gmap Z string) :
  (seated c = false -> KuhnPokerGame._get_showdown_winner c = Raise KeyError) /\
  (forall c0 c1 : string,
     c !! 0 = Some c0 -> c !! 1 = Some c1 -> seated c = true ->
     KuhnPokerGame._get_showdown_winner c = Ok (if outranks c0 c1 then 0 else 1)) /\
  (forall c0 : string,
     c !! 0 = Some c0 -> c !! 1 = Some c0 -> seated c = true ->
     KuhnPokerGame._get_showdown_winner c = Ok 1).
Proof.
  split; [|split].
  - unfold seated, KuhnPokerGame._get_showdown_winner, getitem.
    destruct (c !! 0) as [c0|]; [|reflexivity].
    cbn [mbind result_bind].
    destruct (str_in c0 KuhnPokerGame.CARDS) eqn:H0.
    + destruct (CARDS_values c0 H0) as [v0 ->]. cbn [mbind result_bind].
      destruct (c !! 1) as [c1|]; [|reflexivity].
      cbn [mbind result_bind andb]. intros H1.
      rewrite (CARDS_values_none c1 H1). reflexivity.
    + rewrite (CARDS_values_none c0 H0). reflexivity.
  - exact (showdown_winner_outranks c).
  - intros c0 E0 E1 Hs. rewrite (showdown_winner_outranks c c0 c0 E0 E1 Hs).
    unfold outranks. destruct (String.eqb c0 "K") eqn:EK; simpl.
    + apply String.eqb_eq in EK as ->. reflexivity.
    + destruct (String.eqb c0 "Q") eqn:EQ; [|reflexivity].
      apply String.eqb_eq in EQ as ->. reflexivity.
Qed.

Lemma showdown_winner_spec_witness :
  KuhnPokerGame._get_showdown_winner (<[1 := "K"]> (<[0 := "K"]> ∅)) = Ok 1.
Proof.
  apply (proj2 (proj2 (showdown_winner_spec (<[1 := "K"]> (<[0 := "K"]> ∅)))) "K");
    reflexivity.
Defined.

Lemma start_new_hand_fields {G} `{PyRandom G} (g g' : G) (s : GameState) :
  KuhnPokerGame.start_new_hand g = Ok (s, g') ->
  betting_history s = [] /\ pot s = 2 /\ current_player s = 0 /\
  is_terminal s = false /\ payoffs s = None.
Proof.
  unfold KuhnPokerGame.start_new_hand. intros Hs. inv_bind Hs.
  destruct x as [c g1]. injection Hs as <- <-. repeat split.
Qed.

Lemma reachable_terminal_step (s' : GameState) :
  reachable s' -> is_terminal s' = true ->
  exists s a, conforming s /\ KuhnPokerGame.apply_action s a = Ok s'.
Proof.
  intros Hr Ht. destruct Hr as [G R g g' s Hs | s s' a Hr Ha].
  - apply start_new_hand_fields in Hs as (_ & _ & _ & Hf & _). congruence.
  - exists s, a. split; [apply reachable_conforming; exact Hr | exact Ha].
Qed.

Lemma seated_cards (c : gmap Z string) :
  seated c = true -> exists c0 c1, c !! 0 = Some c0 /\ c !! 1 = Some c1.
Proof.
  unfold seated. destruct (c !! 0); [|discriminate].
  destruct (c !! 1); [|discriminate]. eauto.
Qed.

Lemma terminal_payoffs_outcome (s : GameState) :
  reachable s -> is_terminal s = true ->
  exists c0 c1 : string,
    cards s !! 0 = Some c0 /\ cards s !! 1 = Some c1 /\
    (last (betting_history s) = Some "FOLD" ->
     KuhnPokerGame.get_payoff s (current_player s) = Ok (-1) /\
     KuhnPokerGame.get_payoff s (1 - current_player s) = Ok 1) /\
    (last (betting_history s) <> Some "FOLD" ->
     let winner := if outranks c0 c1 then 0 else 1 in
     let stake := if str_in "CALL" (betting_history s) then 2 else 1 in
     KuhnPokerGame.get_payoff s winner = Ok stake /\
     KuhnPokerGame.get_payoff s (1 - winner) = Ok (- stake)).
Proof.
  intros Hr Ht.
  destruct (reachable_terminal_step s Hr Ht) as (s0 & a & [Hc Hsh _ _] & Ha).
  destruct s0 as [c h p cp t pay]; simpl in *.
  destruct (seated_cards c Hc) as (c0 & c1 & E0 & E1).
  pose proof (showdown_winner_outranks c c0 c1 E0 E1 Hc) as Hw.
  exists c0, c1.
  unfold KuhnPokerGame.apply_action in Ha.
  inversion Hsh; subst; simpl in Ha; try discriminate;
    (destruct (str_in a _) eqn:Hin; [|discriminate]);
    apply str_in_two in Hin as [-> | ->]; simpl in Ha;
    unfold KuhnPokerGame._calculate_showdown_payoffs in Ha;
    rewrite ?Hw in Ha; simpl in Ha; injection Ha as <-;
    try discriminate Ht; simpl;
    (split; [exact E0|]); (split; [exact E1|]);
    (split; [intros Hl | intros Hl]);
    try discriminate Hl; try (exfalso; apply Hl; reflexivity);
    try (destruct (outranks c0 c1)); split; reflexivity.
Qed.

(** X4: what a finished hand pays.  On every terminal state reached by
    play, after a fold the folder (the seat the state still names as the one
    to act) gets -1 and the other seat +1; at a showdown the seat with the
    higher card gets the stake and the other seat loses it, the stake being 2
    when the bet was called and 1 after two checks. *)
Theorem terminal_payoffs_by_outcome (s : GameState) :
  reachable s -> is_terminal s = true ->
  exists c0 c1 : string,
    cards s !! 0 = Some c0 /\ cards s !! 1 = Some c1 /\
    (last (betting_history s) = Some "FOLD" ->
     KuhnPokerGame.get_payoff s (current_player s) = Ok (-1) /\
     KuhnPokerGame.get_payoff s (1 - current_player s) = Ok 1) /\
    (last (betting_history s) <> Some "FOLD" ->
     let winner := if outranks c0 c1 then 0 else 1 in
     let stake := if str_in "CALL" (betting_history s) then 2 else 1 in
     KuhnPokerGame.get_payoff s winner = Ok stake /\
     KuhnPokerGame.get_payoff s (1 - winner) = Ok (- stake)).
Proof. exact (terminal_payoffs_outcome s). Qed.

Lemma terminal_payoffs_by_outcome_witness :
  exists c0 c1 : string,
    cards bet_call !! 0 = Some c0 /\ cards bet_call !! 1 = Some c1 /\
    (last (betting_history bet_call) = Some "FOLD" ->
     KuhnPokerGame.get_payoff bet_call (current_player bet_call) = Ok (-1) /\
     KuhnPokerGame.get_payoff bet_call (1 - current_player bet_call) = Ok 1) /\
    (last (betting_history bet_call) <> Some "FOLD" ->
     let winner := if outranks c0 c1 then 0 else 1 in
     let stake := if str_in "CALL" (betting_history bet_call) then 2 else 1 in
     KuhnPokerGame.get_payoff bet_call winner = Ok stake /\
     KuhnPokerGame.get_payoff bet_call (1 - winner) = Ok (- stake)).
Proof.
  exact (terminal_payoffs_by_outcome bet_call bet_call_reachable eq_refl).
Defined.

Lemma play_actions_app (s : GameState) (l1 l2 : list string) :
  play_actions s (l1 ++ l2)%list
  = play_actions s l1 ≫= fun s1 => play_actions s1 l2.
Proof.
  revert s; induction l1 as [|a l1 IH]; intros s; [reflexivity|].
  cbn [app play_actions].
  destruct (KuhnPokerGame.apply_action s a) as [s1|e]; [|reflexivity].
  cbn [mbind result_bind]. apply IH.
Qed.

Lemma play_actions_reachable (s s' : GameState) (acts : list string) :
  reachable s -> play_actions s acts = Ok s' ->
  reachable s' /\ betting_history s' = (betting_history s ++ acts)%list.
Proof.
  revert s; induction acts as [|a acts IH]; intros s Hr Hp.
  - injection Hp as <-. rewrite app_nil_r. auto.
  - cbn [play_actions] in Hp. inv_bind Hp.
    destruct (IH x (reachable_step _ _ _ Hr Hx) Hp) as [Hr' Hh].
    split; [exact Hr'|]. rewrite Hh, (apply_action_history _ _ _ Hx), <- app_assoc.
    reflexivity.
Qed.

Lemma apply_action_terminal (s : GameState) (a : string) :
  is_terminal s = true ->
  KuhnPokerGame.apply_action s a = Raise IllegalAction.
Proof.
  intros Ht. unfold KuhnPokerGame.apply_action, KuhnPokerGame.get_legal_actions.
  rewrite Ht. reflexivity.
Qed.

Section CompletePlays.
Context {G : Type} `{PyRandom G}.

Lemma complete_play_finishes (g g' : G) (s0 : GameState) (acts : list string) :
  KuhnPokerGame.start_new_hand g = Ok (s0, g') ->
  acts ∈ complete_plays ->
  exists s, play_actions s0 acts = Ok s /\ is_terminal s = true.
Proof.
  intros Hs Hin. unfold KuhnPokerGame.start_new_hand in Hs. inv_bind Hs.
  destruct x as [c g1]. injection Hs as <- <-.
  apply deal_cards_seated in Hx as (c0 & c1 & -> & H0 & H1 & _).
  unfold KuhnPokerGame.CARDS in H0, H1. unfold complete_plays in Hin.
  rewrite !elem_of_cons, elem_of_nil in H0, H1.
  rewrite !elem_of_cons, elem_of_nil in Hin.
  destruct H0 as [-> | [-> | [-> | []]]];
    destruct H1 as [-> | [-> | [-> | []]]];
    destruct Hin as [-> | [-> | [-> | [-> | [-> | []]]]]];
    vm_compute; eexists; split; reflexivity.
Qed.

(** X5: the complete plays of a hand.  From a state [start_new_hand]
    returned, a list of actions is played without an error up to a terminal
    state exactly when it is one of CHECK CHECK, BET CALL, BET FOLD,
    CHECK BET CALL and CHECK BET FOLD; any action after one of these raises
    the illegal-action error; and whatever is played, no state has more than
    three actions in its history. *)
Theorem complete_plays_spec (g g' : G) (s0 : GameState) (acts : list string) :
  KuhnPokerGame.start_new_hand g = Ok (s0, g') ->
  ((exists s, play_actions s0 acts = Ok s /\ is_terminal s = true)
   <-> acts ∈ complete_plays) /\
  (acts ∈ complete_plays ->
   forall (a : string) (more : list string),
     play_actions s0 (acts ++ a :: more)%list = Raise IllegalAction) /\
  (forall s, play_actions s0 acts = Ok s -> (length acts <= 3)%nat).
Proof.
  intros Hs.
  pose proof (reachable_start _ _ _ Hs) as Hr0.
  pose proof (start_new_hand_fields _ _ _ Hs) as (Hh0 & _).
  split; [split|split].
  - intros (s & Hp & Ht).
    destruct (play_actions_reachable _ _ _ Hr0 Hp) as [Hr Hh].
    rewrite Hh0 in Hh. cbn [app] in Hh. rewrite <- Hh.
    destruct (reachable_conforming s Hr) as [_ Hsh _ _]. rewrite Ht in Hsh.
    unfold complete_plays. inversion Hsh; set_solver.
  - apply (complete_play_finishes g g'). exact Hs.
  - intros Hin a more. rewrite play_actions_app.
    destruct (complete_play_finishes g g' s0 acts Hs Hin) as (s & -> & Ht).
    cbn [mbind result_bind play_actions].
    rewrite (apply_action_terminal s a Ht). reflexivity.
  - intros s Hp.
    destruct (play_actions_reachable _ _ _ Hr0 Hp) as [Hr Hh].
    rewrite Hh0 in Hh. cbn [app] in Hh. rewrite <- Hh.
    apply conforming_history_length, reachable_conforming. exact Hr.
Qed.

End CompletePlays.

Lemma complete_plays_spec_witness :
  ((exists s, play_actions hand_start ["BET"; "FOLD"] = Ok s /\ is_terminal s = true)
   <-> ["BET"; "FOLD"] ∈ complete_plays) /\
  (["BET"; "FOLD"] ∈ complete_plays ->
   forall (a : string) (more : list string),
     play_actions hand_start (["BET"; "FOLD"] ++ a :: more)%list
     = Raise IllegalAction) /\
  (forall s, play_actions hand_start ["BET"; "FOLD"] = Ok s ->
             (length ["BET"; "FOLD"] <= 3)%nat).
Proof.
  apply (complete_plays_spec (G := Z) 0 2 hand_start ["BET"; "FOLD"]).
  reflexivity.
Defined.

(** ** Information sets and the oracle *)

Lemma str_split_nonempty (sep : ascii) (s : string) : str_split sep s <> [].
Proof.
  destruct s as [|c s]; simpl; [discriminate|].
  destruct (Ascii.eqb c sep); [discriminate|].
  destruct (str_split sep s); discriminate.
Qed.

Lemma str_split_length (sep : ascii) (s : string) :
  length (str_split sep s) = S (str_count sep s).
Proof.
  induction s as [|c s IH]; simpl; [reflexivity|].
  destruct (Ascii.eqb c sep); simpl; [rewrite IH; reflexivity|].
  destruct (str_split sep s); simpl in *; [discriminate IH | exact IH].
Qed.

Lemma str_split_join (sep : ascii) (s : string) :
  String.concat (String sep "") (str_split sep s) = s.
Proof.
  induction s as [|c s IH]; [reflexivity|].
  pose proof (str_split_nonempty sep s) as Hne.
  cbn [str_split]. destruct (Ascii.eqb_spec c sep) as [->|Hc].
  - destruct (str_split sep s) as [|w ws]; [congruence|].
    cbn [String.concat] in *. cbn. rewrite IH. reflexivity.
  - destruct (str_split sep s) as [|w ws]; [congruence|].
    cbn [String.concat] in *. destruct ws; cbn; rewrite <- IH; reflexivity.
Qed.

Lemma str_split_none (sep : ascii) (s : string) :
  str_count sep s = 0%nat -> str_split sep s = [s].
Proof.
  induction s as [|c s IH]; simpl; [reflexivity|].
  destruct (Ascii.eqb c sep); [discriminate|].
  intros Hs. rewrite (IH Hs). reflexivity.
Qed.

Lemma str_split_app (sep : ascii) (a b : string) :
  str_count sep a = 0%nat ->
  str_split sep (a ++ String sep b) = a :: str_split sep b.
Proof.
  induction a as [|c a IH]; simpl.
  - rewrite Ascii.eqb_refl. reflexivity.
  - destruct (Ascii.eqb c sep); [discriminate|].
    intros Ha. rewrite (IH Ha). reflexivity.
Qed.

Lemma get_strategy_split (k card h : string) :
  str_split "." k = [card; h] -> k = card ++ "." ++ h.
Proof.
  intros Hk. rewrite <- (str_split_join "." k), Hk. reflexivity.
Qed.

Lemma p1_strategy_Ok card st :
  GTOStrategy._get_p1_strategy card = Ok st -> card ∈ KuhnPokerGame.CARDS.
Proof.
  unfold GTOStrategy._get_p1_strategy, KuhnPokerGame.CARDS.
  destruct (String.eqb_spec card "J") as [->|]; [set_solver|].
  destruct (String.eqb_spec card "Q") as [->|]; [set_solver|].
  destruct (String.eqb_spec card "K") as [->|]; [set_solver|discriminate].
Qed.

Lemma p2_facing_bet_Ok card st :
  GTOStrategy._get_p2_facing_bet card = Ok st -> card ∈ KuhnPokerGame.CARDS.
Proof.
  unfold GTOStrategy._get_p2_facing_bet, KuhnPokerGame.CARDS.
  destruct (String.eqb_spec card "J") as [->|]; [set_solver|].
  destruct (String.eqb_spec card "Q") as [->|]; [set_solver|].
  destruct (String.eqb_spec card "K") as [->|]; [set_solver|discriminate].
Qed.

Lemma p2_after_check_Ok card st :
  GTOStrategy._get_p2_after_check card = Ok st -> card ∈ KuhnPokerGame.CARDS.
Proof.
  unfold GTOStrategy._get_p2_after_check, KuhnPokerGame.CARDS.
  destruct (String.eqb_spec card "J") as [->|]; [set_solver|].
  destruct (String.eqb_spec card "Q") as [->|]; [set_solver|].
  destruct (String.eqb_spec card "K") as [->|]; [set_solver|discriminate].
Qed.

Lemma not_card_eqb card :
  card ∉ KuhnPokerGame.CARDS ->
  String.eqb card "J" = false /\ String.eqb card "Q" = false /\
  String.eqb card "K" = false.
Proof.
  unfold KuhnPokerGame.CARDS. rewrite !String.eqb_neq. set_solver.
Qed.

(** X6: what [get_strategy] does with any string.  It raises the unpacking
    error when the string does not hold exactly one dot.  On [card.history]
    it raises the unknown-information-set error when the history part is not
    the empty string, BET or CHECK, whatever the card part is; the invalid-card
    error when the history part is one of these and the card is not of the
    deck; and returns a row of the table otherwise.  So it returns a strategy
    for the nine keys of the table and for no other string. *)
Theorem get_strategy_spec (info_set : string) :
  (str_count "." info_set <> 1%nat ->
   GTOStrategy.get_strategy info_set = Raise UnpackError) /\
  (forall card history : string,
     info_set = card ++ "." ++ history ->
     str_count "." card = 0%nat -> str_count "." history = 0%nat ->
     (history ∉ [""; "BET"; "CHECK"] ->
      GTOStrategy.get_strategy info_set = Raise UnknownInformationSet) /\
     (history ∈ [""; "BET"; "CHECK"] -> card ∉ KuhnPokerGame.CARDS ->
      GTOStrategy.get_strategy info_set = Raise InvalidCard) /\
     (history ∈ [""; "BET"; "CHECK"] -> card ∈ KuhnPokerGame.CARDS ->
      exists strategy,
        GTOStrategy.get_strategy info_set = Ok strategy /\
        strategy ∈ table_rows)) /\
  (forall strategy,
     GTOStrategy.get_strategy info_set = Ok strategy ->
     info_set ∈ map fst info_sets).
Proof.
  split; [|split].
  - intros Hn. unfold GTOStrategy.get_strategy.
    pose proof (str_split_length "." info_set) as Hlen.
    destruct (str_split "." info_set) as [|a [|b [|c l]]]; try reflexivity.
    simpl in Hlen. congruence.
  - intros card history -> Hc Hh. unfold GTOStrategy.get_strategy.
    change (card ++ "." ++ history) with (card ++ String "." history).
    rewrite (str_split_app "." card history Hc), (str_split_none "." history Hh).
    split; [|split].
    + intros Hnot. rewrite !not_elem_of_cons in Hnot.
      destruct Hnot as (H1 & H2 & H3 & _).
      apply String.eqb_neq in H1, H2, H3. rewrite H1, H2, H3. reflexivity.
    + intros Hin Hcard. apply not_card_eqb in Hcard as (HJ & HQ & HK).
      rewrite !elem_of_cons, elem_of_nil in Hin.
      destruct Hin as [-> | [-> | [-> | []]]]; cbn [String.eqb Ascii.eqb];
        unfold GTOStrategy._get_p1_strategy, GTOStrategy._get_p2_facing_bet,
          GTOStrategy._get_p2_after_check; rewrite HJ, HQ, HK; reflexivity.
    + intros Hin Hcard. unfold KuhnPokerGame.CARDS in Hcard.
      rewrite !elem_of_cons, elem_of_nil in Hin, Hcard.
      destruct Hin as [-> | [-> | [-> | []]]];
        destruct Hcard as [-> | [-> | [-> | []]]];
        eexists; (split; [reflexivity|]); unfold table_rows; set_solver.
  - intros strategy. unfold GTOStrategy.get_strategy.
    destruct (str_split "." info_set) as [|card [|history [|c l]]] eqn:Hk;
      try discriminate.
    apply get_strategy_split in Hk. subst info_set.
    destruct (String.eqb_spec history "") as [->|_].
    { intros Hs. apply p1_strategy_Ok in Hs. unfold KuhnPokerGame.CARDS in Hs.
      rewrite !elem_of_cons, elem_of_nil in Hs.
      destruct Hs as [-> | [-> | [-> | []]]]; cbn; set_solver. }
    destruct (String.eqb_spec history "BET") as [->|_].
    { intros Hs. apply p2_facing_bet_Ok in Hs. unfold KuhnPokerGame.CARDS in Hs.
      rewrite !elem_of_cons, elem_of_nil in Hs.
      destruct Hs as [-> | [-> | [-> | []]]]; cbn; set_solver. }
    destruct (String.eqb_spec history "CHECK") as [->|_]; [|discriminate].
    intros Hs. apply p2_after_check_Ok in Hs. unfold KuhnPokerGame.CARDS in Hs.
    rewrite !elem_of_cons, elem_of_nil in Hs.
    destruct Hs as [-> | [-> | [-> | []]]]; cbn; set_solver.
Qed.

Lemma get_strategy_spec_witness :
  GTOStrategy.get_strategy "J.BET.CALL" = Raise UnpackError.
Proof.
  apply (proj1 (get_strategy_spec "J.BET.CALL")). vm_compute. discriminate.
Defined.

Lemma get_info_set_history_key (s : GameState) (player : Z) (card : string) :
  cards s !! player = Some card ->
  get_info_set s player = Ok (card ++ "." ++ history_key (betting_history s)).
Proof.
  intros E. unfold get_info_set, getitem, get_betting_string.
  rewrite E. cbn [mbind result_bind]. unfold history_key.
  destruct (betting_history s) as [|a [|b [|c h]]]; try reflexivity.
  + destruct (String.eqb a "CHECK"); reflexivity.
  + destruct (list_str_eqb [a; b] ["CHECK"; "BET"]) eqn:Ecb.
    * cbn [list_str_eqb] in Ecb. rewrite andb_true_r in Ecb.
      apply andb_true_iff in Ecb as [Ea Eb].
      apply String.eqb_eq in Ea, Eb. subst a b. reflexivity.
    * destruct (list_str_eqb [a; b] ["CHECK"; "CHECK"]) eqn:Ecc.
      { cbn [list_str_eqb] in Ecc. rewrite andb_true_r in Ecc.
        apply andb_true_iff in Ecc as [Ea Eb].
        apply String.eqb_eq in Ea, Eb. subst a b. reflexivity. }
      destruct (list_str_eqb [a; b] ["BET"; "CALL"]) eqn:Ebc.
      { cbn [list_str_eqb] in Ebc. rewrite andb_true_r in Ebc.
        apply andb_true_iff in Ebc as [Ea Eb].
        apply String.eqb_eq in Ea, Eb. subst a b. reflexivity. }
      destruct (list_str_eqb [a; b] ["BET"; "FOLD"]) eqn:Ebf; [|reflexivity].
      cbn [list_str_eqb] in Ebf. rewrite andb_true_r in Ebf.
      apply andb_true_iff in Ebf as [Ea Eb].
      apply String.eqb_eq in Ea, Eb. subst a b. reflexivity.
Qed.

(** X7: a seat's information set holds its own card and the history and
    nothing else.  [get_info_set] raises the key error when the seat has no
    card; otherwise it returns the card, a dot and the key of the history, in
    which a single action other than CHECK, and CHECK followed by BET, are
    both written BET and every other history is the concatenation of its
    actions.  Two states that agree on the seat's card and on the history give
    the same information set, whatever the other card, the pot and the seat to
    act are. *)
Theorem get_info_set_spec (s : GameState) (player : Z) :
  (cards s !! player = None -> get_info_set s player = Raise KeyError) /\
  (forall card : string,
     cards s !! player = Some card ->
     get_info_set s player
     = Ok (card ++ "." ++ history_key (betting_history s))) /\
  (forall (s' : GameState) (player' : Z),
     cards s' !! player' = cards s !! player ->
     betting_history s' = betting_history s ->
     get_info_set s' player' = get_info_set s player).
Proof.
  split; [|split].
  - intros E. unfold get_info_set, getitem. rewrite E. reflexivity.
  - exact (get_info_set_history_key s player).
  - intros s' player' Ec Eh. unfold get_info_set, get_betting_string.
    unfold getitem. rewrite Ec, Eh. reflexivity.
Qed.

Lemma get_info_set_spec_witness :
  get_info_set bet_call 1 = Ok ("Q" ++ "." ++ history_key (betting_history bet_call)).
Proof.
  apply (proj1 (proj2 (get_info_set_spec bet_call 1)) "Q"). reflexivity.
Defined.

(** ** The GTO agent in play *)

Section GTOInPlay.
Context {G : Type} `{PyRandom G}.

Lemma sample_row (a1 a2 : string) (p1 p2 : float) (g : G) :
  [(a1, p1); (a2, p2)] ∈ table_rows ->
  (normalized_probs ←
     mapM (fun p => float_truediv p (float_sum (map snd [(a1, p1); (a2, p2)])))
          (map snd [(a1, p1); (a2, p2)]);
   '(picked, g) ← random_choices (map fst [(a1, p1); (a2, p2)]) normalized_probs 1 g;
   action ← list_getitem picked 0;
   Ok (action, g))
  = Ok (if PrimFloat.ltb ((random_random g).1 * 1)%float p1 then a1 else a2,
        (random_random g).2).
Proof.
  unfold table_rows. rewrite !elem_of_cons, elem_of_nil.
  intros [E | [E | [E | [E | [E | []]]]]]; injection E as -> -> -> ->;
    unfold random_choices, choices_draws, choices_draw;
    destruct (random_random g) as [u g']; vm_compute;
    destruct (PrimFloat.ltb _ _); reflexivity.
Qed.

Lemma conforming_card_to_act (s : GameState) :
  conforming s ->
  exists card, cards s !! current_player s = Some card /\
               card ∈ KuhnPokerGame.CARDS.
Proof.
  intros [Hc Hsh _ _]. unfold seated in Hc.
  destruct (cards s !! 0) as [c0|] eqn:E0; [|discriminate].
  destruct (cards s !! 1) as [c1|] eqn:E1; [|discriminate].
  apply andb_true_iff in Hc as [H0 H1]. apply str_in_elem_of in H0, H1.
  inversion Hsh; eauto.
Qed.

Lemma gto_choose_action_play (s : GameState) (legal : list string) (g : G) :
  reachable s -> is_terminal s = false ->
  KuhnPokerGame.get_legal_actions s = Ok legal ->
  exists (key a1 a2 : string) (p1 p2 : float),
    get_info_set s (current_player s) = Ok key /\
    GTOStrategy.get_strategy key = Ok [(a1, p1); (a2, p2)] /\
    legal = [a1; a2] /\
    GTOAgent.choose_action s legal (current_player s) g
    = Ok (if PrimFloat.ltb ((random_random g).1 * 1)%float p1 then a1 else a2,
          (random_random g).2).
Proof.
  intros Hr Ht Hl. pose proof (reachable_conforming s Hr) as Hc.
  destruct (conforming_card_to_act s Hc) as (card & Ecard & Hcard).
  pose proof (get_info_set_history_key s _ card Ecard) as Hinfo.
  destruct Hc as [_ Hsh _ _].
  unfold GTOAgent.choose_action. rewrite Hinfo. clear Hinfo.
  unfold KuhnPokerGame.get_legal_actions in Hl.
  destruct s as [c h p cp t pay]; cbn [betting_history pot current_player
    is_terminal cards] in *. subst t.
  unfold KuhnPokerGame.CARDS in Hcard.
  rewrite !elem_of_cons, elem_of_nil in Hcard.
  inversion Hsh; subst; injection Hl as <-;
    destruct Hcard as [-> | [-> | [-> | []]]];
    match goal with
    | |- context [@Ok string (?a ++ ?b)] =>
        let k := eval vm_compute in (a ++ b) in change (a ++ b) with k
    end;
    cbn [mbind result_bind];
    match goal with
    | |- context [GTOStrategy.get_strategy ?k] =>
        let r := eval vm_compute in (GTOStrategy.get_strategy k) in
        match r with
        | Ok [(?a1, ?p1); (?a2, ?p2)] =>
            exists k, a1, a2, p1, p2;
            split; [reflexivity|];
            split; [vm_compute; reflexivity|];
            split; [reflexivity|];
            change (GTOStrategy.get_strategy k) with (Ok [(a1, p1); (a2, p2)])
        end
    end;
    cbn [mbind result_bind];
    match goal with
    | |- context [List.filter ?f ?l] =>
        change (List.filter f l) with l
    end;
    cbn [length Nat.eqb];
    apply sample_row; unfold table_rows; rewrite !elem_of_cons;
    vm_compute; tauto.
Qed.

(** X8: the GTO agent at a decision of a hand.  In every state reached by
    play that is not terminal, asked for the seat to act with the legal
    actions of the state, [choose_action] raises nothing, whatever the
    generator is: the information set is a key of the table, the two actions
    of its strategy are the two legal actions, and the agent returns the first
    of them when [random() * 1.0] is below its probability and the second
    otherwise, having drawn from the generator once. *)
Theorem gto_choose_action_in_play (s : GameState) (legal : list string) (g : G) :
  reachable s -> is_terminal s = false ->
  KuhnPokerGame.get_legal_actions s = Ok legal ->
  exists (key a1 a2 : string) (p1 p2 : float),
    get_info_set s (current_player s) = Ok key /\
    GTOStrategy.get_strategy key = Ok [(a1, p1); (a2, p2)] /\
    legal = [a1; a2] /\
    GTOAgent.choose_action s legal (current_player s) g
    = Ok (if PrimFloat.ltb ((random_random g).1 * 1)%float p1 then a1 else a2,
          (random_random g).2).
Proof. exact (gto_choose_action_play s legal g). Qed.

End GTOInPlay.

Lemma gto_choose_action_in_play_witness :
  exists (key a1 a2 : string) (p1 p2 : float),
    get_info_set hand_start (current_player hand_start) = Ok key /\
    GTOStrategy.get_strategy key = Ok [(a1, p1); (a2, p2)] /\
    ["CHECK"; "BET"] = [a1; a2] /\
    GTOAgent.choose_action (G := Z) hand_start ["CHECK"; "BET"]
      (current_player hand_start) 0
    = Ok (if PrimFloat.ltb ((random_random (G := Z) 0%Z).1 * 1)%float p1
          then a1 else a2,
          (random_random (G := Z) 0).2).
Proof.
  exact (gto_choose_action_in_play (G := Z) hand_start ["CHECK"; "BET"] 0
           hand_start_reachable eq_refl eq_refl).
Defined.

(** ** The record of a hand *)

Lemma apply_action_cards (s s' : GameState) (a : string) :
  KuhnPokerGame.apply_action s a = Ok s' -> cards s' = cards s.
Proof.
  unfold KuhnPokerGame.apply_action. intros Ha. inv_bind Ha.
  destruct (negb _); [discriminate|].
  inv_bind Ha. destruct x0 as [terminal pay]. injection Ha as <-. reflexivity.
Qed.

Lemma conforming_seat_in_turn (s : GameState) :
  conforming s -> is_terminal s = false ->
  current_player s = Z.of_nat (length (betting_history s)) mod 2.
Proof.
  intros [_ Hsh _ _] Ht. rewrite Ht in Hsh. inversion Hsh; reflexivity.
Qed.

Lemma seats_in_turn_S (n : nat) :
  seats_in_turn (S n) = (seats_in_turn n ++ [Z.of_nat n mod 2])%list.
Proof.
  unfold seats_in_turn. rewrite seq_S, map_app. reflexivity.
Qed.

Section HandRecords.
Context {G : Type} `{PyRandom G} {M : Type}.
Implicit Types (agents : gmap Z (BaseAgent G M)) (w : G * M).

Lemma play_turn_records agents s acts w s' acts' w' :
  conforming s -> is_terminal s = false ->
  records_match agents (cards s) (betting_history s) acts ->
  play_turn agents s acts w = Ok (s', acts', w') ->
  records_match agents (cards s') (betting_history s') acts'.
Proof.
  intros Hc Ht (Hact & Hpos & Hall) Hturn. unfold play_turn in Hturn.
  inv_bind Hturn. rename x into ag, Hx into Hag.
  inv_bind Hturn. inv_bind Hturn. destruct x0 as [a w1].
  inv_bind Hturn. rename x0 into c, Hx1 into Hcard.
  inv_bind Hturn. inv_bind Hturn. inv_bind Hturn. rename x2 into s1, Hx3 into Ha.
  inv_bind Hturn. injection Hturn as <- <- _.
  unfold getitem in Hag, Hcard.
  destruct (agents !! current_player s) as [ag'|] eqn:Eag; [|discriminate].
  injection Hag as ->.
  destruct (cards s !! current_player s) as [c'|] eqn:Ec; [|discriminate].
  injection Hcard as ->.
  rewrite (apply_action_cards _ _ _ Ha), (apply_action_history _ _ _ Ha).
  assert (Hlen : length acts = length (betting_history s))
    by (rewrite <- Hact, length_map; reflexivity).
  split; [|split].
  - rewrite map_app, Hact. reflexivity.
  - rewrite map_app, length_app, Hpos. cbn [length map position].
    rewrite Nat.add_1_r, seats_in_turn_S, Hlen.
    rewrite (conforming_seat_in_turn s Hc Ht). reflexivity.
  - apply Forall_app. split; [exact Hall|].
    constructor; [|constructor]. cbn [position card agent].
    split; [exact Ec|]. exists ag. split; [exact Eag | reflexivity].
Qed.

Lemma play_loop_records (fuel : nat) agents s acts w s' acts' w' :
  conforming s ->
  records_match agents (cards s) (betting_history s) acts ->
  play_loop fuel agents s acts w = Some (Ok (s', acts', w')) ->
  conforming s' /\ is_terminal s' = true /\ cards s' = cards s /\
  records_match agents (cards s') (betting_history s') acts'.
Proof.
  revert s acts w; induction fuel as [|fuel IH]; intros s acts w Hc Hm Hl;
    [discriminate|].
  cbn [play_loop] in Hl. destruct (is_terminal s) eqn:Ht.
  - injection Hl as <- <- _.
    split; [exact Hc|]. split; [exact Ht|]. split; [reflexivity | exact Hm].
  - destruct (play_turn agents s acts w) as [[[s1 acts1] w1]|e] eqn:Hturn;
      [|discriminate].
    destruct (play_turn_applies _ _ _ _ _ _ _ Hturn) as [a Ha].
    destruct (IH s1 acts1 w1) as (Hc' & Ht' & Hcards & Hm').
    + eapply apply_action_conforming; eassumption.
    + eapply play_turn_records; eassumption.
    + exact Hl.
    + split; [exact Hc'|]. split; [exact Ht'|]. split; [|exact Hm'].
      rewrite Hcards. exact (apply_action_cards _ _ _ Ha).
Qed.

Lemma play_hand_state agents (hand_num : Z) w hand w' :
  play_hand agents hand_num w = Ok (hand, w') ->
  exists (s0 s : GameState) (g1 : G) (p0 p1 : Z) (acts : list ActionRecord),
    KuhnPokerGame.start_new_hand w.1 = Ok (s0, g1) /\
    play_loop 4 agents s0 [] (g1, w.2) = Some (Ok (s, acts, w')) /\
    KuhnPokerGame.get_payoff s 0 = Ok p0 /\
    KuhnPokerGame.get_payoff s 1 = Ok p1 /\
    hand = mkHandResult hand_num (cards s) acts (betting_history s)
             [(0, p0); (1, p1)] (pot s).
Proof.
  unfold play_hand. intros Hh. inv_bind Hh. destruct x as [s0 g1].
  destruct (play_loop 4 agents s0 [] (g1, w.2)) as [r|] eqn:Hl;
    cbn [default from_option id] in Hh; [|discriminate].
  inv_bind Hh. destruct x as [[s acts] w1]. subst r.
  inv_bind Hh. inv_bind Hh. injection Hh as <- <-.
  exists s0, s, g1, x, x0, acts. auto.
Qed.

Lemma play_hand_records agents (hand_num : Z) w hand w' :
  play_hand agents hand_num w = Ok (hand, w') ->
  hand_betting_history hand ∈ complete_plays /\
  records_match agents (hand_cards hand) (hand_betting_history hand)
                (actions hand) /\
  final_pot hand = 2 + chips_committed (hand_betting_history hand) /\
  exists c0 c1 : string,
    hand_cards hand = <[1 := c1]> (<[0 := c0]> ∅) /\
    c0 ∈ KuhnPokerGame.CARDS /\ c1 ∈ KuhnPokerGame.CARDS /\ c0 <> c1.
Proof.
  intros Hh.
  destruct (play_hand_state _ _ _ _ _ Hh)
    as (s0 & s & g1 & p0 & p1 & acts & Hs0 & Hl & _ & _ & ->).
  cbn [hand_betting_history hand_cards actions final_pot].
  pose proof (start_new_hand_conforming _ _ _ Hs0) as Hc0.
  pose proof (start_new_hand_fields _ _ _ Hs0) as (Hh0 & _).
  destruct (play_loop_records 4 agents s0 [] (g1, w.2) s acts w' Hc0) as
    (Hc & Ht & Hcards & Hm); [| exact Hl |].
  { rewrite Hh0. repeat split. constructor. }
  destruct Hc as [_ Hsh _ _]. rewrite Ht in Hsh.
  split; [|split; [exact Hm|split]].
  - unfold complete_plays. inversion Hsh; set_solver.
  - inversion Hsh; reflexivity.
  - rewrite Hcards. unfold KuhnPokerGame.start_new_hand in Hs0.
    inv_bind Hs0. destruct x as [c g2]. injection Hs0 as <- _.
    exact (deal_cards_seated _ _ _ Hx).
Qed.

(** X9: the record [play_hand] returns agrees with the hand that was
    played.  Its history is one of the five complete plays; its action records
    list the actions of the history in order, by the seats 0, 1, 0 in turn,
    each with the card of the seat that acted and the name of the agent that
    sits there; its pot is the two antes plus one chip for each BET and CALL;
    and its cards are two different cards of the deck. *)
Theorem play_hand_record agents (hand_num : Z) w hand w' :
  play_hand agents hand_num w = Ok (hand, w') ->
  hand_betting_history hand ∈ complete_plays /\
  map action (actions hand) = hand_betting_history hand /\
  map position (actions hand) = seats_in_turn (length (actions hand)) /\
  Forall (fun r : ActionRecord =>
            hand_cards hand !! position r = Some (card r) /\
            exists a, agents !! position r = Some a /\ agent r = name a)
         (actions hand) /\
  final_pot hand = 2 + chips_committed (hand_betting_history hand) /\
  exists c0 c1 : string,
    hand_cards hand = <[1 := c1]> (<[0 := c0]> ∅) /\
    c0 ∈ KuhnPokerGame.CARDS /\ c1 ∈ KuhnPokerGame.CARDS /\ c0 <> c1.
Proof.
  intros Hh.
  destruct (play_hand_records _ _ _ _ _ Hh) as (H1 & (H2 & H3 & H4) & H5 & H6).
  auto 10.
Qed.

End HandRecords.

Lemma play_hand_record_witness :
  exists hand w',
    play_hand (seating gto1 gto2 0) 0 (3, tt) = Ok (hand, w') /\
    hand_betting_history hand ∈ complete_plays /\
    map action (actions hand) = hand_betting_history hand.
Proof.
  destruct (play_hand (seating gto1 gto2 0) 0 (3, tt)) as [[hand w']|e] eqn:Hh.
  - exists hand, w'. split; [reflexivity|].
    destruct (play_hand_record _ _ _ _ _ Hh) as (H1 & H2 & _).
    split; assumption.
  - vm_compute in Hh. discriminate Hh.
Defined.

(** ** Tournaments of agents that play by the rules *)

Lemma elem_of_pair {A} (x a b : A) : x ∈ [a; b] -> x = a \/ x = b.
Proof. rewrite !elem_of_cons, elem_of_nil. tauto. Qed.

Lemma complete_play_actions (h : list string) (a : string) :
  h ∈ complete_plays -> a ∈ h -> a ∈ ACTIONS.
Proof.
  unfold complete_plays, ACTIONS. rewrite !elem_of_cons, elem_of_nil.
  intros [-> | [-> | [-> | [-> | [-> | []]]]]];
    rewrite !elem_of_cons, elem_of_nil; tauto.
Qed.

Lemma update_action_counts_returns (names : list string)
    (records : list ActionRecord) (counts : gmap string (gmap string Z)) :
  Forall (fun r => agent r ∈ names /\ action r ∈ ACTIONS) records ->
  counts_ready names counts ->
  exists counts', update_action_counts records counts = Ok counts' /\
                  counts_ready names counts'.
Proof.
  intros Hall. revert counts.
  induction Hall as [|r records [Hag Hact] _ IH]; intros counts Hready.
  - exists counts. split; [reflexivity | exact Hready].
  - cbn [update_action_counts]. unfold getitem.
    destruct (Hready _ Hag) as (c & Hc & Hkeys). rewrite Hc.
    cbn [mbind result_bind].
    destruct (Hkeys _ Hact) as [old Hold]. rewrite Hold.
    cbn [mbind result_bind]. apply IH.
    intros nm Hnm. destruct (decide (nm = agent r)) as [->|Hne].
    + rewrite lookup_insert_eq. eexists. split; [reflexivity|].
      intros act Ha. destruct (decide (act = action r)) as [->|Hne'].
      * rewrite lookup_insert_eq. eauto.
      * rewrite lookup_insert_ne by congruence. auto.
    + rewrite lookup_insert_ne by congruence. auto.
Qed.

Section TournamentReturns.
Context {G : Type} `{PyRandom G} {M : Type}.
Implicit Types (agents : gmap Z (BaseAgent G M)) (w : G * M).

Lemma update_profits_returns agents (names : list string)
    (items : list (Z * Z)) (profits : gmap string Z) :
  Forall (fun kv : Z * Z =>
            exists a, agents !! kv.1 = Some a /\ name a ∈ names) items ->
  profits_ready names profits ->
  exists profits', update_profits agents items profits = Ok profits' /\
                   profits_ready names profits'.
Proof.
  intros Hall. revert profits.
  induction Hall as [|[pos payoff] items (a & Ha & Hnm) _ IH];
    intros profits Hready.
  - exists profits. split; [reflexivity | exact Hready].
  - cbn [update_profits]. unfold getitem. cbn [fst] in Ha. rewrite Ha.
    cbn [mbind result_bind].
    destruct (Hready _ Hnm) as [old Hold]. rewrite Hold.
    cbn [mbind result_bind]. apply IH.
    intros nm Hin. destruct (decide (nm = name a)) as [->|Hne].
    + rewrite lookup_insert_eq. eauto.
    + rewrite lookup_insert_ne by congruence. auto.
Qed.

Lemma play_turn_returns agents (a0 a1 : BaseAgent G M) s acts w :
  agents !! 0 = Some a0 -> agents !! 1 = Some a1 ->
  plays_legally a0 -> plays_legally a1 ->
  reachable s -> is_terminal s = false ->
  exists s' acts' w', play_turn agents s acts w = Ok (s', acts', w').
Proof.
  intros E0 E1 L0 L1 Hr Ht.
  pose proof (reachable_conforming s Hr) as Hc.
  destruct (reachable_two_actions s Hr Ht) as (x & y & _ & Hlegal).
  destruct (conforming_card_to_act s Hc) as (c & Ec & _).
  assert (Hseat : exists a b : BaseAgent G M,
             agents !! current_player s = Some a /\
             agents !! (1 - current_player s) = Some b /\
             plays_legally a /\ plays_legally b).
  { destruct Hc as [_ Hsh _ _]. rewrite Ht in Hsh.
    inversion Hsh; cbn; eauto 10. }
  destruct Hseat as (a & b & Ea & Eb & (La & Lres & _) & (_ & _ & Lobs)).
  unfold play_turn, getitem. rewrite Ea, Hlegal. cbn [mbind result_bind].
  destruct (La s [x; y] w Hr Ht Hlegal) as (act & w1 & -> & Hact).
  cbn [mbind result_bind]. rewrite Ec, Eb. cbn [mbind result_bind].
  destruct (Lobs s act (1 - current_player s) w1) as [w2 ->].
  cbn [mbind result_bind].
  destruct (apply_action_legal s act [x; y] Ht (conf_cards s Hc) Hlegal Hact)
    as (s' & -> & _).
  cbn [mbind result_bind].
  destruct (Lres s act s' (current_player s) w2) as [w3 ->].
  cbn [mbind result_bind]. eauto.
Qed.

Lemma play_loop_returns (fuel : nat) agents (a0 a1 : BaseAgent G M) s acts w :
  agents !! 0 = Some a0 -> agents !! 1 = Some a1 ->
  plays_legally a0 -> plays_legally a1 ->
  reachable s -> (4 - length (betting_history s) <= fuel)%nat ->
  exists s' acts' w',
    play_loop fuel agents s acts w = Some (Ok (s', acts', w')).
Proof.
  intros E0 E1 L0 L1.
  revert s acts w; induction fuel as [|fuel IH]; intros s acts w Hr Hfuel.
  - pose proof (conforming_history_length s (reachable_conforming s Hr)). lia.
  - cbn [play_loop]. destruct (is_terminal s) eqn:Ht; [eauto|].
    destruct (play_turn_returns agents a0 a1 s acts w E0 E1 L0 L1 Hr Ht)
      as (s1 & acts1 & w1 & Hturn).
    rewrite Hturn.
    destruct (play_turn_applies _ _ _ _ _ _ _ Hturn) as [a Ha].
    apply IH.
    + eapply reachable_step; eassumption.
    + rewrite (apply_action_history _ _ _ Ha), length_app. simpl. lia.
Qed.

Lemma play_hand_returns agents (a0 a1 : BaseAgent G M) (hand_num : Z) w :
  randbelow_in_range ->
  agents !! 0 = Some a0 -> agents !! 1 = Some a1 ->
  plays_legally a0 -> plays_legally a1 ->
  exists hand w', play_hand agents hand_num w = Ok (hand, w').
Proof.
  intros Hrange E0 E1 L0 L1. unfold play_hand.
  destruct (shuffle_returns_hand w.1 Hrange) as (s0 & g1 & Hs0).
  rewrite Hs0. cbn [mbind result_bind].
  pose proof (reachable_start _ _ _ Hs0) as Hr0.
  destruct (play_loop_returns 4 agents a0 a1 s0 [] (g1, w.2) E0 E1 L0 L1 Hr0)
    as (s & acts & w' & Hl); [lia|].
  rewrite Hl. cbn [default from_option id mbind result_bind].
  destruct (play_loop_not_cut_off 4 agents s0 [] (g1, w.2)
              (reachable_conforming _ Hr0)) as (r & Hr & Hend); [lia|].
  rewrite Hl in Hr. injection Hr as <-.
  destruct (Hend _ _ _ eq_refl) as [Hc Ht].
  destruct (conforming_terminal_payoffs s Hc Ht) as (v0 & v1 & -> & -> & _).
  cbn [mbind result_bind]. eauto.
Qed.

End TournamentReturns.

Section TournamentReturns2.
Context {G : Type} `{PyRandom G} {M : Type}.
Implicit Types (agents : gmap Z (BaseAgent G M)) (w : G * M).

Lemma seating_lookup (agent1 agent2 a : BaseAgent G M) (hand_num pos : Z) :
  seating agent1 agent2 hand_num !! pos = Some a -> a = agent1 \/ a = agent2.
Proof.
  unfold seating. destruct (hand_num mod 2 =? 0);
    (destruct (decide (pos = 1)) as [->|];
     [rewrite lookup_insert_eq; intros [= <-]; auto|];
     rewrite lookup_insert_ne by congruence;
     destruct (decide (pos = 0)) as [->|];
     [rewrite lookup_insert_eq; intros [= <-]; auto|];
     rewrite lookup_insert_ne by congruence; rewrite lookup_empty; discriminate).
Qed.

Lemma seating_both (agent1 agent2 : BaseAgent G M) (hand_num : Z) :
  exists a0 a1 : BaseAgent G M,
    seating agent1 agent2 hand_num !! 0 = Some a0 /\
    seating agent1 agent2 hand_num !! 1 = Some a1 /\
    ((a0 = agent1 /\ a1 = agent2) \/ (a0 = agent2 /\ a1 = agent1)).
Proof.
  unfold seating. destruct (hand_num mod 2 =? 0);
    do 2 eexists; (split; [reflexivity|]); (split; [reflexivity|]); auto.
Qed.

Lemma tournament_hand_returns (agent1 agent2 : BaseAgent G M) (hand_num : Z)
    (profits : gmap string Z) (counts : gmap string (gmap string Z))
    (hands : list HandResult) w :
  randbelow_in_range -> plays_legally agent1 -> plays_legally agent2 ->
  profits_ready [name agent1; name agent2] profits ->
  counts_ready [name agent1; name agent2] counts ->
  exists profits' counts' hand w',
    tournament_hand agent1 agent2 hand_num (profits, counts, hands) w
    = Ok (profits', counts', (hands ++ [hand])%list, w') /\
    profits_ready [name agent1; name agent2] profits' /\
    counts_ready [name agent1; name agent2] counts'.
Proof.
  intros Hrange L1 L2 Hp Hc. unfold tournament_hand.
  set (agents := seating agent1 agent2 hand_num).
  assert (Hname : forall pos a, agents !! pos = Some a ->
                    name a ∈ [name agent1; name agent2]).
  { intros pos a Ha. rewrite !elem_of_cons.
    apply seating_lookup in Ha as [-> | ->]; auto. }
  destruct (seating_both agent1 agent2 hand_num) as (a0 & a1 & E0 & E1 & Hab).
  assert (L : plays_legally a0 /\ plays_legally a1).
  { destruct Hab as [[-> ->] | [-> ->]]; auto. }
  destruct L as [La0 La1].
  destruct (play_hand_returns agents a0 a1 hand_num w Hrange E0 E1 La0 La1)
    as (hand & w' & Hh).
  rewrite Hh. cbn [mbind result_bind].
  destruct (play_hand_payoffs _ _ _ _ _ Hh) as (_ & v0 & v1 & Hpay & _).
  destruct (play_hand_records _ _ _ _ _ Hh) as (Hplay & (Hact & _ & Hrec) & _).
  destruct (update_profits_returns agents [name agent1; name agent2]
              (hand_payoffs hand) profits) as (profits' & -> & Hp');
    [| exact Hp |].
  { rewrite Hpay. constructor; [|constructor; [|constructor]]; cbn [fst]; eauto. }
  cbn [mbind result_bind].
  destruct (update_action_counts_returns [name agent1; name agent2]
              (actions hand) counts) as (counts' & -> & Hc'); [| exact Hc |].
  { apply Forall_forall. intros r Hr.
    rewrite Forall_forall in Hrec. destruct (Hrec r Hr) as (_ & a & Ha & ->).
    split; [eapply Hname; exact Ha|].
    apply (complete_play_actions _ _ Hplay). rewrite <- Hact.
    apply list_elem_of_fmap. exists r. split; [reflexivity | exact Hr]. }
  cbn [mbind result_bind]. eauto 10.
Qed.

Lemma tournament_loop_returns (agent1 agent2 : BaseAgent G M) (n : nat) :
  randbelow_in_range -> plays_legally agent1 -> plays_legally agent2 ->
  forall (hand_num : Z) (profits : gmap string Z)
         (counts : gmap string (gmap string Z)) (hands : list HandResult) w,
    profits_ready [name agent1; name agent2] profits ->
    counts_ready [name agent1; name agent2] counts ->
    exists profits' counts' played w',
      tournament_loop agent1 agent2 n hand_num (profits, counts, hands) w
      = Ok (profits', counts', (hands ++ played)%list, w') /\
      length played = n.
Proof.
  intros Hrange L1 L2. induction n as [|n IH];
    intros hand_num profits counts hands w Hp Hc.
  - exists profits, counts, [], w. rewrite app_nil_r. split; reflexivity.
  - cbn [tournament_loop].
    destruct (tournament_hand_returns agent1 agent2 hand_num profits counts
                hands w Hrange L1 L2 Hp Hc)
      as (profits1 & counts1 & hand & w1 & -> & Hp1 & Hc1).
    cbn [mbind result_bind].
    destruct (IH (hand_num + 1) profits1 counts1 (hands ++ [hand])%list w1 Hp1 Hc1)
      as (profits' & counts' & played & w' & -> & Hlen).
    exists profits', counts', (hand :: played), w'.
    rewrite <- app_assoc. split; [reflexivity|]. simpl. rewrite Hlen. reflexivity.
Qed.

Lemma tournament_init_ready (agent1 agent2 : BaseAgent G M)
    (hands : list HandResult) :
  profits_ready [name agent1; name agent2]
                (tournament_init agent1 agent2 hands).1.1 /\
  counts_ready [name agent1; name agent2]
               (tournament_init agent1 agent2 hands).1.2.
Proof.
  unfold tournament_init. cbn [fst snd]. split.
  - intros nm Hnm. destruct (decide (nm = name agent2)) as [->|Hne].
    + rewrite lookup_insert_eq. eauto.
    + rewrite lookup_insert_ne by congruence.
      destruct (elem_of_pair _ _ _ Hnm) as [-> | ->]; [|congruence].
      rewrite lookup_insert_eq. eauto.
  - intros nm Hnm. exists zero_counts. split.
    + destruct (decide (nm = name agent2)) as [->|Hne].
      * rewrite lookup_insert_eq. reflexivity.
      * rewrite lookup_insert_ne by congruence.
        destruct (elem_of_pair _ _ _ Hnm) as [-> | ->]; [|congruence].
        rewrite lookup_insert_eq. reflexivity.
    + unfold ACTIONS. intros act. rewrite !elem_of_cons, elem_of_nil.
      intros [-> | [-> | [-> | [-> | []]]]]; eexists; reflexivity.
Qed.

Lemma gto_plays_legally (nm : string) :
  plays_legally (GTOAgent.new (G := G) (M := M) nm).
Proof.
  split; [|split].
  - intros s legal w Hr Ht Hl. cbn [choose_action GTOAgent.new].
    destruct (gto_choose_action_play s legal w.1 Hr Ht Hl)
      as (key & a1 & a2 & p1 & p2 & _ & _ & -> & ->).
    cbn [mbind result_bind]. do 2 eexists. split; [reflexivity|].
    rewrite !elem_of_cons. destruct (PrimFloat.ltb _ _); auto.
  - intros. cbn. eauto.
  - intros. cbn. eauto.
Qed.

(** X10: a tournament of agents that play by the rules runs to its end.
    With no hand to play, [run_tournament] raises the division error of its
    profit per 100 hands, whoever the agents are.  With at least one hand,
    under a generator whose draws below [n] lie in [0, n), and for two agents
    that return a legal action at every decision and whose hooks return, it
    returns: no hand raises, the result names the matchup and the number of
    hands, and the logger holds one more record for each hand.  The GTO agent
    is such an agent. *)
Theorem run_tournament_returns (agent1 agent2 : BaseAgent G M) (n : nat)
    (hands : list HandResult) w :
  (n = 0%nat ->
   run_tournament agent1 agent2 n hands w = Raise ZeroDivisionError) /\
  (randbelow_in_range -> plays_legally agent1 -> plays_legally agent2 ->
   (0 < n)%nat ->
   exists results w',
     run_tournament agent1 agent2 n hands w = Ok (results, w') /\
     matchup results = name agent1 ++ "_vs_" ++ name agent2 /\
     total_hands results = Z.of_nat n /\
     length (logger results) = (length hands + n)%nat) /\
  (forall nm : string, plays_legally (GTOAgent.new (G := G) (M := M) nm)).
Proof.
  split; [|split].
  - intros ->. reflexivity.
  - intros Hrange L1 L2 Hn. unfold run_tournament.
    destruct (tournament_init_ready agent1 agent2 hands) as [Hp Hc].
    destruct (tournament_init agent1 agent2 hands) as [[profits counts] hs] eqn:Ei.
    assert (hs = hands) as -> by (unfold tournament_init in Ei; congruence).
    cbn [fst snd] in Hp, Hc.
    destruct (tournament_loop_returns agent1 agent2 n Hrange L1 L2 0 profits
                counts hands (KuhnPokerGame.__init__ None w.1, w.2) Hp Hc)
      as (profits' & counts' & played & w' & -> & Hlen).
    cbn [mbind result_bind].
    destruct (Nat.eqb_spec n 0) as [->|_]; [lia|].
    do 2 eexists. split; [reflexivity|]. cbn.
    split; [reflexivity|]. split; [reflexivity|].
    rewrite length_app, Hlen. reflexivity.
  - exact gto_plays_legally.
Qed.

End TournamentReturns2.

Lemma run_tournament_returns_witness :
  exists results w',
    run_tournament gto1 gto2 3 [] (5, tt) = Ok (results, w') /\
    matchup results = name gto1 ++ "_vs_" ++ name gto2 /\
    total_hands results = 3 /\
    length (logger results) = (length (@nil HandResult) + 3)%nat.
Proof.
  apply (proj1 (proj2 (run_tournament_returns gto1 gto2 3 [] (5, tt)))).
  - exact counter_randbelow_in_range.
  - apply gto_plays_legally.
  - apply gto_plays_legally.
  - lia.
Defined.

Section SameName.
Context {G : Type} `{PyRandom G} {M : Type}.

Lemma tournament_loop_same_name (agent1 agent2 : BaseAgent G M) (n : nat) :
  name agent1 = name agent2 ->
  forall (hand_num : Z) (counts : gmap string (gmap string Z))
         (hands : list HandResult) (w : G * M) profits' counts' hands' w',
    tournament_loop agent1 agent2 n hand_num
      (<[name agent1 := 0]> ∅, counts, hands) w
    = Ok ((profits', counts', hands'), w') ->
    profits' = <[name agent1 := 0]> ∅.
Proof.
  intros Hnm. induction n as [|n IH];
    intros hand_num counts hands w profits' counts' hands' w' Hl.
  - injection Hl as <- _ _ _. reflexivity.
  - cbn [tournament_loop] in Hl. inv_bind Hl.
    destruct x as [[[profits1 counts1] hands1] w1].
    assert (profits1 = <[name agent1 := 0]> ∅) as ->; [|eapply IH; exact Hl].
    unfold tournament_hand in Hx. inv_bind Hx. destruct x as [hand w2].
    destruct (play_hand_payoffs _ _ _ _ _ Hx0) as (_ & v0 & v1 & Hpay & Hv).
    rewrite Hpay in Hx. inv_bind Hx. inv_bind Hx. injection Hx as <- _ _ _.
    clear Hx2.
    destruct (seating_both agent1 agent2 hand_num) as (a0 & a1 & E0 & E1 & Hab).
    assert (Hn0 : name a0 = name agent1)
      by (destruct Hab as [[-> ->] | [-> ->]]; congruence).
    assert (Hn1 : name a1 = name agent1)
      by (destruct Hab as [[-> ->] | [-> ->]]; congruence).
    cbn [update_profits] in Hx1. unfold getitem in Hx1.
    rewrite E0, E1 in Hx1. cbn [mbind result_bind] in Hx1.
    rewrite Hn0, Hn1, lookup_insert_eq in Hx1. cbn [mbind result_bind] in Hx1.
    rewrite lookup_insert_eq in Hx1. cbn [mbind result_bind] in Hx1.
    injection Hx1 as <-. rewrite !insert_insert_eq. f_equal. lia.
Qed.

(** X11: two agents with the same name share one total.  The payoffs of
    both seats of every hand are added under the one name, and as they cancel
    the profits [run_tournament] returns hold that name alone, with 0: who won
    cannot be read off them. *)
Theorem run_tournament_same_name (agent1 agent2 : BaseAgent G M) (n : nat)
    (hands : list HandResult) (w w' : G * M) (results : TournamentResults) :
  name agent1 = name agent2 ->
  run_tournament agent1 agent2 n hands w = Ok (results, w') ->
  profits results = <[name agent1 := 0]> ∅.
Proof.
  intros Hnm Hrun. unfold run_tournament in Hrun. inv_bind Hrun.
  destruct x as [[[profits' counts'] hands'] w1].
  destruct (n =? 0)%nat; [discriminate|]. injection Hrun as <- _.
  cbn [profits]. unfold tournament_init in Hx.
  rewrite <- Hnm, insert_insert_eq in Hx.
  eapply tournament_loop_same_name; [exact Hnm | exact Hx].
Qed.

End SameName.

Lemma run_tournament_same_name_witness :
  exists results w',
    run_tournament gto1 gto1 4 [] (3, tt) = Ok (results, w') /\
    profits results = <[name gto1 := 0]> ∅.
Proof.
  destruct (run_tournament gto1 gto1 4 [] (3, tt)) as [[results w']|e] eqn:Hrun.
  - exists results, w'. split; [reflexivity|].
    exact (run_tournament_same_name gto1 gto1 4 [] (3, tt) w' results
             eq_refl Hrun).
  - vm_compute in Hrun. discriminate Hrun.
Defined.

(** ** The analyzer on the log of a tournament *)

Lemma ACTIONS_nonempty (a : string) : a ∈ ACTIONS -> a <> "".
Proof.
  unfold ACTIONS. rewrite !elem_of_cons, elem_of_nil.
  intros [-> | [-> | [-> | [-> | []]]]]; discriminate.
Qed.

Lemma count_actions_agree (names : list string) (records : list ActionRecord) :
  forall ct ca ct',
    Forall (fun r => agent r <> "" /\ action r <> "") records ->
    counts_agree names ct ca ->
    update_action_counts records ct = Ok ct' ->
    exists ca',
      ResultsAnalyzer.count_actions records ca = Ok ca' /\
      counts_agree names ct' ca' /\
      forall nm, is_Some (ca !! nm) \/ nm ∈ map agent records ->
                 is_Some (ca' !! nm).
Proof.
  induction records as [|r records IH]; intros ct ca ct' Hall Hagree Hup.
  - injection Hup as <-. exists ca. split; [reflexivity|]. split; [exact Hagree|].
    intros nm [Hs|Hin]; [exact Hs | inversion Hin].
  - apply Forall_cons in Hall as [[Hag Hact] Hall].
    cbn [update_action_counts] in Hup. inv_bind Hup. inv_bind Hup.
    rename x into counts, x0 into old.
    unfold getitem in Hx, Hx0.
    destruct (ct !! agent r) as [counts'|] eqn:Ect; [|discriminate].
    injection Hx as ->.
    destruct (counts !! action r) as [old'|] eqn:Eold; [|discriminate].
    injection Hx0 as ->.
    assert (Hdef : default zero_counts (ca !! agent r) = counts).
    { destruct (Hagree (agent r)) as [E | (_ & E1 & E2)].
      - rewrite <- E, Ect. reflexivity.
      - rewrite E2. cbn. congruence. }
    destruct (IH (<[agent r := <[action r := old + 1]> counts]> ct)
                 (<[agent r := <[action r := old + 1]> counts]> ca) ct' Hall)
      as (ca' & Hca' & Hagree' & Hpres); [| exact Hup |].
    { intros nm. destruct (decide (nm = agent r)) as [->|Hne].
      - left. rewrite !lookup_insert_eq. reflexivity.
      - rewrite !lookup_insert_ne by congruence. apply Hagree. }
    exists ca'. split; [|split; [exact Hagree'|]].
    + cbn [ResultsAnalyzer.count_actions]. unfold ResultsAnalyzer.count_action.
      apply String.eqb_neq in Hag, Hact. rewrite Hag, Hact. cbn [negb andb].
      rewrite Hdef. unfold getitem. rewrite Eold. cbn [mbind result_bind].
      exact Hca'.
    + intros nm Hnm. apply Hpres.
      destruct (decide (nm = agent r)) as [->|Hne].
      * left. rewrite lookup_insert_eq. eauto.
      * rewrite lookup_insert_ne by congruence.
        destruct Hnm as [Hs|Hin]; [left; exact Hs|].
        cbn [map] in Hin. apply elem_of_cons in Hin as [E|Hin];
          [congruence | right; exact Hin].
Qed.

Section AnalyzerOnLog.
Context {G : Type} `{PyRandom G} {M : Type}.

Lemma hand_records_names (agent1 agent2 : BaseAgent G M) (hand_num : Z)
    (w w' : G * M) (hand : HandResult) :
  play_hand (seating agent1 agent2 hand_num) hand_num w = Ok (hand, w') ->
  Forall (fun r => agent r ∈ [name agent1; name agent2] /\ action r ∈ ACTIONS)
         (actions hand) /\
  exists r0 r1 rest,
    actions hand = r0 :: r1 :: rest /\
    position r0 = 0 /\ position r1 = 1 /\
    ((agent r0 = name agent1 /\ agent r1 = name agent2 /\ hand_num mod 2 = 0) \/
     (agent r0 = name agent2 /\ agent r1 = name agent1 /\ hand_num mod 2 <> 0)) /\
    Forall (fun r => position r = 0 /\ agent r = agent r0) rest.
Proof.
  intros Hh.
  destruct (play_hand_records _ _ _ _ _ Hh) as (Hplay & (Hact & Hpos & Hrec) & _).
  split.
  - apply Forall_forall. intros r Hr.
    rewrite Forall_forall in Hrec. destruct (Hrec r Hr) as (_ & a & Ha & ->).
    split.
    + rewrite !elem_of_cons. apply seating_lookup in Ha as [-> | ->]; auto.
    + apply (complete_play_actions _ _ Hplay). rewrite <- Hact.
      apply list_elem_of_fmap. exists r. split; [reflexivity | exact Hr].
  - assert (Hlen : (length (actions hand) = 2 \/ length (actions hand) = 3)%nat).
    { rewrite <- (length_map action), Hact. revert Hplay.
      unfold complete_plays. rewrite !elem_of_cons, elem_of_nil.
      intros [-> | [-> | [-> | [-> | [-> | []]]]]]; simpl; auto. }
    assert (Hseats :
      forall r a, r ∈ actions hand ->
        seating agent1 agent2 hand_num !! position r = Some a -> agent r = name a).
    { intros r a Hr Ha. rewrite Forall_forall in Hrec.
      destruct (Hrec r Hr) as (_ & a' & Ha' & ->). congruence. }
    pose proof (seating_seats agent1 agent2 hand_num) as [Heven Hodd].
    assert (Hparity :
      (hand_num mod 2 = 0 /\
       seating agent1 agent2 hand_num !! 0 = Some agent1 /\
       seating agent1 agent2 hand_num !! 1 = Some agent2) \/
      (hand_num mod 2 <> 0 /\
       seating agent1 agent2 hand_num !! 0 = Some agent2 /\
       seating agent1 agent2 hand_num !! 1 = Some agent1)).
    { destruct (decide (hand_num mod 2 = 0)) as [E|E]; [left | right];
        (split; [exact E|]); auto. }
    destruct (actions hand) as [|r0 [|r1 [|r2 [|r3 rest]]]];
      cbn [length] in Hlen; try lia.
    + injection Hpos as P0 P1. change (position r0 = 0) in P0.
      change (position r1 = 1) in P1.
      exists r0, r1, []. repeat (split; [reflexivity || assumption|]).
      split; [|constructor].
      destruct Hparity as [(E & S0 & S1) | (E & S0 & S1)]; [left | right];
        (split; [apply Hseats; [rewrite !elem_of_cons; auto | rewrite P0; exact S0]|]);
        (split; [apply Hseats; [rewrite !elem_of_cons; auto | rewrite P1; exact S1]
                | exact E]).
    + injection Hpos as P0 P1 P2. change (position r0 = 0) in P0.
      change (position r1 = 1) in P1. change (position r2 = 0) in P2.
      exists r0, r1, [r2]. repeat (split; [reflexivity || assumption|]).
      split.
      * destruct Hparity as [(E & S0 & S1) | (E & S0 & S1)]; [left | right];
          (split; [apply Hseats; [rewrite !elem_of_cons; auto | rewrite P0; exact S0]|]);
          (split; [apply Hseats; [rewrite !elem_of_cons; auto | rewrite P1; exact S1]
                  | exact E]).
      * constructor; [|constructor]. split; [exact P2|].
        destruct Hparity as [(E & S0 & S1) | (E & S0 & S1)].
        -- rewrite (Hseats r2 agent1), (Hseats r0 agent1);
             [reflexivity | rewrite !elem_of_cons; auto | rewrite P0; exact S0
             | rewrite !elem_of_cons; auto | rewrite P2; exact S0].
        -- rewrite (Hseats r2 agent2), (Hseats r0 agent2);
             [reflexivity | rewrite !elem_of_cons; auto | rewrite P0; exact S0
             | rewrite !elem_of_cons; auto | rewrite P2; exact S0].
Qed.

End AnalyzerOnLog.

Lemma count_hands_app (l1 l2 : list HandResult)
    (f : gmap string (gmap string Z)) :
  ResultsAnalyzer.count_hands (l1 ++ l2)%list f
  = ResultsAnalyzer.count_hands l1 f ≫= ResultsAnalyzer.count_hands l2.
Proof.
  revert f; induction l1 as [|h l1 IH]; intros f; [reflexivity|].
  cbn [app ResultsAnalyzer.count_hands].
  destruct (ResultsAnalyzer.count_actions (actions h) f); [|reflexivity].
  cbn [mbind result_bind]. apply IH.
Qed.

Section AnalyzerFrequencies.
Context {G : Type} `{PyRandom G} {M : Type}.

Lemma tournament_loop_counts (agent1 agent2 : BaseAgent G M) :
  name agent1 <> "" -> name agent2 <> "" ->
  forall (n : nat) (hand_num : Z) profits ct hands (w : G * M)
         profits' ct' hands' w' ca,
    tournament_loop agent1 agent2 n hand_num (profits, ct, hands) w
    = Ok (profits', ct', hands', w') ->
    counts_agree [name agent1; name agent2] ct ca ->
    exists played ca',
      hands' = (hands ++ played)%list /\
      ResultsAnalyzer.count_hands played ca = Ok ca' /\
      counts_agree [name agent1; name agent2] ct' ca' /\
      ((0 < n)%nat \/
       (forall nm, nm ∈ [name agent1; name agent2] -> is_Some (ca !! nm)) ->
       forall nm, nm ∈ [name agent1; name agent2] -> is_Some (ca' !! nm)).
Proof.
  intros Hn1 Hn2. induction n as [|n IH];
    intros hand_num profits ct hands w profits' ct' hands' w' ca Hl Hagree.
  - injection Hl as <- <- <- <-. exists [], ca. rewrite app_nil_r.
    split; [reflexivity|]. split; [reflexivity|]. split; [exact Hagree|].
    intros [Hn|Hp]; [lia | exact Hp].
  - cbn [tournament_loop] in Hl. inv_bind Hl.
    destruct x as [[[profits1 ct1] hands1] w1].
    apply tournament_hand_inv in Hx as (hand & Hh & _ & Hup & ->).
    destruct (hand_records_names _ _ _ _ _ _ Hh)
      as (Hrec & r0 & r1 & rest & Hacts & _ & _ & Hnames & _).
    destruct (count_actions_agree [name agent1; name agent2] (actions hand)
                ct ca ct1) as (ca1 & Hca1 & Hagree1 & Hpres1);
      [| exact Hagree | exact Hup |].
    { eapply Forall_impl; [exact Hrec|]. intros r [Hag Hact]. split.
      - destruct (elem_of_pair _ _ _ Hag) as [-> | ->]; assumption.
      - apply ACTIONS_nonempty. exact Hact. }
    destruct (IH _ _ _ _ _ _ _ _ _ ca1 Hl Hagree1)
      as (played & ca' & Hhands & Hcount & Hagree' & Hpres').
    exists (hand :: played), ca'. split; [|split; [|split]].
    + rewrite Hhands, <- app_assoc. reflexivity.
    + cbn [ResultsAnalyzer.count_hands]. rewrite Hca1. exact Hcount.
    + exact Hagree'.
    + intros _. apply Hpres'. right. intros nm Hnm. apply Hpres1. right.
      rewrite Hacts. cbn [map]. rewrite !elem_of_cons.
      destruct (elem_of_pair _ _ _ Hnm) as [-> | ->];
        destruct Hnames as [(E0 & E1 & _) | (E0 & E1 & _)]; auto.
Qed.

(** X12: the analyzer and the tournament count the same actions.  For
    agents whose names are not empty, the action frequencies the analyzer
    computes from the hands a tournament has logged are the action frequencies
    the tournament returns. *)
Theorem analyzer_action_frequencies (agent1 agent2 : BaseAgent G M) (n : nat)
    (w w' : G * M) (results : TournamentResults) :
  name agent1 <> "" -> name agent2 <> "" ->
  run_tournament agent1 agent2 n [] w = Ok (results, w') ->
  ResultsAnalyzer._calculate_action_frequencies (logger results)
  = Ok (action_frequencies results).
Proof.
  intros Hn1 Hn2 Hrun. unfold run_tournament in Hrun. inv_bind Hrun.
  destruct x as [[[profits' ct'] hands'] w1].
  destruct (Nat.eqb_spec n 0) as [|Hn]; [discriminate|].
  injection Hrun as <- _. cbn [logger action_frequencies].
  unfold tournament_init in Hx.
  destruct (tournament_loop_counts agent1 agent2 Hn1 Hn2 _ _ _ _ _ _ _ _ _ _
              ∅ Hx) as (played & ca' & -> & Hcount & Hagree & Hpres).
  { intros nm. destruct (decide (nm = name agent2)) as [->|Hne2].
    - right. rewrite lookup_insert_eq, lookup_empty, !elem_of_cons. auto.
    - rewrite lookup_insert_ne by congruence.
      destruct (decide (nm = name agent1)) as [->|Hne1].
      + right. rewrite lookup_insert_eq, lookup_empty, !elem_of_cons. auto.
      + left. rewrite lookup_insert_ne by congruence. reflexivity. }
  unfold ResultsAnalyzer._calculate_action_frequencies.
  cbn [app]. rewrite Hcount. f_equal. symmetry. apply map_eq. intros nm.
  destruct (Hagree nm) as [E | (Hnm & _ & Enone)]; [exact E|].
  assert (Hpos : (0 < n)%nat) by lia.
  destruct (Hpres (or_introl Hpos) nm Hnm) as [c Hc]. congruence.
Qed.

End AnalyzerFrequencies.

Lemma analyzer_action_frequencies_witness :
  exists results w',
    run_tournament gto1 gto2 4 [] (3, tt) = Ok (results, w') /\
    ResultsAnalyzer._calculate_action_frequencies (logger results)
    = Ok (action_frequencies results).
Proof.
  destruct (run_tournament gto1 gto2 4 [] (3, tt)) as [[results w']|e] eqn:Hrun.
  - exists results, w'. split; [reflexivity|].
    apply (analyzer_action_frequencies gto1 gto2 4 (3, tt) w' results);
      [discriminate | discriminate | exact Hrun].
  - vm_compute in Hrun. discriminate Hrun.
Defined.

Lemma list_getitem_last {A} (l : list A) (x : A) :
  list_getitem (l ++ [x])%list (-1) = Ok x.
Proof.
  unfold list_getitem, list_index. cbv zeta.
  rewrite length_app. cbn [length].
  assert (E0 : (-1 <? 0) = true) by reflexivity. rewrite E0.
  assert (E1 : (-1 + Z.of_nat (length l + 1) <? 0) = false)
    by (apply Z.ltb_ge; lia).
  assert (E2 : (Z.of_nat (length l + 1) <=? -1 + Z.of_nat (length l + 1)) = false)
    by (apply Z.leb_gt; lia).
  rewrite E1, E2. cbn [orb mbind result_bind].
  replace (Z.to_nat (-1 + Z.of_nat (length l + 1))) with (length l) by lia.
  rewrite lookup_app_r by lia. rewrite Nat.sub_diag. reflexivity.
Qed.

Lemma running_sums_length (t : Z) (xs : list Z) :
  length (running_sums t xs) = length xs.
Proof.
  revert t; induction xs as [|x xs IH]; intros t; simpl;
    [reflexivity | rewrite IH; reflexivity].
Qed.

Lemma running_sums_last (seat_of : Z -> Z) (hands : list HandResult) (t : Z) :
  last (t :: running_sums t (payoffs_of seat_of hands))
  = Some (t + profit_over seat_of hands).
Proof.
  revert t; induction hands as [|h hands IH]; intros t.
  - cbn. f_equal. lia.
  - cbn [payoffs_of map running_sums profit_over foldr].
    fold (payoffs_of seat_of hands). fold (profit_over seat_of hands).
    rewrite last_cons, IH. cbn. f_equal. lia.
Qed.

Lemma running_sums_zero_sum (xs ys : list Z) :
  Forall2 (fun x y => x + y = 0) xs ys ->
  forall (t1 t2 : Z) (k : nat) (x y : Z),
    t1 + t2 = 0 ->
    (t1 :: running_sums t1 xs) !! k = Some x ->
    (t2 :: running_sums t2 ys) !! k = Some y ->
    x + y = 0.
Proof.
  induction 1 as [|x0 y0 xs ys Hxy _ IH]; intros t1 t2 k x y Ht H1 H2.
  - destruct k as [|k]; cbn in H1, H2; [congruence | discriminate].
  - destruct k as [|k]; cbn in H1, H2; [congruence|].
    eapply (IH (t1 + x0) (t2 + y0) k); [lia | exact H1 | exact H2].
Qed.

Lemma agent_positions_rest (rest : list ActionRecord) (a0 : string)
    (m : gmap string Z) :
  Forall (fun r => position r = 0 /\ agent r = a0) rest ->
  m !! a0 = Some 0 ->
  fold_left (fun (m : gmap string Z) (r : ActionRecord) =>
               if negb (String.eqb (agent r) "")
               then <[agent r := position r]> m else m) rest m = m.
Proof.
  intros Hall. revert m. induction Hall as [|r rest [Hp Ha] _ IH]; intros m Hm;
    [reflexivity|].
  cbn [fold_left]. rewrite Hp, Ha.
  destruct (negb (String.eqb a0 "")); [|apply IH; exact Hm].
  rewrite (insert_id m a0 0 Hm). apply IH. exact Hm.
Qed.

Lemma extend_curves_spec (agent1 agent2 : string) (hands : list HandResult) :
  agent1 <> agent2 ->
  Forall (seats_found agent1 agent2) hands ->
  forall (cumulative : gmap string (list Z)) (l1 l2 : list Z) (t1 t2 : Z),
    cumulative !! agent1 = Some (l1 ++ [t1])%list ->
    cumulative !! agent2 = Some (l2 ++ [t2])%list ->
    exists cumulative',
      ResultsAnalyzer.extend_curves hands agent1 agent2 cumulative
      = Ok cumulative' /\
      cumulative' !! agent1
      = Some (l1 ++ t1 :: running_sums t1 (payoffs_of seat_of_agent1 hands))%list /\
      cumulative' !! agent2
      = Some (l2 ++ t2 :: running_sums t2 (payoffs_of seat_of_agent2 hands))%list.
Proof.
  intros Hne Hall. induction Hall as [|h hands [S1 S2] _ IH];
    intros cumulative l1 l2 t1 t2 H1 H2.
  - exists cumulative. split; [reflexivity|]. split; assumption.
  - cbn [ResultsAnalyzer.extend_curves]. unfold ResultsAnalyzer.extend_curve.
    unfold getitem. rewrite H1. cbn [mbind result_bind].
    rewrite list_getitem_last. cbn [mbind result_bind]. rewrite S1.
    cbn [mbind result_bind].
    rewrite lookup_insert_ne by congruence. rewrite H2.
    cbn [mbind result_bind].
    rewrite list_getitem_last. cbn [mbind result_bind]. rewrite S2.
    cbn [mbind result_bind].
    match goal with
    | |- context [ResultsAnalyzer.extend_curves hands agent1 agent2 ?c] =>
        destruct (IH c (l1 ++ [t1])%list (l2 ++ [t2])%list
                    (t1 + payoff_at h (seat_of_agent1 (hand_id h)))
                    (t2 + payoff_at h (seat_of_agent2 (hand_id h))))
          as (cum' & -> & E1 & E2)
    end.
    + rewrite lookup_insert_ne by congruence. apply lookup_insert_eq.
    + apply lookup_insert_eq.
    + exists cum'. split; [reflexivity|].
      cbn [payoffs_of map running_sums].
      fold (payoffs_of seat_of_agent1 hands). fold (payoffs_of seat_of_agent2 hands).
      rewrite E1, E2, <- !app_assoc. split; reflexivity.
Qed.

Section AnalyzerCurves.
Context {G : Type} `{PyRandom G} {M : Type}.

Lemma tournament_loop_played (agent1 agent2 : BaseAgent G M) (n : nat) :
  forall (hand_num : Z) profits ct hands (w : G * M) profits' ct' hands' w',
    tournament_loop agent1 agent2 n hand_num (profits, ct, hands) w
    = Ok (profits', ct', hands', w') ->
    exists played,
      hands' = (hands ++ played)%list /\ length played = n /\
      Forall (fun h => exists w0 w1,
                play_hand (seating agent1 agent2 (hand_id h)) (hand_id h) w0
                = Ok (h, w1)) played.
Proof.
  induction n as [|n IH];
    intros hand_num profits ct hands w profits' ct' hands' w' Hl.
  - injection Hl as <- <- <- <-. exists []. rewrite app_nil_r.
    split; [reflexivity|]. split; [reflexivity | constructor].
  - cbn [tournament_loop] in Hl. inv_bind Hl.
    destruct x as [[[profits1 ct1] hands1] w1].
    apply tournament_hand_inv in Hx as (hand & Hh & _ & _ & ->).
    destruct (IH _ _ _ _ _ _ _ _ _ Hl) as (played & -> & Hlen & Hall).
    exists (hand :: played). rewrite <- app_assoc.
    split; [reflexivity|]. split; [simpl; rewrite Hlen; reflexivity|].
    constructor; [|exact Hall].
    destruct (play_hand_payoffs _ _ _ _ _ Hh) as (-> & _). eauto.
Qed.

Lemma played_seats_found (agent1 agent2 : BaseAgent G M) (hand_num : Z)
    (w w' : G * M) (hand : HandResult) :
  name agent1 <> name agent2 -> name agent1 <> "" -> name agent2 <> "" ->
  play_hand (seating agent1 agent2 hand_num) hand_num w = Ok (hand, w') ->
  seats_found (name agent1) (name agent2) hand /\
  payoff_at hand (seat_of_agent1 (hand_id hand))
  + payoff_at hand (seat_of_agent2 (hand_id hand)) = 0.
Proof.
  intros Hne Hn1 Hn2 Hh.
  destruct (play_hand_payoffs _ _ _ _ _ Hh) as (Hid & v0 & v1 & Hpay & Hv).
  destruct (hand_records_names _ _ _ _ _ _ Hh)
    as (_ & r0 & r1 & rest & Hacts & P0 & P1 & Hnames & Hrest).
  split.
  - unfold seats_found, ResultsAnalyzer.agent_positions.
    rewrite Hacts, Hid. cbn [fold_left]. rewrite P0, P1.
    unfold seat_of_agent2, seat_of_agent1.
    apply String.eqb_neq in Hn1, Hn2.
    destruct Hnames as [(E0 & E1 & E) | (E0 & E1 & E)]; rewrite E0, E1 in *.
    + rewrite Hn1, Hn2. cbn [negb].
      rewrite agent_positions_rest with (a0 := name agent1);
        [| exact Hrest
         | rewrite lookup_insert_ne by congruence; apply lookup_insert_eq].
      apply Z.eqb_eq in E. rewrite E. cbn.
      rewrite lookup_insert_ne by congruence.
      rewrite !lookup_insert_eq. split; reflexivity.
    + rewrite Hn1, Hn2. cbn [negb].
      rewrite agent_positions_rest with (a0 := name agent2);
        [| exact Hrest
         | rewrite lookup_insert_ne by congruence; apply lookup_insert_eq].
      apply Z.eqb_neq in E. rewrite E. cbn.
      rewrite lookup_insert_eq. rewrite lookup_insert_ne by congruence.
      rewrite lookup_insert_eq. split; reflexivity.
  - unfold payoff_at, seat_of_agent2, seat_of_agent1. rewrite Hpay.
    destruct (hand_id hand mod 2 =? 0); simpl; lia.
Qed.

End AnalyzerCurves.

Section AnalyzerCurves2.
Context {G : Type} `{PyRandom G} {M : Type}.

(** X13: the curves of cumulative profit the analyzer draws from the log
    of a tournament.  For two agents with different names, neither empty,
    [_calculate_cumulative_profit] returns on the hands the tournament has
    logged; the curve of each agent starts at 0 and holds, hand after hand, the
    running total of the payoffs of the seat the agent had; both curves have
    one point more than there are hands; at every point the two curves add up
    to zero; and each curve ends at the profit the tournament returns for the
    agent. *)
Theorem analyzer_cumulative_profit (agent1 agent2 : BaseAgent G M) (n : nat)
    (w w' : G * M) (results : TournamentResults) :
  name agent1 <> name agent2 -> name agent1 <> "" -> name agent2 <> "" ->
  run_tournament agent1 agent2 n [] w = Ok (results, w') ->
  exists (cumulative : gmap string (list Z)) (curve1 curve2 : list Z),
    ResultsAnalyzer._calculate_cumulative_profit
      (logger results) (name agent1) (name agent2) = Ok cumulative /\
    cumulative !! name agent1 = Some curve1 /\
    cumulative !! name agent2 = Some curve2 /\
    curve1 = 0 :: running_sums 0 (payoffs_of seat_of_agent1 (logger results)) /\
    curve2 = 0 :: running_sums 0 (payoffs_of seat_of_agent2 (logger results)) /\
    length curve1 = S n /\ length curve2 = S n /\
    (forall (k : nat) (x y : Z),
       curve1 !! k = Some x -> curve2 !! k = Some y -> x + y = 0) /\
    profits results !! name agent1 = last curve1 /\
    profits results !! name agent2 = last curve2.
Proof.
  intros Hne Hn1 Hn2 Hrun. unfold run_tournament in Hrun. inv_bind Hrun.
  destruct x as [[[profits' ct'] hands'] w1].
  destruct (Nat.eqb_spec n 0) as [|Hn]; [discriminate|].
  injection Hrun as <- _. cbn [logger profits].
  unfold tournament_init in Hx.
  destruct (tournament_loop_played _ _ _ _ _ _ _ _ _ _ _ _ Hx)
    as (played & -> & Hlen & Hall).
  assert (I1 : (<[name agent2 := 0]> (<[name agent1 := 0]> ∅) : gmap string Z)
               !! name agent1 = Some 0)
    by (rewrite lookup_insert_ne by congruence; apply lookup_insert_eq).
  assert (I2 : (<[name agent2 := 0]> (<[name agent1 := 0]> ∅) : gmap string Z)
               !! name agent2 = Some 0) by apply lookup_insert_eq.
  destruct (tournament_loop_profits agent1 agent2 n Hne _ _ _ _ _ 0 0 _ _ _ _
              I1 I2 Hx)
    as (played' & Hplayed & _ & P1 & P2 & _).
  cbn [app] in Hplayed |- *. subst played'.
  assert (Hseats : Forall (seats_found (name agent1) (name agent2)) played).
  { eapply Forall_impl; [exact Hall|]. intros h (w0 & w2 & Hh).
    apply (played_seats_found agent1 agent2 _ _ _ _ Hne Hn1 Hn2 Hh). }
  assert (Hzero : Forall2 (fun x y => x + y = 0)
                    (payoffs_of seat_of_agent1 played)
                    (payoffs_of seat_of_agent2 played)).
  { unfold payoffs_of. apply Forall2_fmap, Forall_Forall2_diag.
    eapply Forall_impl; [exact Hall|]. intros h (w0 & w2 & Hh).
    apply (played_seats_found agent1 agent2 _ _ _ _ Hne Hn1 Hn2 Hh). }
  destruct (extend_curves_spec (name agent1) (name agent2) played Hne Hseats
              (<[name agent2 := [0]]> (<[name agent1 := [0]]> ∅)) [] [] 0 0)
    as (cum & Hcum & E1 & E2).
  { rewrite lookup_insert_ne by congruence. apply lookup_insert_eq. }
  { apply lookup_insert_eq. }
  cbn [app] in E1, E2.
  exists cum. do 2 eexists.
  split; [exact Hcum|]. split; [exact E1|]. split; [exact E2|].
  split; [reflexivity|]. split; [reflexivity|].
  split; [cbn [length]; rewrite running_sums_length; unfold payoffs_of;
          rewrite length_map, Hlen; reflexivity|].
  split; [cbn [length]; rewrite running_sums_length; unfold payoffs_of;
          rewrite length_map, Hlen; reflexivity|].
  split; [intros k x y; apply (running_sums_zero_sum _ _ Hzero); reflexivity|].
  rewrite !running_sums_last, P1, P2. split; reflexivity.
Qed.

End AnalyzerCurves2.

Lemma analyzer_cumulative_profit_witness :
  exists results w',
    run_tournament gto1 gto2 4 [] (3, tt) = Ok (results, w') /\
    exists (cumulative : gmap string (list Z)) (curve1 curve2 : list Z),
      ResultsAnalyzer._calculate_cumulative_profit
        (logger results) (name gto1) (name gto2) = Ok cumulative /\
      cumulative !! name gto1 = Some curve1 /\
      cumulative !! name gto2 = Some curve2 /\
      length curve1 = 5%nat /\ length curve2 = 5%nat /\
      profits results !! name gto1 = last curve1 /\
      profits results !! name gto2 = last curve2.
Proof.
  destruct (run_tournament gto1 gto2 4 [] (3, tt)) as [[results w']|e] eqn:Hrun.
  - exists results, w'. split; [reflexivity|].
    destruct (analyzer_cumulative_profit gto1 gto2 4 (3, tt) w' results)
      as (cum & c1 & c2 & H1 & H2 & H3 & _ & _ & H4 & H5 & _ & H6 & H7);
      [discriminate | discriminate | discriminate | exact Hrun |].
    exists cum, c1, c2. repeat (split; [assumption|]). assumption.
  - vm_compute in Hrun. discriminate Hrun.
Defined.

(** ** The human-like agent *)

Lemma observe_window (h : list string) (a : string) :
  (length h <= 20)%nat ->
  HumanLikeAgent.observe h a
  = drop (length (h ++ [a]) - 20) (h ++ [a])%list /\
  (length (HumanLikeAgent.observe h a) <= 20)%nat.
Proof.
  intros Hlen. unfold HumanLikeAgent.observe.
  rewrite length_app. cbn [length].
  destruct (Nat.ltb_spec 20 (length h + 1)) as [Hgt|Hle].
  - replace (length h + 1 - 20)%nat with 1%nat by lia.
    split; [reflexivity|].
    destruct h as [|x h]; cbn [app tail length] in *; [lia|].
    rewrite length_app. cbn [length]. lia.
  - replace (length h + 1 - 20)%nat with 0%nat by lia.
    split; [reflexivity|]. rewrite length_app. cbn [length]. lia.
Qed.

(** X14: the window of the human-like agent.  Starting from at most 20
    kept actions, after any number of observations the agent keeps the last 20
    of all the actions (those kept at the start followed by the observed ones),
    in their order, and never more than 20; after [reset] it keeps the last 20
    of the observed ones. *)
Theorem recent_history_window (h acts : list string) :
  (length h <= 20)%nat ->
  fold_left HumanLikeAgent.observe acts h
  = drop (length (h ++ acts) - 20) (h ++ acts)%list /\
  (length (fold_left HumanLikeAgent.observe acts h) <= 20)%nat /\
  fold_left HumanLikeAgent.observe acts HumanLikeAgent.reset
  = drop (length acts - 20) acts.
Proof.
  assert (Hgen : forall acts h, (length h <= 20)%nat ->
            fold_left HumanLikeAgent.observe acts h
            = drop (length (h ++ acts) - 20) (h ++ acts)%list).
  { clear. intros acts. induction acts as [|a acts IH]; intros h Hlen.
    - cbn [fold_left]. rewrite app_nil_r.
      replace (length h - 20)%nat with 0%nat by lia. reflexivity.
    - cbn [fold_left].
      destruct (observe_window h a Hlen) as [Eobs Hlen'].
      rewrite (IH _ Hlen'). rewrite Eobs at 2.
      assert (Hk : (length (h ++ [a]) - 20 <= length (h ++ [a]))%nat) by lia.
      rewrite <- (drop_app_le _ acts _ Hk), drop_drop, <- app_assoc.
      cbn [app]. f_equal.
      rewrite Eobs, !length_app, length_drop, length_app. cbn [length].
      rewrite length_app in Hk. cbn [length] in Hk. lia. }
  intros Hlen. split; [apply Hgen; exact Hlen|]. split.
  - rewrite (Hgen acts h Hlen), length_drop. lia.
  - unfold HumanLikeAgent.reset. rewrite (Hgen acts []); [reflexivity|].
    cbn. lia.
Qed.

Lemma recent_history_window_witness :
  fold_left HumanLikeAgent.observe ["BET"; "CALL"] ["CHECK"]
  = drop (length (["CHECK"] ++ ["BET"; "CALL"]) - 20)
         (["CHECK"] ++ ["BET"; "CALL"])%list.
Proof.
  apply (proj1 (recent_history_window ["CHECK"] ["BET"; "CALL"] ltac:(simpl; lia))).
Defined.

Section HumanLikeProofs.
Context {G : Type} `{PyRandom G} {M : Type}.
Variable get_recent : M -> list string.
Variable set_recent : list string -> M -> M.
Variable llm :
  string -> string -> list string -> Z -> string -> G * M ->
  HumanLikeAgent.LLMOutcome.

Lemma human_like_choice (state : GameState) (a0 : string) (rest : list string)
    (player_position : Z) (w : G * M) (c : string) :
  cards state !! player_position = Some c ->
  exists a,
    HumanLikeAgent._choose_action_with_llm get_recent llm state (a0 :: rest)
      player_position w = Ok a /\
    a ∈ a0 :: rest /\
    (a = a0 \/
     llm c (get_betting_string state) (a0 :: rest) (pot state)
         (HumanLikeAgent._format_recent_history (get_recent w.2)) w
     = HumanLikeAgent.Answered a).
Proof.
  intros Ec. unfold HumanLikeAgent._choose_action_with_llm, getitem.
  rewrite Ec. cbn [mbind result_bind].
  destruct (llm c _ _ _ _ w) as [a| |] eqn:El.
  - destruct (str_in a (a0 :: rest)) eqn:Hin.
    + exists a. split; [reflexivity|]. split; [|right; reflexivity].
      apply str_in_elem_of. exact Hin.
    + exists a0. split; [reflexivity|]. split; [left | left; reflexivity].
  - exists a0. split; [reflexivity|]. split; [left | left; reflexivity].
  - exists a0. split; [reflexivity|]. split; [left | left; reflexivity].
Qed.

Lemma human_like_plays_legally (nm : string) :
  plays_legally (HumanLikeAgent.new get_recent set_recent llm nm).
Proof.
  split; [|split].
  - intros s legal w Hr Ht Hl. cbn [choose_action HumanLikeAgent.new].
    pose proof (reachable_conforming s Hr) as Hc.
    destruct (conforming_card_to_act s Hc) as (c & Ec & _).
    destruct (reachable_two_actions s Hr Ht) as (x & y & _ & Hxy).
    rewrite Hxy in Hl. injection Hl as <-.
    destruct (human_like_choice s x [y] (current_player s) w c Ec)
      as (a & -> & Ha & _).
    cbn [mbind result_bind]. eauto.
  - intros. cbn. eauto.
  - intros. cbn. eauto.
Qed.

(** X15: whatever the API answers, the human-like agent plays by the
    rules.  [_choose_action_with_llm] raises the key error when the seat has
    no card.  Otherwise, when the answer holds an action that is legal, it
    returns that action; in every other case (an answer with an action that is
    not legal, an answer that does not parse, a failed call) it returns the
    first legal action, and raises the index error when there is none.  So the
    agent returns a legal action at every decision of a hand, and a tournament
    between a human-like agent and a GTO agent runs to its end. *)
Theorem human_like_choose_action (nm : string) (state : GameState)
    (legal_actions : list string) (player_position : Z) (w : G * M) :
  (cards state !! player_position = None ->
   HumanLikeAgent._choose_action_with_llm get_recent llm state legal_actions
     player_position w = Raise KeyError) /\
  (forall c, cards state !! player_position = Some c ->
     let outcome :=
       llm c (get_betting_string state) legal_actions (pot state)
           (HumanLikeAgent._format_recent_history (get_recent w.2)) w in
     (forall act, outcome = HumanLikeAgent.Answered act -> act ∈ legal_actions ->
        HumanLikeAgent._choose_action_with_llm get_recent llm state
          legal_actions player_position w = Ok act) /\
     ((forall act, outcome = HumanLikeAgent.Answered act -> act ∉ legal_actions) ->
      (legal_actions = [] ->
       HumanLikeAgent._choose_action_with_llm get_recent llm state
         legal_actions player_position w = Raise IndexError) /\
      (forall a0 rest, legal_actions = a0 :: rest ->
         HumanLikeAgent._choose_action_with_llm get_recent llm state
           legal_actions player_position w = Ok a0))) /\
  plays_legally (HumanLikeAgent.new get_recent set_recent llm nm) /\
  (randbelow_in_range ->
   forall (gto : string) (n : nat) (hands : list HandResult),
     (0 < n)%nat ->
     exists results w',
       run_tournament (HumanLikeAgent.new get_recent set_recent llm nm)
                      (GTOAgent.new gto) n hands w = Ok (results, w')).
Proof.
  split; [|split; [|split]].
  - intros Ec. unfold HumanLikeAgent._choose_action_with_llm, getitem.
    rewrite Ec. reflexivity.
  - intros c Ec outcome. subst outcome.
    unfold HumanLikeAgent._choose_action_with_llm, getitem.
    rewrite Ec. cbn [mbind result_bind]. split.
    + intros act -> Hact. apply str_in_elem_of in Hact. rewrite Hact.
      reflexivity.
    + intros Hnot.
      assert (Hfall :
        match llm c (get_betting_string state) legal_actions (pot state)
                (HumanLikeAgent._format_recent_history (get_recent w.2)) w with
        | HumanLikeAgent.Answered action =>
            if str_in action legal_actions then Ok action
            else list_getitem legal_actions 0
        | _ => list_getitem legal_actions 0
        end = list_getitem legal_actions 0).
      { destruct (llm c _ _ _ _ w) as [act| |] eqn:El; try reflexivity.
        destruct (str_in act legal_actions) eqn:Hin; [|reflexivity].
        apply str_in_elem_of in Hin. destruct (Hnot act eq_refl Hin). }
      rewrite Hfall. split.
      * intros ->. reflexivity.
      * intros a0 rest ->. reflexivity.
  - apply human_like_plays_legally.
  - intros Hrange gto n hands Hn.
    destruct (tournament_loop_returns
                (HumanLikeAgent.new get_recent set_recent llm nm)
                (GTOAgent.new gto) n Hrange (human_like_plays_legally nm)
                (gto_plays_legally gto) 0
                (tournament_init (HumanLikeAgent.new get_recent set_recent llm nm)
                                 (GTOAgent.new gto) hands).1.1
                (tournament_init (HumanLikeAgent.new get_recent set_recent llm nm)
                                 (GTOAgent.new gto) hands).1.2
                hands (KuhnPokerGame.__init__ None w.1, w.2))
      as (profits' & counts' & played & w' & Hl & _).
    + apply tournament_init_ready.
    + apply tournament_init_ready.
    + unfold run_tournament.
      change (tournament_init (HumanLikeAgent.new get_recent set_recent llm nm)
                (GTOAgent.new gto) hands)
        with ((tournament_init (HumanLikeAgent.new get_recent set_recent llm nm)
                 (GTOAgent.new gto) hands).1.1,
              (tournament_init (HumanLikeAgent.new get_recent set_recent llm nm)
                 (GTOAgent.new gto) hands).1.2, hands).
      rewrite Hl. cbn [mbind result_bind].
      destruct (Nat.eqb_spec n 0) as [->|_]; [lia|]. eauto.
Qed.

End HumanLikeProofs.

Lemma human_like_choose_action_witness :
  HumanLikeAgent._choose_action_with_llm (G := Z) (M := list string)
    (fun m => m) (fun _ _ _ _ _ _ => HumanLikeAgent.Answered "BET")
    hand_start ["CHECK"; "BET"] 0 (0, []) = Ok "BET" /\
  HumanLikeAgent._choose_action_with_llm (G := Z) (M := list string)
    (fun m => m) (fun _ _ _ _ _ _ => HumanLikeAgent.Answered "FOLD")
    hand_start ["CHECK"; "BET"] 0 (0, []) = Ok "CHECK" /\
  exists results w',
    run_tournament human_like (GTOAgent.new "GTO") 2 [] (0, [])
    = Ok (results, w').
Proof.
  split; [|split].
  - apply (proj1 (proj1 (proj2
             (human_like_choose_action (G := Z) (M := list string)
                (fun m => m) (fun h _ => h)
                (fun _ _ _ _ _ _ => HumanLikeAgent.Answered "BET")
                "HumanLike" hand_start ["CHECK"; "BET"] 0 (0, []))) "K" eq_refl)
             "BET" eq_refl).
    rewrite !elem_of_cons. auto.
  - apply (proj2 (proj2 (proj1 (proj2
             (human_like_choose_action (G := Z) (M := list string)
                (fun m => m) (fun h _ => h)
                (fun _ _ _ _ _ _ => HumanLikeAgent.Answered "FOLD")
                "HumanLike" hand_start ["CHECK"; "BET"] 0 (0, []))) "K" eq_refl)
             ltac:(intros act [= <-]; rewrite !elem_of_cons, elem_of_nil;
                   intros [E | [E | []]]; discriminate E))
             "CHECK" ["BET"] eq_refl).
  - apply (proj2 (proj2 (proj2
             (human_like_choose_action (G := Z) (M := list string)
                (fun m => m) (fun h _ => h)
                (fun _ _ _ _ _ _ => HumanLikeAgent.Unparsed)
                "HumanLike" hand_start [] 0 (0, []))))).
    + exact counter_randbelow_in_range.
    + lia.
Defined.

Lemma cards_items_dealt (c0 c1 : string) :
  ResultsAnalyzer.cards_items (<[1 := c1]> (<[0 := c0]> ∅)) = [(0, c0); (1, c1)].
Proof. vm_compute. reflexivity. Qed.

Lemma card_total_insert (f : ResultsAnalyzer.CardStats -> Z)
    (cs : gmap string ResultsAnalyzer.CardStats) (c : string)
    (s' : ResultsAnalyzer.CardStats) :
  c ∈ KuhnPokerGame.CARDS ->
  card_total f (<[c := s']> cs)
  = card_total f cs - match cs !! c with Some s => f s | None => 0 end + f s'.
Proof.
  unfold card_total, KuhnPokerGame.CARDS. rewrite !elem_of_cons, elem_of_nil.
  intros [-> | [-> | [-> | []]]]; cbn [foldr];
    rewrite lookup_insert_eq;
    repeat (rewrite lookup_insert_ne by discriminate);
    destruct (cs !! "J"), (cs !! "Q"), (cs !! "K"); cbv beta iota; lia.
Qed.

Lemma card_total_fmap (f : ResultsAnalyzer.CardStats -> Z)
    (g : ResultsAnalyzer.CardStats -> ResultsAnalyzer.CardStats)
    (cs : gmap string ResultsAnalyzer.CardStats) :
  (forall s, f (g s) = f s) ->
  card_total f (g <$> cs) = card_total f cs.
Proof.
  intros Hf. unfold card_total, KuhnPokerGame.CARDS. cbn [foldr].
  rewrite !lookup_fmap.
  destruct (cs !! "J"), (cs !! "Q"), (cs !! "K"); cbn; rewrite ?Hf; reflexivity.
Qed.

Lemma count_card_counted (hand : HandResult) (pos : Z) (c : string)
    (H W P : Z) (cs : gmap string ResultsAnalyzer.CardStats) :
  c ∈ KuhnPokerGame.CARDS -> -2 <= payoff_at hand pos <= 2 ->
  counted H W P cs ->
  counted (H + 1) (W + if 0 <? payoff_at hand pos then 1 else 0)
          (P + payoff_at hand pos)
          (ResultsAnalyzer.count_card hand cs (pos, c)).
Proof.
  intros Hc Hpay (Hkeys & HH & HW & HP & Hentry).
  unfold ResultsAnalyzer.count_card.
  set (stats := default (ResultsAnalyzer.mkCardStats 0 0 0 None None) (cs !! c)).
  assert (Hstats : 0 <= ResultsAnalyzer.hands stats /\
                   0 <= ResultsAnalyzer.won stats <= ResultsAnalyzer.hands stats /\
                   Z.abs (ResultsAnalyzer.profit stats)
                   <= 2 * ResultsAnalyzer.hands stats /\
                   ResultsAnalyzer.win_rate stats = None /\
                   ResultsAnalyzer.avg_profit stats = None /\
                   (forall f, f (ResultsAnalyzer.mkCardStats 0 0 0 None None) = 0 ->
                      match cs !! c with Some s => f s | None => 0 end = f stats)).
  { unfold stats. destruct (cs !! c) as [s|] eqn:E; cbn.
    - destruct (Hentry c s E) as (H1 & H2 & H3 & H4 & H5).
      repeat split; try assumption; try lia.
    - repeat split; lia || reflexivity. }
  destruct Hstats as (Hh & Hw & Hpr & Hr1 & Hr2 & Hdef).
  split; [|split; [|split; [|split]]].
  - intros c' [s Hs]. destruct (decide (c' = c)) as [->|Hne]; [exact Hc|].
    rewrite lookup_insert_ne in Hs by congruence. apply Hkeys. eauto.
  - rewrite (card_total_insert _ _ _ _ Hc), HH.
    rewrite (Hdef ResultsAnalyzer.hands eq_refl). cbn. lia.
  - rewrite (card_total_insert _ _ _ _ Hc), HW.
    rewrite (Hdef ResultsAnalyzer.won eq_refl). cbn.
    destruct (0 <? payoff_at hand pos); lia.
  - rewrite (card_total_insert _ _ _ _ Hc), HP.
    rewrite (Hdef ResultsAnalyzer.profit eq_refl). cbn. lia.
  - intros c' s Hs. destruct (decide (c' = c)) as [->|Hne].
    + rewrite lookup_insert_eq in Hs. injection Hs as <-. cbn.
      destruct (0 <? payoff_at hand pos); repeat split; try assumption; lia.
    + rewrite lookup_insert_ne in Hs by congruence. eapply Hentry. exact Hs.
Qed.

Lemma count_cards_counted (played : list HandResult) :
  Forall dealt_and_paid played ->
  forall (k : Z) (cs : gmap string ResultsAnalyzer.CardStats),
    counted (2 * k) k 0 cs ->
    counted (2 * (k + Z.of_nat (length played))) (k + Z.of_nat (length played)) 0
      (fold_left (fun card_stats hand =>
                    fold_left (ResultsAnalyzer.count_card hand)
                      (ResultsAnalyzer.cards_items (hand_cards hand)) card_stats)
                 played cs).
Proof.
  induction 1 as [|h played (c0 & c1 & v0 & v1 & Ec & H0 & H1 & Ep & Hv & Hnz & Hb) _ IH];
    intros k cs Hcs.
  - cbn [fold_left length]. replace (k + Z.of_nat 0) with k by lia. exact Hcs.
  - cbn [fold_left length]. rewrite Ec, cards_items_dealt. cbn [fold_left].
    replace (k + Z.of_nat (S (length played)))
      with ((k + 1) + Z.of_nat (length played)) by lia.
    apply IH.
    assert (E0 : payoff_at h 0 = v0) by (unfold payoff_at; rewrite Ep; reflexivity).
    assert (E1 : payoff_at h 1 = v1) by (unfold payoff_at; rewrite Ep; reflexivity).
    pose proof (count_card_counted h 0 c0 _ _ _ _ H0 ltac:(lia) Hcs) as Hs0.
    pose proof (count_card_counted h 1 c1 _ _ _ _ H1 ltac:(lia) Hs0) as Hs1.
    rewrite E0, E1 in Hs1.
    replace (2 * (k + 1)) with (2 * k + 1 + 1) by lia.
    replace (k + 1) with (k + (if 0 <? v0 then 1 else 0) + (if 0 <? v1 then 1 else 0)).
    + replace 0 with (0 + v0 + v1) at 5 by lia. exact Hs1.
    + destruct (Z.ltb_spec 0 v0), (Z.ltb_spec 0 v1); lia.
Qed.

Lemma terminal_payoff_nonzero (s : GameState) (v0 : Z) :
  reachable s -> is_terminal s = true ->
  KuhnPokerGame.get_payoff s 0 = Ok v0 -> v0 <> 0 /\ -2 <= v0 <= 2.
Proof.
  intros Hr Ht H0.
  destruct (terminal_payoffs_outcome s Hr Ht) as (c0 & c1 & _ & _ & Hfold & Hshow).
  destruct (reachable_conforming s Hr) as [_ Hsh _ _]. rewrite Ht in Hsh.
  destruct (decide (last (betting_history s) = Some "FOLD")) as [E|E].
  - destruct (Hfold E) as [F1 F2].
    inversion Hsh;
      match goal with
      | Hh : _ = betting_history s |- _ => rewrite <- Hh in E
      end; try discriminate E;
      match goal with
      | Hc : _ = current_player s |- _ => rewrite <- Hc in F1, F2
      end;
      change (1 - 1) with 0 in F2; change (1 - 0) with 1 in F2;
      first [ rewrite H0 in F1; injection F1 as F1; lia
            | rewrite H0 in F2; injection F2 as F2; lia ].
  - destruct (Hshow E) as [S1 S2]. cbv zeta in S1, S2.
    destruct (outranks c0 c1);
      change (1 - 1) with 0 in S2; change (1 - 0) with 1 in S2;
      destruct (str_in "CALL" (betting_history s));
      first [ rewrite H0 in S1; injection S1 as S1; lia
            | rewrite H0 in S2; injection S2 as S2; lia ].
Qed.

Lemma quotient_exponent_le (n d : Z) :
  0 < n -> 0 < d -> n <= 2 * d -> quotient_exponent n d <= 1.
Proof.
  intros Hn Hd Hnd. unfold quotient_exponent.
  assert (Z.log2 n <= Z.log2 d + 1).
  { pose proof (Z.log2_le_mono n (2 * d) Hnd) as Hmono.
    rewrite Z.log2_double in Hmono by lia. lia. }
  destruct (if 0 <=? _ then _ else _); lia.
Qed.

Lemma rounded_quotient_le (n d k : Z) :
  0 < n -> 0 < d -> n <= 2 * d -> k < 0 ->
  0 <= rounded_quotient n d k <= 2 ^ (1 - k) + 1.
Proof.
  intros Hn Hd Hnd Hk. unfold rounded_quotient.
  assert (E : (0 <=? k) = false) by (apply Z.leb_gt; lia). rewrite E.
  assert (Hp : 0 < 2 ^ (- k)) by (apply Z.pow_pos_nonneg; lia).
  assert (Hq : 0 <= n * 2 ^ (- k) / d <= 2 ^ (1 - k)).
  { split; [apply Z.div_pos; nia|].
    replace (2 ^ (1 - k)) with (2 * 2 ^ (- k))
      by (rewrite <- Z.pow_succ_r by lia; f_equal; lia).
    rewrite <- (Z.div_mul (2 * 2 ^ (- k)) d) by lia.
    apply Z.div_le_mono; nia. }
  destruct (_ || _); lia.
Qed.

Lemma int_truediv_small (a b : Z) :
  0 < b -> Z.abs a <= 2 * b -> exists x, int_truediv a b = Ok x.
Proof.
  intros Hb Hab. unfold int_truediv.
  assert (E : (b =? 0) = false) by (apply Z.eqb_neq; lia). rewrite E.
  destruct (Z.eqb_spec a 0) as [|Ha]; [eauto|]. cbv zeta.
  rewrite (Z.abs_eq b) by lia.
  pose proof (quotient_exponent_le (Z.abs a) b ltac:(lia) Hb Hab) as He.
  set (k := Z.max (quotient_exponent (Z.abs a) b - 52) (-1074)).
  assert (Hk : k < 0) by lia.
  pose proof (rounded_quotient_le (Z.abs a) b k ltac:(lia) Hb Hab Hk) as Hm.
  set (m := rounded_quotient (Z.abs a) b k) in *.
  assert (Hlog : Z.log2 m <= 2 - k).
  { destruct (Z.eq_dec m 0) as [->|Hm0]; [cbn; lia|].
    apply Z.lt_le_incl, Z.log2_lt_pow2; [lia|].
    assert (2 ^ (1 - k) + 1 < 2 ^ (2 - k)); [|lia].
    replace (2 - k) with (Z.succ (1 - k)) by lia.
    rewrite Z.pow_succ_r by lia.
    assert (1 < 2 ^ (1 - k)) by (apply Z.pow_gt_1; lia). lia. }
  assert (E' : (1024 <? k + Z.log2 m + 1) = false) by (apply Z.ltb_ge; lia).
  rewrite E'. eauto.
Qed.

Lemma set_rates_counted (s : ResultsAnalyzer.CardStats) :
  0 < ResultsAnalyzer.hands s ->
  0 <= ResultsAnalyzer.won s <= ResultsAnalyzer.hands s ->
  Z.abs (ResultsAnalyzer.profit s) <= 2 * ResultsAnalyzer.hands s ->
  exists rate avg,
    int_truediv (ResultsAnalyzer.won s) (ResultsAnalyzer.hands s) = Ok rate /\
    int_truediv (ResultsAnalyzer.profit s) (ResultsAnalyzer.hands s) = Ok avg /\
    ResultsAnalyzer.set_rates s
    = Ok (ResultsAnalyzer.mkCardStats (ResultsAnalyzer.hands s)
            (ResultsAnalyzer.won s) (ResultsAnalyzer.profit s)
            (Some rate) (Some avg)).
Proof.
  intros Hh Hw Hp.
  destruct (int_truediv_small (ResultsAnalyzer.won s) (ResultsAnalyzer.hands s))
    as [rate Hrate]; [lia | lia |].
  destruct (int_truediv_small (ResultsAnalyzer.profit s) (ResultsAnalyzer.hands s))
    as [avg Havg]; [lia | lia |].
  exists rate, avg. split; [exact Hrate|]. split; [exact Havg|].
  unfold ResultsAnalyzer.set_rates.
  apply Z.ltb_lt in Hh. rewrite Hh, Hrate, Havg. reflexivity.
Qed.

Lemma set_all_rates_Ok (rated : ResultsAnalyzer.CardStats -> ResultsAnalyzer.CardStats)
    (items : list (string * ResultsAnalyzer.CardStats)) :
  Forall (fun item => ResultsAnalyzer.set_rates item.2 = Ok (rated item.2)) items ->
  ResultsAnalyzer.set_all_rates items = Ok (prod_map id rated <$> items).
Proof.
  unfold ResultsAnalyzer.set_all_rates.
  induction 1 as [|[c s] items Hs _ IH]; [reflexivity|].
  cbn [mapM]. cbn [snd] in Hs. cbn [fst snd]. rewrite Hs.
  cbn [mbind result_bind]. rewrite IH. reflexivity.
Qed.

Section CardStatistics.
Context {G : Type} `{PyRandom G} {M : Type}.
Implicit Types (agents : gmap Z (BaseAgent G M)) (w : G * M).

Lemma play_loop_reachable (fuel : nat) agents s acts w s' acts' w' :
  reachable s ->
  play_loop fuel agents s acts w = Some (Ok (s', acts', w')) ->
  reachable s' /\ is_terminal s' = true.
Proof.
  revert s acts w; induction fuel as [|fuel IH]; intros s acts w Hr Hl;
    [discriminate|].
  cbn [play_loop] in Hl. destruct (is_terminal s) eqn:Ht.
  - injection Hl as <- _ _. auto.
  - destruct (play_turn agents s acts w) as [[[s1 acts1] w1]|e] eqn:Hturn;
      [|discriminate].
    destruct (play_turn_applies _ _ _ _ _ _ _ Hturn) as [a Ha].
    apply (IH s1 acts1 w1); [|exact Hl].
    eapply reachable_step; eassumption.
Qed.

Lemma played_dealt_and_paid agents (hand_num : Z) w hand w' :
  play_hand agents hand_num w = Ok (hand, w') -> dealt_and_paid hand.
Proof.
  intros Hh.
  destruct (play_hand_records _ _ _ _ _ Hh)
    as (_ & _ & _ & c0 & c1 & Ec & H0 & H1 & _).
  destruct (play_hand_payoffs _ _ _ _ _ Hh) as (_ & v0 & v1 & Ep & Hv).
  exists c0, c1, v0, v1. repeat (split; [assumption|]).
  destruct (play_hand_state _ _ _ _ _ Hh)
    as (s0 & s & g1 & p0 & p1 & acts & Hs0 & Hl & Hp0 & _ & ->).
  cbn [hand_payoffs] in Ep. injection Ep as <- <-.
  destruct (play_loop_reachable _ _ _ _ _ _ _ _ (reachable_start _ _ _ Hs0) Hl)
    as [Hr Ht].
  exact (terminal_payoff_nonzero s p0 Hr Ht Hp0).
Qed.

(** X16: the statistics by card the analyzer computes from the log of a
    tournament.  [_calculate_card_statistics] returns on it (no quotient
    overflows).  Only the three cards of the deck have an entry; over the
    cards, the hands seen add up to twice the number of hands of the
    tournament, the hands won to the number of hands (every hand is won by
    exactly one seat), and the profits to zero; every entry has seen a hand,
    has won no more hands than it has seen, has a profit of at most two chips
    a hand either way, and holds as its rates the quotients of its counters,
    as the division of integers rounds them. *)
Theorem analyzer_card_statistics (agent1 agent2 : BaseAgent G M) (n : nat)
    w w' (results : TournamentResults) :
  run_tournament agent1 agent2 n [] w = Ok (results, w') ->
  exists card_stats,
    ResultsAnalyzer._calculate_card_statistics (logger results) = Ok card_stats /\
    (forall c, is_Some (card_stats !! c) -> c ∈ KuhnPokerGame.CARDS) /\
    card_total ResultsAnalyzer.hands card_stats = 2 * Z.of_nat n /\
    card_total ResultsAnalyzer.won card_stats = Z.of_nat n /\
    card_total ResultsAnalyzer.profit card_stats = 0 /\
    forall c stats, card_stats !! c = Some stats ->
      0 < ResultsAnalyzer.hands stats /\
      0 <= ResultsAnalyzer.won stats <= ResultsAnalyzer.hands stats /\
      Z.abs (ResultsAnalyzer.profit stats) <= 2 * ResultsAnalyzer.hands stats /\
      exists rate avg,
        int_truediv (ResultsAnalyzer.won stats) (ResultsAnalyzer.hands stats)
        = Ok rate /\
        int_truediv (ResultsAnalyzer.profit stats) (ResultsAnalyzer.hands stats)
        = Ok avg /\
        ResultsAnalyzer.win_rate stats = Some rate /\
        ResultsAnalyzer.avg_profit stats = Some avg.
Proof.
  intros Hrun. unfold run_tournament in Hrun. inv_bind Hrun.
  destruct x as [[[profits' ct'] hands'] w1].
  destruct (n =? 0)%nat; [discriminate|].
  injection Hrun as <- _. cbn [logger].
  unfold tournament_init in Hx.
  destruct (tournament_loop_played _ _ _ _ _ _ _ _ _ _ _ _ Hx)
    as (played & -> & Hlen & Hall).
  cbn [app].
  assert (Hpaid : Forall dealt_and_paid played).
  { eapply Forall_impl; [exact Hall|]. intros h (w0 & w2 & Hh).
    exact (played_dealt_and_paid _ _ _ _ _ Hh). }
  assert (Hempty : counted (2 * 0) 0 0 (∅ : gmap string ResultsAnalyzer.CardStats)).
  { split; [|split; [|split; [|split]]]; try reflexivity.
    - intros c [s Hs]. rewrite lookup_empty in Hs. discriminate.
    - intros c s Hs. rewrite lookup_empty in Hs. discriminate. }
  pose proof (count_cards_counted played Hpaid 0 ∅ Hempty)
    as (Hkeys & HH & HW & HP & Hentry).
  fold (ResultsAnalyzer.count_cards played) in Hkeys, HH, HW, HP, Hentry.
  rewrite Hlen in HH, HW.
  set (rated := fun s : ResultsAnalyzer.CardStats =>
                  match ResultsAnalyzer.set_rates s with
                  | Ok s' => s'
                  | Raise _ => s
                  end).
  assert (Hfields : forall s,
            ResultsAnalyzer.hands (rated s) = ResultsAnalyzer.hands s /\
            ResultsAnalyzer.won (rated s) = ResultsAnalyzer.won s /\
            ResultsAnalyzer.profit (rated s) = ResultsAnalyzer.profit s).
  { intros s. unfold rated, ResultsAnalyzer.set_rates.
    destruct (0 <? ResultsAnalyzer.hands s); [|auto].
    destruct (int_truediv (ResultsAnalyzer.won s) _); [|auto].
    destruct (int_truediv (ResultsAnalyzer.profit s) _); cbn; auto. }
  assert (Hitems :
    ResultsAnalyzer.set_all_rates (map_to_list (ResultsAnalyzer.count_cards played))
    = Ok (prod_map id rated <$> map_to_list (ResultsAnalyzer.count_cards played))).
  { apply set_all_rates_Ok. apply Forall_forall. intros [c s] Hin.
    apply elem_of_map_to_list in Hin.
    destruct (Hentry c s Hin) as (H1 & H2 & H3 & _).
    destruct (set_rates_counted s H1 H2 H3) as (rate & avg & _ & _ & Hs).
    cbn [snd]. unfold rated. rewrite Hs. reflexivity. }
  exists (rated <$> ResultsAnalyzer.count_cards played).
  split.
  { unfold ResultsAnalyzer._calculate_card_statistics. rewrite Hitems.
    cbn [mbind result_bind]. f_equal.
    rewrite list_to_map_fmap, list_to_map_to_list. reflexivity. }
  split; [|split; [|split; [|split]]].
  - intros c [s Hs]. rewrite lookup_fmap in Hs. apply Hkeys.
    destruct (ResultsAnalyzer.count_cards played !! c); [eauto | discriminate].
  - rewrite card_total_fmap; [lia | intros s; apply Hfields].
  - rewrite card_total_fmap; [lia | intros s; apply Hfields].
  - rewrite card_total_fmap; [lia | intros s; apply Hfields].
  - intros c stats Hs. rewrite lookup_fmap in Hs.
    destruct (ResultsAnalyzer.count_cards played !! c) as [s|] eqn:Es;
      [|discriminate].
    cbn in Hs. injection Hs as <-.
    destruct (Hentry c s Es) as (H1 & H2 & H3 & _).
    destruct (set_rates_counted s H1 H2 H3) as (rate & avg & Hrate & Havg & Hs).
    unfold rated. rewrite Hs. cbn.
    split; [exact H1|]. split; [exact H2|]. split; [exact H3|].
    exists rate, avg. auto.
Qed.

End CardStatistics.

Lemma analyzer_card_statistics_witness :
  exists results w' card_stats,
    run_tournament gto1 gto2 4 [] (3, tt) = Ok (results, w') /\
    ResultsAnalyzer._calculate_card_statistics (logger results) = Ok card_stats /\
    card_total ResultsAnalyzer.hands card_stats = 2 * 4 /\
    card_total ResultsAnalyzer.won card_stats = 4 /\
    card_total ResultsAnalyzer.profit card_stats = 0.
Proof.
  destruct (run_tournament gto1 gto2 4 [] (3, tt)) as [[results w']|e] eqn:Hrun.
  - destruct (analyzer_card_statistics gto1 gto2 4 (3, tt) w' results Hrun)
      as (card_stats & H0 & _ & H1 & H2 & H3 & _).
    exists results, w', card_stats. split; [reflexivity|].
    split; [exact H0|]. split; [exact H1|]. split; [exact H2 | exact H3].
  - vm_compute in Hrun. discriminate Hrun.
Defined.

Section HumanLikeObserves.
Context {G : Type} `{PyRandom G} {M : Type}.
Variable get_recent : M -> list string.
Variable set_recent : list string -> M -> M.
Variable llm :
  string -> string -> list string -> Z -> string -> G * M ->
  HumanLikeAgent.LLMOutcome.
Hypothesis get_set : forall h m, get_recent (set_recent h m) = h.

Lemma play_turn_observes (agents : gmap Z (BaseAgent G M)) (p : Z)
    (nm gto : string) s acts (w : G * M) s' acts' w' :
  agents !! p = Some (HumanLikeAgent.new get_recent set_recent llm nm) ->
  agents !! (1 - p) = Some (GTOAgent.new gto) ->
  current_player s = p \/ current_player s = 1 - p ->
  p <> 1 - p ->
  play_turn agents s acts w = Ok (s', acts', w') ->
  exists r,
    acts' = (acts ++ [r])%list /\ position r = current_player s /\
    get_recent w'.2
    = if current_player s =? 1 - p
      then HumanLikeAgent.observe (get_recent w.2) (action r)
      else get_recent w.2.
Proof.
  intros Ehl Egto Hcp Hp Hturn. unfold play_turn in Hturn.
  destruct Hcp as [Ecp | Ecp]; rewrite Ecp in *.
  - replace (1 - p =? 1 - p) with true by (symmetry; apply Z.eqb_refl).
    assert (Ene : (p =? 1 - p) = false) by (apply Z.eqb_neq; exact Hp).
    rewrite Ene. unfold getitem in Hturn. rewrite Ehl, Egto in Hturn.
    cbn [mbind result_bind] in Hturn. inv_bind Hturn.
    cbn [choose_action HumanLikeAgent.new] in Hturn.
    inv_bind Hturn. destruct x0 as [a w1]. inv_bind Hx0. injection Hx0 as <- <-.
    inv_bind Hturn. cbn [observe_opponent_action GTOAgent.new] in Hturn.
    cbn [mbind result_bind] in Hturn. inv_bind Hturn.
    cbn [observe_result HumanLikeAgent.new mbind result_bind] in Hturn.
    injection Hturn as <- <- <-.
    eexists. split; [reflexivity|]. split; reflexivity.
  - rewrite Z.eqb_refl. unfold getitem in Hturn.
    replace (1 - (1 - p)) with p in Hturn by lia.
    rewrite Ehl, Egto in Hturn.
    cbn [mbind result_bind] in Hturn. inv_bind Hturn.
    cbn [choose_action GTOAgent.new] in Hturn.
    inv_bind Hturn. destruct x0 as [a w1]. inv_bind Hx0. destruct x0 as [a' g'].
    injection Hx0 as <- <-.
    inv_bind Hturn. cbn [observe_opponent_action HumanLikeAgent.new] in Hturn.
    cbn [mbind result_bind] in Hturn. inv_bind Hturn.
    cbn [observe_result GTOAgent.new mbind result_bind] in Hturn.
    injection Hturn as <- <- <-.
    eexists. split; [reflexivity|]. split; [reflexivity|].
    cbn [snd action fst]. rewrite get_set. reflexivity.
Qed.

Lemma play_loop_observes (fuel : nat) (agents : gmap Z (BaseAgent G M)) (p : Z)
    (nm gto : string) :
  agents !! p = Some (HumanLikeAgent.new get_recent set_recent llm nm) ->
  agents !! (1 - p) = Some (GTOAgent.new gto) ->
  p = 0 \/ p = 1 ->
  forall s acts (w : G * M) s' acts' w',
    conforming s ->
    play_loop fuel agents s acts w = Some (Ok (s', acts', w')) ->
    exists new_acts,
      acts' = (acts ++ new_acts)%list /\
      get_recent w'.2
      = fold_left HumanLikeAgent.observe (actions_of_seat (1 - p) new_acts)
                  (get_recent w.2).
Proof.
  intros Ehl Egto Hp. induction fuel as [|fuel IH];
    intros s acts w s' acts' w' Hc Hl; [discriminate|].
  cbn [play_loop] in Hl. destruct (is_terminal s) eqn:Ht.
  - injection Hl as <- <- <-. exists []. rewrite app_nil_r. split; reflexivity.
  - destruct (play_turn agents s acts w) as [[[s1 acts1] w1]|e] eqn:Hturn;
      [|discriminate].
    destruct (play_turn_applies _ _ _ _ _ _ _ Hturn) as [a Ha].
    assert (Hcp : current_player s = p \/ current_player s = 1 - p).
    { destruct Hc as [_ Hsh _ _]. rewrite Ht in Hsh.
      inversion Hsh; destruct Hp as [-> | ->]; auto. }
    destruct (play_turn_observes agents p nm gto _ _ _ _ _ _ Ehl Egto Hcp
                ltac:(lia) Hturn) as (r & -> & Hpos & Hrec).
    destruct (IH s1 (acts ++ [r])%list w1 s' acts' w'
                (apply_action_conforming _ _ _ Hc Ha) Hl)
      as (new_acts & -> & Hrec').
    exists (r :: new_acts). rewrite <- app_assoc. split; [reflexivity|].
    rewrite Hrec', Hrec. unfold actions_of_seat. cbn [List.filter].
    rewrite Hpos. destruct (current_player s =? 1 - p); reflexivity.
Qed.

(** X17: what the human-like agent gets to see.  In a hand between a
    human-like agent and a GTO agent, at either seat, the human-like agent
    observes the actions of the GTO agent's seat, all of them, in their order,
    and none of its own: after the hand its recent history is the one before
    the hand with these observations made. *)
Theorem human_like_observes (agents : gmap Z (BaseAgent G M)) (p : Z)
    (nm gto : string) (hand_num : Z) (w w' : G * M) (hand : HandResult) :
  agents !! p = Some (HumanLikeAgent.new get_recent set_recent llm nm) ->
  agents !! (1 - p) = Some (GTOAgent.new gto) ->
  p = 0 \/ p = 1 ->
  play_hand agents hand_num w = Ok (hand, w') ->
  get_recent w'.2
  = fold_left HumanLikeAgent.observe
              (actions_of_seat (1 - p) (actions hand)) (get_recent w.2).
Proof.
  intros Ehl Egto Hp Hh.
  destruct (play_hand_state _ _ _ _ _ Hh)
    as (s0 & s & g1 & p0 & p1 & acts & Hs0 & Hl & _ & _ & ->).
  cbn [actions].
  destruct (play_loop_observes 4 agents p nm gto Ehl Egto Hp _ _ _ _ _ _
              (start_new_hand_conforming _ _ _ Hs0) Hl)
    as (new_acts & Hacts & Hrec).
  cbn [app] in Hacts. subst new_acts. exact Hrec.
Qed.

End HumanLikeObserves.

Lemma human_like_observes_witness :
  exists hand w',
    play_hand (<[1 := gto_opponent]> (<[0 := human_like]> ∅)) 0 (0, [])
    = Ok (hand, w') /\
    w'.2 = fold_left HumanLikeAgent.observe
                     (actions_of_seat (1 - 0) (actions hand)) [].
Proof.
  destruct (play_hand (<[1 := gto_opponent]> (<[0 := human_like]> ∅)) 0 (0, []))
    as [[hand w']|e] eqn:Hh.
  - exists hand, w'. split; [reflexivity|].
    apply (human_like_observes (G := Z) (M := list string)
             (fun m => m) (fun h _ => h)
             (fun _ _ _ _ _ _ => HumanLikeAgent.Unparsed)
             (fun h m => eq_refl)
             (<[1 := gto_opponent]> (<[0 := human_like]> ∅))
             0 "HumanLike" "GTO" 0 (0, []) w' hand);
      [reflexivity | reflexivity | left; reflexivity | exact Hh].
  - vm_compute in Hh. discriminate Hh.
Defined.
